(** * Page-block isolation (mm/page_isolation.c)

    A shallow embedding of the CMA page-isolation range driver and range
    verifier of mm/page_isolation.c and of their legacy counterparts,
    together with the properties of its specification.

    Conventions of the embedding.
    - A [struct page *] is represented by the frame number of the page it
      points to ([pfn_to_page] and [page_to_pfn] are the identity); the NULL
      pointer is [None].
    - [unsigned long] values are integers in [0, 2^BITS_PER_LONG); every
      addition the code performs on them is followed by [ulong].
    - The code runs under the zone spinlock or between two critical
      sections; the embedding is sequential, [spin_lock_irqsave] and
      [spin_unlock_irqrestore] have no counterpart, and [cma_log] and
      [dump_page] (diagnostics only) are dropped.
    - Loops that the C code bounds only by its data are given a fuel
      argument; [None] / [OutOfFuel] means the fuel was not enough. *)

From Stdlib Require Import ZArith Lia.
From stdpp Require Import base numbers option list gmap fin_maps.

Local Open Scope Z_scope.

(** ** Data model *)

(** The pageblock migration types of the specification's data model. *)
Inductive migratetype :=
| MIGRATE_UNMOVABLE
| MIGRATE_RECLAIMABLE
| MIGRATE_MOVABLE
| MIGRATE_CMA
| MIGRATE_ISOLATE.

#[global] Instance migratetype_eq_dec : EqDecision migratetype.
Proof. solve_decision. Defined.

(** The integer value of a migration type, as stored in an [unsigned long]
    such as [page->private].  The enum is declared in a header that is not
    part of the sources at hand; only the injectivity of the numbering is
    ever used. *)
Definition migratetype_val (mt : migratetype) : Z :=
  match mt with
  | MIGRATE_UNMOVABLE => 0
  | MIGRATE_RECLAIMABLE => 1
  | MIGRATE_MOVABLE => 2
  | MIGRATE_CMA => 4
  | MIGRATE_ISOLATE => 5
  end.

Definition migratetype_of_val (v : Z) : migratetype :=
  match v with
  | 1 => MIGRATE_RECLAIMABLE
  | 2 => MIGRATE_MOVABLE
  | 4 => MIGRATE_CMA
  | 5 => MIGRATE_ISOLATE
  | _ => MIGRATE_UNMOVABLE
  end.

#[global] Instance migratetype_countable : Countable migratetype :=
  inj_countable' migratetype_val migratetype_of_val
    (fun mt => match mt with
               | MIGRATE_UNMOVABLE | MIGRATE_RECLAIMABLE | MIGRATE_MOVABLE
               | MIGRATE_CMA | MIGRATE_ISOLATE => eq_refl
               end).

(** The fields of [struct page] that the isolation code reads, named after
    the accessors it reads them with.  The buddy order is a field of its
    own, as in the specification's data model, whatever slot of the page
    the allocator keeps it in.  [free_list] is the migration type of the
    zone free list the page is linked on while it is in the buddy system
    (free lists are keyed by order and migration type, and a free page is
    on exactly one of them). *)
Record page := Page {
  page_count : Z;
  page_private : Z;
  get_freepage_migratetype : migratetype;
  PageBuddy : bool;
  page_order : nat;
  PageHWPoison : bool;
  free_list : migratetype
}.

#[global] Instance page_eq_dec : EqDecision page.
Proof. solve_decision. Defined.

(** A zone: the page records of its valid frames (a frame without a record
    is absent, [pfn_valid_within] is false on it), the pageblock
    migration-type labels keyed by pageblock number, and the per-migrate-type
    free-page counters. *)
Record zone := Zone {
  mem_map : gmap Z page;
  pageblock_flags : gmap Z migratetype;
  vm_stat : gmap migratetype Z
}.

#[global] Instance zone_eq_dec : EqDecision zone.
Proof. solve_decision. Defined.

(** Calls that the range driver and the range verifier make on the
    isolation primitive and on the free-list mover, in program order. *)
Inductive call :=
| call_set_migratetype_isolate_cma (pg : Z) (skip_hwpoisoned_pages : bool)
| call_unset_migratetype_isolate_cma (pg : Z) (mt : migratetype)
| call_move_freepages (start_page end_page : Z) (mt : migratetype).

#[global] Instance call_eq_dec : EqDecision call.
Proof. solve_decision. Defined.

(** What a call of a range operation can do: return to its caller, stop in
    [BUG_ON], or (in the embedding only) run out of fuel.  [Bug] records the
    zone and the calls made up to the abort. *)
Inductive outcome (A : Type) :=
| Returns (ret : A) (z : zone) (log : list call)
| Bug (z : zone) (log : list call)
| OutOfFuel.
Arguments Returns {A} ret z log.
Arguments Bug {A} z log.
Arguments OutOfFuel {A}.

Definition EBUSY : Z := 16.

(** [unsigned long] on the 32-bit ARM target of this tree. *)
Definition BITS_PER_LONG : Z := 32.

Definition ulong (x : Z) : Z := x mod 2 ^ BITS_PER_LONG.

Definition pfn_valid_within (z : zone) (pfn : Z) : bool :=
  bool_decide (is_Some (mem_map z !! pfn)).

(** [1 << page_order(page)]; the shift is an [int] shift, exact for every
    order below 31 (buddy orders are below MAX_ORDER = 11). *)
Definition order_nr_pages (pg : page) : Z := Z.shiftl 1 (Z.of_nat (page_order pg)).

(** Calls that the legacy range driver makes on its two primitives. *)
Inductive legacy_call :=
| call_set_migratetype_isolate (pg : Z)
| call_unset_migratetype_isolate (pg : Z).

#[global] Instance legacy_call_eq_dec : EqDecision legacy_call.
Proof. solve_decision. Defined.

(** [outcome] for the legacy range driver, with its own calls. *)
Inductive legacy_outcome :=
| LegacyReturns (ret : Z) (z : zone) (log : list legacy_call)
| LegacyBug (z : zone) (log : list legacy_call)
| LegacyOutOfFuel.

Section page_isolation.

(** Build constant: [pageblock_nr_pages] is [1 << pageblock_order]. *)
Variable pageblock_order : nat.

(** The allocator's predicate deciding whether a pageblock holds a page
    that cannot be migrated; the specification leaves it abstract. *)
Variable has_unmovable_pages : zone -> Z -> bool -> bool.

Definition pageblock_nr_pages : Z := Z.shiftl 1 (Z.of_nat pageblock_order).

(** *** Pageblock map accessor *)

Definition pageblock_nr (pfn : Z) : Z := Z.shiftr pfn (Z.of_nat pageblock_order).

(** Modelled from the spec: [get_pageblock_migratetype] (4.A), the label of
    the pageblock containing the page.  A pageblock whose label was never
    written reads as the all-zero bit pattern. *)
Definition get_pageblock_migratetype (z : zone) (pg : Z) : migratetype :=
  default MIGRATE_UNMOVABLE (pageblock_flags z !! pageblock_nr pg).

(** Modelled from the spec: [set_pageblock_migratetype] (4.A). *)
Definition set_pageblock_migratetype (z : zone) (pg : Z) (mt : migratetype) : zone :=
  Zone (mem_map z) (<[pageblock_nr pg := mt]> (pageblock_flags z)) (vm_stat z).

(** *** Free-list mover *)

Definition in_extent (first last pfn : Z) : bool :=
  (first <=? pfn) && (pfn <=? last).

(** One page handled by the mover: a page in the buddy system is relinked
    on the free list of [mt] and its freepage-migratetype hint is stamped;
    any other page is left alone. *)
Definition move_page (mt : migratetype) (pg : page) : page :=
  if PageBuddy pg
  then Page (page_count pg) (page_private pg) mt true (page_order pg)
            (PageHWPoison pg) mt
  else pg.

(** Modelled from the spec: [move_freepages] (4.B) relocates every free
    page whose frame lies in the inclusive extent [first..last] to the free
    list of [mt] and stamps its hint; it returns the number of frames
    relocated, the sum of [2^order] over the moved extents. *)
Definition move_freepages (z : zone) (first last : Z) (mt : migratetype) : zone * Z :=
  (Zone (map_imap (fun pfn pg =>
                     Some (if in_extent first last pfn then move_page mt pg else pg))
                  (mem_map z))
        (pageblock_flags z) (vm_stat z),
   map_fold (fun pfn pg n =>
               if in_extent first last pfn && PageBuddy pg
               then n + order_nr_pages pg else n)
            0 (mem_map z)).

(** Modelled from the spec: [move_freepages_block] (4.B), the mover applied
    to the whole pageblock containing [pg]. *)
Definition move_freepages_block (z : zone) (pg : Z) (mt : migratetype) : zone * Z :=
  let start_pfn := Z.shiftl (pageblock_nr pg) (Z.of_nat pageblock_order) in
  move_freepages z start_pfn (start_pfn + pageblock_nr_pages - 1) mt.

(** Modelled from the spec: [__mod_zone_freepage_state], the free-page
    counter update hook, adds [nr_pages] to the counter of [mt]. *)
Definition __mod_zone_freepage_state (z : zone) (nr_pages : Z) (mt : migratetype) : zone :=
  Zone (mem_map z) (pageblock_flags z)
       (<[mt := default 0 (vm_stat z !! mt) + nr_pages]> (vm_stat z)).

(** *** Isolation primitive *)

(** Modelled from the spec: [set_migratetype_isolate_cma] (4.C, set_isolate)
    is not part of the sources at hand.  It fails with [-EBUSY] without
    mutating state when [has_unmovable_pages] holds; otherwise it sets the
    label to ISOLATE, moves the block's free pages onto the ISOLATE list
    and adjusts the free-page counter by the returned count. *)
Definition set_migratetype_isolate_cma (z : zone) (pg : Z) (skip_hwpoisoned_pages : bool)
  : zone * Z :=
  if has_unmovable_pages z pg skip_hwpoisoned_pages then (z, - EBUSY)
  else
    let migratetype := get_pageblock_migratetype z pg in
    let z1 := set_pageblock_migratetype z pg MIGRATE_ISOLATE in
    let '(z2, nr_pages) := move_freepages_block z1 pg MIGRATE_ISOLATE in
    (__mod_zone_freepage_state z2 (- nr_pages) migratetype, 0).

(** [unset_migratetype_isolate_cma], lines 149-163. *)
Definition unset_migratetype_isolate_cma (z : zone) (pg : Z) (mt : migratetype) : zone :=
  if decide (get_pageblock_migratetype z pg <> MIGRATE_ISOLATE) then z
  else
    let '(z1, nr_pages) := move_freepages_block z pg mt in
    let z2 := __mod_zone_freepage_state z1 nr_pages mt in
    set_pageblock_migratetype z2 pg mt.

(** *** Range driver *)

(** The scan of [__first_valid_page], lines 14-16: [n] is the number of
    iterations left, [i] the loop counter. *)
Fixpoint first_valid_scan (z : zone) (pfn i : Z) (n : nat) : option Z :=
  match n with
  | O => None
  | S n' =>
      if pfn_valid_within z (ulong (pfn + i)) then Some (ulong (pfn + i))
      else first_valid_scan z pfn (i + 1) n'
  end.

(** [__first_valid_page], lines 10-23. *)
Definition __first_valid_page (z : zone) (pfn nr_pages : Z) : option Z :=
  first_valid_scan z pfn 0 (Z.to_nat nr_pages).

(** Forward pass of [start_isolate_page_range_cma], lines 190-200.  The
    third component is [Some undo_pfn] when the pass left through
    [goto undo]. *)
Fixpoint isolate_pageblocks (fuel : nat) (z : zone) (pfn end_pfn : Z)
    (skip_hwpoisoned_pages : bool) : option (zone * list call * option Z) :=
  match fuel with
  | O => None
  | S fuel' =>
      if pfn <? end_pfn then
        match __first_valid_page z pfn pageblock_nr_pages with
        | Some pg =>
            let '(z1, ret) := set_migratetype_isolate_cma z pg skip_hwpoisoned_pages in
            if decide (ret <> 0)
            then Some (z1, [call_set_migratetype_isolate_cma pg skip_hwpoisoned_pages],
                       Some pfn)
            else
              '(z2, log, undo_pfn) ←
                isolate_pageblocks fuel' z1 (ulong (pfn + pageblock_nr_pages)) end_pfn
                                   skip_hwpoisoned_pages;
              Some (z2, call_set_migratetype_isolate_cma pg skip_hwpoisoned_pages :: log,
                    undo_pfn)
        | None =>
            isolate_pageblocks fuel' z (ulong (pfn + pageblock_nr_pages)) end_pfn
                               skip_hwpoisoned_pages
        end
      else Some (z, [], None)
  end.

(** Rollback loop of [start_isolate_page_range_cma], lines 203-206. *)
Fixpoint rollback_pageblocks (fuel : nat) (z : zone) (pfn undo_pfn : Z)
    (mt : migratetype) : option (zone * list call) :=
  match fuel with
  | O => None
  | S fuel' =>
      if pfn <? undo_pfn then
        '(z', log) ←
          rollback_pageblocks fuel' (unset_migratetype_isolate_cma z pfn mt)
                              (ulong (pfn + pageblock_nr_pages)) undo_pfn mt;
        Some (z', call_unset_migratetype_isolate_cma pfn mt :: log)
      else Some (z, [])
  end.

(** [BUG_ON((pfn) & (pageblock_nr_pages - 1))]. *)
Definition misaligned (pfn : Z) : bool :=
  bool_decide (Z.land pfn (pageblock_nr_pages - 1) <> 0).

(** [start_isolate_page_range_cma], lines 180-209 (isolate_range). *)
Definition start_isolate_page_range_cma (fuel : nat) (z : zone) (start_pfn end_pfn : Z)
    (mt : migratetype) (skip_hwpoisoned_pages : bool) : outcome Z :=
  if misaligned start_pfn then Bug z []
  else if misaligned end_pfn then Bug z []
  else
    match isolate_pageblocks fuel z start_pfn end_pfn skip_hwpoisoned_pages with
    | None => OutOfFuel
    | Some (z1, log1, None) => Returns 0 z1 log1
    | Some (z1, log1, Some undo_pfn) =>
        match rollback_pageblocks fuel z1 start_pfn undo_pfn mt with
        | None => OutOfFuel
        | Some (z2, log2) => Returns (- EBUSY) z2 (log1 ++ log2)
        end
    end.

(** Loop of [undo_isolate_page_range_cma], lines 222-229. *)
Fixpoint undo_pageblocks (fuel : nat) (z : zone) (pfn end_pfn : Z)
    (mt : migratetype) : option (zone * list call) :=
  match fuel with
  | O => None
  | S fuel' =>
      if pfn <? end_pfn then
        match __first_valid_page z pfn pageblock_nr_pages with
        | Some pg =>
            if decide (get_pageblock_migratetype z pg <> MIGRATE_ISOLATE)
            then undo_pageblocks fuel' z (ulong (pfn + pageblock_nr_pages)) end_pfn mt
            else
              '(z', log) ←
                undo_pageblocks fuel' (unset_migratetype_isolate_cma z pg mt)
                                (ulong (pfn + pageblock_nr_pages)) end_pfn mt;
              Some (z', call_unset_migratetype_isolate_cma pg mt :: log)
        | None => undo_pageblocks fuel' z (ulong (pfn + pageblock_nr_pages)) end_pfn mt
        end
      else Some (z, [])
  end.

(** [undo_isolate_page_range_cma], lines 215-231 (undo_range). *)
Definition undo_isolate_page_range_cma (fuel : nat) (z : zone) (start_pfn end_pfn : Z)
    (mt : migratetype) : outcome Z :=
  if misaligned start_pfn then Bug z []
  else if misaligned end_pfn then Bug z []
  else
    match undo_pageblocks fuel z start_pfn end_pfn mt with
    | None => OutOfFuel
    | Some (z', log) => Returns 0 z' log
    end.

(** *** Range verifier *)

(** The [while] loop of [__test_page_isolated_in_pageblock_cma], lines
    246-298.  [failed] is the content of [*pfailed_pfn].  The result is the
    zone, the calls made, the value of [pfn] when the loop is left and the
    content of [*pfailed_pfn].  A frame is valid exactly when it has a page
    record, so the test of [pfn_valid_within] and the read of the page are
    one lookup; the mover leaves [page_order] alone, so the order read
    before the repair is the one added to [pfn] after it. *)
Fixpoint test_walk_cma (fuel : nat) (z : zone) (pfn end_pfn : Z)
    (skip_hwpoisoned_pages : bool) (failed : Z) : option (zone * list call * Z * Z) :=
  match fuel with
  | O => None
  | S fuel' =>
      if pfn <? end_pfn then
        match mem_map z !! pfn with
        | None => test_walk_cma fuel' z (ulong (pfn + 1)) end_pfn skip_hwpoisoned_pages failed
        | Some pg =>
            if PageBuddy pg then
              if decide (get_freepage_migratetype pg <> MIGRATE_ISOLATE) then
                let end_page := pfn + order_nr_pages pg - 1 in
                let z1 := (move_freepages z pfn end_page MIGRATE_ISOLATE).1 in
                '(z2, log, pfn', failed') ←
                  test_walk_cma fuel' z1 (ulong (pfn + order_nr_pages pg)) end_pfn
                                skip_hwpoisoned_pages failed;
                Some (z2, call_move_freepages pfn end_page MIGRATE_ISOLATE :: log,
                      pfn', failed')
              else
                test_walk_cma fuel' z (ulong (pfn + order_nr_pages pg)) end_pfn
                              skip_hwpoisoned_pages failed
            else if bool_decide (page_count pg = 0)
                    && bool_decide (get_freepage_migratetype pg = MIGRATE_ISOLATE) then
              test_walk_cma fuel' z (ulong (pfn + 1)) end_pfn skip_hwpoisoned_pages failed
            else if skip_hwpoisoned_pages && PageHWPoison pg then
              test_walk_cma fuel' z (ulong (pfn + 1)) end_pfn skip_hwpoisoned_pages failed
            else Some (z, [], pfn, pfn)
        end
      else Some (z, [], pfn, failed)
  end.

(** [__test_page_isolated_in_pageblock_cma], lines 240-305: 1 when the walk
    consumed the range, 0 otherwise. *)
Definition __test_page_isolated_in_pageblock_cma (fuel : nat) (z : zone)
    (pfn end_pfn : Z) (skip_hwpoisoned_pages : bool) (failed : Z)
  : option (Z * zone * list call * Z) :=
  '(z', log, pfn', failed') ← test_walk_cma fuel z pfn end_pfn skip_hwpoisoned_pages failed;
  Some (if pfn' <? end_pfn then 0 else 1, z', log, failed').

(** Label check of [test_pages_isolated_cma], lines 320-327 (and of
    [test_pages_isolated], lines 131-135): the value of [pfn] when the loop
    is left. *)
Fixpoint check_pageblocks (fuel : nat) (z : zone) (pfn end_pfn : Z) : option Z :=
  match fuel with
  | O => None
  | S fuel' =>
      if pfn <? end_pfn then
        match __first_valid_page z pfn pageblock_nr_pages with
        | Some pg =>
            if decide (get_pageblock_migratetype z pg <> MIGRATE_ISOLATE) then Some pfn
            else check_pageblocks fuel' z (ulong (pfn + pageblock_nr_pages)) end_pfn
        | None => check_pageblocks fuel' z (ulong (pfn + pageblock_nr_pages)) end_pfn
        end
      else Some pfn
  end.

(** [test_pages_isolated_cma], lines 307-341 (test_range).  The value
    returned is the pair of the function's result and the content of
    [*pfailed_pfn] on return; [failed] is its content at the call. *)
Definition test_pages_isolated_cma (fuel : nat) (z : zone) (start_pfn end_pfn : Z)
    (skip_hwpoisoned_pages : bool) (failed : Z) : outcome (Z * Z) :=
  match check_pageblocks fuel z start_pfn end_pfn with
  | None => OutOfFuel
  | Some pfn =>
      let pg := __first_valid_page z start_pfn (ulong (end_pfn - start_pfn)) in
      if (pfn <? end_pfn) || bool_decide (pg = None) then Returns (- EBUSY, failed) z []
      else
        match __test_page_isolated_in_pageblock_cma fuel z start_pfn end_pfn
                skip_hwpoisoned_pages failed with
        | None => OutOfFuel
        | Some (ret, z', log, failed') =>
            Returns (if decide (ret <> 0) then 0 else - EBUSY, failed') z' log
        end
  end.

(** *** Legacy verifier *)

(** The [while] loop of [__test_page_isolated_in_pageblock], lines 100-113.
    The loop has no side effect; it is given the result shape of
    [test_walk_cma] (zone, calls, final [pfn]) so that the two can be
    compared. *)
Fixpoint test_walk (fuel : nat) (z : zone) (pfn end_pfn : Z)
  : option (zone * list call * Z) :=
  match fuel with
  | O => None
  | S fuel' =>
      if pfn <? end_pfn then
        match mem_map z !! pfn with
        | None => test_walk fuel' z (ulong (pfn + 1)) end_pfn
        | Some pg =>
            if PageBuddy pg then
              test_walk fuel' z (ulong (pfn + order_nr_pages pg)) end_pfn
            else if bool_decide (page_count pg = 0)
                    && bool_decide (page_private pg = migratetype_val MIGRATE_ISOLATE) then
              test_walk fuel' z (ulong (pfn + 1)) end_pfn
            else Some (z, [], pfn)
        end
      else Some (z, [], pfn)
  end.

(** [__test_page_isolated_in_pageblock], lines 94-117. *)
Definition __test_page_isolated_in_pageblock (fuel : nat) (z : zone) (pfn end_pfn : Z)
  : option (Z * zone * list call) :=
  '(z', log, pfn') ← test_walk fuel z pfn end_pfn;
  Some (if pfn' <? end_pfn then 0 else 1, z', log).

(** [test_pages_isolated], lines 119-145. *)
Definition test_pages_isolated (fuel : nat) (z : zone) (start_pfn end_pfn : Z)
  : outcome Z :=
  match check_pageblocks fuel z start_pfn end_pfn with
  | None => OutOfFuel
  | Some pfn =>
      let pg := __first_valid_page z start_pfn (ulong (end_pfn - start_pfn)) in
      if (pfn <? end_pfn) || bool_decide (pg = None) then Returns (- EBUSY) z []
      else
        match __test_page_isolated_in_pageblock fuel z start_pfn end_pfn with
        | None => OutOfFuel
        | Some (ret, z', log) => Returns (if decide (ret <> 0) then 0 else - EBUSY) z' log
        end
  end.

(** *** Predicates of the specification *)

Definition aligned (pfn : Z) : Prop := pfn mod pageblock_nr_pages = 0.

(** The primitives never create or remove a page record. *)
Definition same_frames (z z' : zone) : Prop :=
  forall f, is_Some (mem_map z' !! f) <-> is_Some (mem_map z !! f).

(** A pageblock is present when at least one of its frames is valid. *)
Definition pageblock_valid (z : zone) (p : Z) : Prop :=
  exists f, pageblock_nr f = pageblock_nr p /\ is_Some (mem_map z !! f).

(** Enough fuel to walk the pageblocks from [pfn] to [end_pfn]: one unit
    per pageblock and one for the final test of the loop condition. *)
Definition enough_fuel (fuel : nat) (pfn end_pfn : Z) : Prop :=
  Z.max 0 (end_pfn - pfn) < Z.of_nat fuel * pageblock_nr_pages.

(** The first frames of [n] consecutive pageblocks, from [pfn] on. *)
Fixpoint pageblock_starts (pfn : Z) (n : nat) : list Z :=
  match n with
  | O => []
  | S n' => pfn :: pageblock_starts (pfn + pageblock_nr_pages) n'
  end.

(** The first frames of the pageblocks of the aligned range [pfn, end_pfn). *)
Definition pageblocks_between (pfn end_pfn : Z) : list Z :=
  pageblock_starts pfn (Z.to_nat ((end_pfn - pfn) `div` pageblock_nr_pages)).

(** Where the forward pass stopped: at the failing pageblock, or at the
    end of the range. *)
Definition forward_stop (pfn end_pfn : Z) (undo_pfn : option Z) : Z :=
  match undo_pfn with Some u => u | None => Z.max pfn end_pfn end.

(** The three ways in which the content walk accepts a valid frame [f] of
    a range starting at [lo], where [pg] is the frame's page record.  A
    frame is buddy-free when it lies in a buddy extent
    [h, h + 2^order) whose head page [h] carries [PageBuddy]; the hint of
    the extent is the hint of its head page. *)
Definition frame_isolated (z : zone) (skip : bool) (lo f : Z) (pg : page) : Prop :=
  (exists h hp, lo <= h <= f /\ f < h + order_nr_pages hp
                /\ mem_map z !! h = Some hp /\ PageBuddy hp = true
                /\ get_freepage_migratetype hp = MIGRATE_ISOLATE)
  \/ (page_count pg = 0 /\ get_freepage_migratetype pg = MIGRATE_ISOLATE)
  \/ (skip = true /\ PageHWPoison pg = true).

(** Every valid frame of [lo, hi) is accepted. *)
Definition frames_isolated (z : zone) (skip : bool) (lo hi : Z) : Prop :=
  forall f pg, lo <= f < hi -> mem_map z !! f = Some pg -> frame_isolated z skip lo f pg.

(** The page on which the content walk stops. *)
Definition frame_offending (skip : bool) (pg : page) : Prop :=
  PageBuddy pg = false
  /\ ~ (page_count pg = 0 /\ get_freepage_migratetype pg = MIGRATE_ISOLATE)
  /\ ~ (skip = true /\ PageHWPoison pg = true).

(** Two zones that differ at most in the free list and the hint of their
    pages. *)
Definition pages_agree (z z' : zone) : Prop :=
  forall f,
    match mem_map z !! f, mem_map z' !! f with
    | Some pg, Some pg' =>
        page_count pg' = page_count pg /\ page_private pg' = page_private pg
        /\ PageBuddy pg' = PageBuddy pg /\ page_order pg' = page_order pg
        /\ PageHWPoison pg' = PageHWPoison pg
    | None, None => True
    | _, _ => False
    end.

(** Some buddy extent reaches the top of the frame-number space, where the
    walk's [pfn] wraps. *)
Definition extent_wraps (z : zone) : Prop :=
  exists h hp, mem_map z !! h = Some hp /\ PageBuddy hp = true
               /\ 2 ^ BITS_PER_LONG <= h + order_nr_pages hp.

(** Every buddy extent ends below the top of the frame-number space. *)
Definition extents_fit (z : zone) : Prop :=
  forall h hp, mem_map z !! h = Some hp -> PageBuddy hp = true ->
               h + order_nr_pages hp < 2 ^ BITS_PER_LONG.

(** The invariant of the content walk at [pfn]: either the frames of the
    range below [pfn] are all accepted, or [pfn] has wrapped past a buddy
    extent that covers the rest of the range. *)
Definition walk_inv (z : zone) (skip : bool) (start_pfn end_pfn pfn : Z) : Prop :=
  (start_pfn <= pfn /\ frames_isolated z skip start_pfn pfn)
  \/ (frames_isolated z skip start_pfn end_pfn /\ extent_wraps z).

(** The pages on which the two verifiers are compared: not
    hardware-poisoned; if in the buddy system, with hint ISOLATE; if not
    and of refcount 0, with the freepage migratetype in the private field
    (neither verifier reads the private field of a page in the buddy
    system). *)
Definition comparable_page (pg : page) : Prop :=
  PageHWPoison pg = false
  /\ (PageBuddy pg = true -> get_freepage_migratetype pg = MIGRATE_ISOLATE)
  /\ (PageBuddy pg = false -> page_count pg = 0 ->
      page_private pg = migratetype_val (get_freepage_migratetype pg)).

(** A range state on which the two verifiers are compared: its pages are
    comparable and its buddy extents end below the top of the frame-number
    space, so that neither walk leaves the range by a wrap of [pfn]. *)
Definition legacy_comparable (z : zone) (start_pfn end_pfn : Z) : Prop :=
  forall f pg, start_pfn <= f < end_pfn -> mem_map z !! f = Some pg ->
    comparable_page pg
    /\ (PageBuddy pg = true -> f + order_nr_pages pg < 2 ^ BITS_PER_LONG).

(** A zone all of whose pages are comparable. *)
Definition zone_comparable (z : zone) : Prop :=
  forall f pg, mem_map z !! f = Some pg -> comparable_page pg.

(** The result of test_range without the content of [*pfailed_pfn]. *)
Definition drop_failed (o : outcome (Z * Z)) : outcome Z :=
  match o with
  | Returns (ret, _) z log => Returns ret z log
  | Bug z log => Bug z log
  | OutOfFuel => OutOfFuel
  end.

(** The page on which [undo_isolate_page_range_cma] calls
    [unset_migratetype_isolate_cma] for the pageblock that starts at [p]:
    its first valid page, when there is one and the label is ISOLATE. *)
Definition isolated_first_page (z : zone) (p : Z) : option Z :=
  match __first_valid_page z p pageblock_nr_pages with
  | Some pg =>
      if decide (get_pageblock_migratetype z pg = MIGRATE_ISOLATE) then Some pg else None
  | None => None
  end.

(** [z'] is [z] with some of its buddy pages moved to the ISOLATE free
    list: same labels, same counters, and every page either as it was or a
    buddy page relinked and stamped. *)
Definition repaired (z z' : zone) : Prop :=
  pageblock_flags z' = pageblock_flags z /\ vm_stat z' = vm_stat z
  /\ forall f, mem_map z' !! f = mem_map z !! f
               \/ exists pg, mem_map z !! f = Some pg /\ PageBuddy pg = true
                             /\ mem_map z' !! f = Some (move_page MIGRATE_ISOLATE pg).

(** A repair call of the range verifier in zone [z]: [move_freepages] to
    ISOLATE over the extent of a buddy page whose hint is not ISOLATE. *)
Definition repair_call (z : zone) (c : call) : Prop :=
  exists p pg, c = call_move_freepages p (p + order_nr_pages pg - 1) MIGRATE_ISOLATE
               /\ mem_map z !! p = Some pg /\ PageBuddy pg = true
               /\ get_freepage_migratetype pg <> MIGRATE_ISOLATE.

(** No page of the zone is hardware-poisoned. *)
Definition no_poison (z : zone) : Prop :=
  forall f pg, mem_map z !! f = Some pg -> PageHWPoison pg = false.



(** *** Legacy range driver *)

Section legacy_driver.

(** [set_migratetype_isolate] and [unset_migratetype_isolate] are defined
    in the page allocator, outside the sources at hand; the legacy driver
    is embedded over any pair of them.  [set_migratetype_isolate] returns
    the zone it leaves and its [int] result. *)
Variable set_migratetype_isolate : zone -> Z -> zone * Z.
Variable unset_migratetype_isolate : zone -> Z -> zone.

(** Forward pass of [start_isolate_page_range], lines 47-56. *)
Fixpoint isolate_pageblocks_legacy (fuel : nat) (z : zone) (pfn end_pfn : Z)
  : option (zone * list legacy_call * option Z) :=
  match fuel with
  | O => None
  | S fuel' =>
      if pfn <? end_pfn then
        match __first_valid_page z pfn pageblock_nr_pages with
        | Some pg =>
            let '(z1, ret) := set_migratetype_isolate z pg in
            if decide (ret <> 0)
            then Some (z1, [call_set_migratetype_isolate pg], Some pfn)
            else
              '(z2, log, undo_pfn) ←
                isolate_pageblocks_legacy fuel' z1 (ulong (pfn + pageblock_nr_pages))
                                          end_pfn;
              Some (z2, call_set_migratetype_isolate pg :: log, undo_pfn)
        | None =>
            isolate_pageblocks_legacy fuel' z (ulong (pfn + pageblock_nr_pages)) end_pfn
        end
      else Some (z, [], None)
  end.

(** Rollback loop of [start_isolate_page_range], lines 59-62. *)
Fixpoint rollback_pageblocks_legacy (fuel : nat) (z : zone) (pfn undo_pfn : Z)
  : option (zone * list legacy_call) :=
  match fuel with
  | O => None
  | S fuel' =>
      if pfn <? undo_pfn then
        '(z', log) ←
          rollback_pageblocks_legacy fuel' (unset_migratetype_isolate z pfn)
                                     (ulong (pfn + pageblock_nr_pages)) undo_pfn;
        Some (z', call_unset_migratetype_isolate pfn :: log)
      else Some (z, [])
  end.

(** [start_isolate_page_range], lines 38-65. *)
Definition start_isolate_page_range (fuel : nat) (z : zone) (start_pfn end_pfn : Z)
  : legacy_outcome :=
  if misaligned start_pfn then LegacyBug z []
  else if misaligned end_pfn then LegacyBug z []
  else
    match isolate_pageblocks_legacy fuel z start_pfn end_pfn with
    | None => LegacyOutOfFuel
    | Some (z1, log1, None) => LegacyReturns 0 z1 log1
    | Some (z1, log1, Some undo_pfn) =>
        match rollback_pageblocks_legacy fuel z1 start_pfn undo_pfn with
        | None => LegacyOutOfFuel
        | Some (z2, log2) => LegacyReturns (- EBUSY) z2 (log1 ++ log2)
        end
    end.

(** Loop of [undo_isolate_page_range], lines 77-84. *)
Fixpoint undo_pageblocks_legacy (fuel : nat) (z : zone) (pfn end_pfn : Z)
  : option (zone * list legacy_call) :=
  match fuel with
  | O => None
  | S fuel' =>
      if pfn <? end_pfn then
        match __first_valid_page z pfn pageblock_nr_pages with
        | Some pg =>
            if decide (get_pageblock_migratetype z pg <> MIGRATE_ISOLATE)
            then undo_pageblocks_legacy fuel' z (ulong (pfn + pageblock_nr_pages)) end_pfn
            else
              '(z', log) ←
                undo_pageblocks_legacy fuel' (unset_migratetype_isolate z pg)
                                       (ulong (pfn + pageblock_nr_pages)) end_pfn;
              Some (z', call_unset_migratetype_isolate pg :: log)
        | None => undo_pageblocks_legacy fuel' z (ulong (pfn + pageblock_nr_pages)) end_pfn
        end
      else Some (z, [])
  end.

(** [undo_isolate_page_range], lines 70-86. *)
Definition undo_isolate_page_range (fuel : nat) (z : zone) (start_pfn end_pfn : Z)
  : legacy_outcome :=
  if misaligned start_pfn then LegacyBug z []
  else if misaligned end_pfn then LegacyBug z []
  else
    match undo_pageblocks_legacy fuel z start_pfn end_pfn with
    | None => LegacyOutOfFuel
    | Some (z', log) => LegacyReturns 0 z' log
    end.

End legacy_driver.

(** The call of the CMA driver that stands for a call of the legacy one,
    once the skip flag and the recovery type are fixed. *)
Definition cma_call (skip : bool) (mt : migratetype) (c : legacy_call) : call :=
  match c with
  | call_set_migratetype_isolate pg => call_set_migratetype_isolate_cma pg skip
  | call_unset_migratetype_isolate pg => call_unset_migratetype_isolate_cma pg mt
  end.

Definition cma_outcome (skip : bool) (mt : migratetype) (o : legacy_outcome) : outcome Z :=
  match o with
  | LegacyReturns ret z log => Returns ret z (cma_call skip mt <$> log)
  | LegacyBug z log => Bug z (cma_call skip mt <$> log)
  | LegacyOutOfFuel => OutOfFuel
  end.


(** *** Concrete scenarios (pageblocks of four frames) *)

(** A free page of order [k] on the free list of [mt]. *)
Definition free_page (mt : migratetype) (k : nat) : page :=
  Page 0 (Z.of_nat k) mt true k false mt.

(** A page in use, with one reference. *)
Definition used_page : page :=
  Page 1 0 MIGRATE_MOVABLE false 0 false MIGRATE_MOVABLE.

(** A page just freed, not yet in the buddy system: refcount 0, hint [mt]. *)
Definition freed_page (mt : migratetype) : page :=
  Page 0 (migratetype_val mt) mt false 0 false mt.

(** A sample allocator predicate: the pageblock of [pg] holds a page in use
    (not in the buddy system, refcount not 0) that is not a poisoned page
    being skipped. *)
Definition pinned_in_pageblock (order : nat) (z : zone) (pg : Z) (skip : bool) : bool :=
  bool_decide (map_Exists
    (fun pfn p => Z.shiftr pfn (Z.of_nat order) = Z.shiftr pg (Z.of_nat order)
                  /\ PageBuddy p = false /\ page_count p <> 0
                  /\ ~ (skip = true /\ PageHWPoison p = true))
    (mem_map z)).

(** Pageblock 0 already ISOLATE and free, pageblock 1 MOVABLE with a page
    in use. *)
Definition zone_overlap : zone :=
  Zone (list_to_map [(0, free_page MIGRATE_ISOLATE 2);
                     (4, free_page MIGRATE_MOVABLE 0); (5, used_page)])
       (list_to_map [(0, MIGRATE_ISOLATE); (1, MIGRATE_MOVABLE)]) ∅.

(** Pageblock 0 MOVABLE and free, pageblock 1 MOVABLE with a page in use
    (scenario 2 of the specification, on two pageblocks). *)
Definition zone_partial : zone :=
  Zone (list_to_map [(0, free_page MIGRATE_MOVABLE 2); (5, used_page)])
       (list_to_map [(0, MIGRATE_MOVABLE); (1, MIGRATE_MOVABLE)]) ∅.

(** Pageblock 0 without any valid frame, pageblock 1 with a page in use. *)
Definition zone_hole : zone :=
  Zone (list_to_map [(4, used_page)])
       (list_to_map [(0, MIGRATE_MOVABLE); (1, MIGRATE_MOVABLE)]) ∅.

(** One pageblock, ISOLATE, with a free page on the ISOLATE list. *)
Definition zone_isolated : zone :=
  Zone (list_to_map [(0, free_page MIGRATE_ISOLATE 0)])
       (list_to_map [(0, MIGRATE_ISOLATE)]) ∅.

(** One pageblock, MOVABLE, entirely free. *)
Definition zone_free : zone :=
  Zone (list_to_map [(0, free_page MIGRATE_MOVABLE 2)])
       (list_to_map [(0, MIGRATE_MOVABLE)]) ∅.

(** The tail page of a free extent: refcount 0, outside the free lists. *)
Definition tail_page : page :=
  Page 0 0 MIGRATE_UNMOVABLE false 0 false MIGRATE_UNMOVABLE.

(** The stray-list race: an ISOLATE pageblock with a free extent of two
    frames left on the MOVABLE list, a page just freed with hint ISOLATE,
    and an absent frame. *)
Definition zone_stray : zone :=
  Zone (list_to_map [(0, free_page MIGRATE_MOVABLE 1); (1, tail_page);
                     (2, freed_page MIGRATE_ISOLATE)])
       (list_to_map [(0, MIGRATE_ISOLATE)]) ∅.

(** A pageblock that lost its ISOLATE label, with a page in use. *)
Definition zone_label : zone :=
  Zone (list_to_map [(0, used_page)]) (list_to_map [(0, MIGRATE_MOVABLE)]) ∅.

(** An ISOLATE pageblock with a free page and, at frame 1, a page in use. *)
Definition zone_inuse : zone :=
  Zone (list_to_map [(0, free_page MIGRATE_ISOLATE 0); (1, used_page)])
       (list_to_map [(0, MIGRATE_ISOLATE)]) ∅.

(** An ISOLATE pageblock on which the two verifiers are compared. *)
Definition zone_quiet : zone :=
  Zone (list_to_map [(0, free_page MIGRATE_ISOLATE 1); (1, tail_page);
                     (2, freed_page MIGRATE_ISOLATE); (3, used_page)])
       (list_to_map [(0, MIGRATE_ISOLATE)]) ∅.

(** An ISOLATE pageblock whose only page has refcount 0, the value of
    MIGRATE_ISOLATE in its private field and hint MOVABLE. *)
Definition zone_private : zone :=
  Zone (list_to_map [(0, Page 0 (migratetype_val MIGRATE_ISOLATE) MIGRATE_MOVABLE
                              false 0 false MIGRATE_MOVABLE)])
       (list_to_map [(0, MIGRATE_ISOLATE)]) ∅.

(** A MOVABLE pageblock whose only page was just freed and is not yet in
    the buddy system: refcount 0, hint MOVABLE. *)
Definition zone_pcp : zone :=
  Zone (list_to_map [(0, freed_page MIGRATE_MOVABLE)])
       (list_to_map [(0, MIGRATE_MOVABLE)]) ∅.

(** ** Properties *)

(** *** Frame-number arithmetic *)

Lemma migratetype_val_inj mt1 mt2 :
  migratetype_val mt1 = migratetype_val mt2 -> mt1 = mt2.
Proof. clear. by destruct mt1, mt2. Qed.

Lemma pageblock_nr_pages_pow2 : pageblock_nr_pages = 2 ^ Z.of_nat pageblock_order.
Proof. unfold pageblock_nr_pages. by rewrite Z.shiftl_1_l. Qed.

Lemma pageblock_nr_pages_pos : 0 < pageblock_nr_pages.
Proof. rewrite pageblock_nr_pages_pow2. apply Z.pow_pos_nonneg; lia. Qed.

Lemma pageblock_nr_div q : pageblock_nr q = q `div` pageblock_nr_pages.
Proof.
  unfold pageblock_nr. rewrite pageblock_nr_pages_pow2.
  apply Z.shiftr_div_pow2. lia.
Qed.

Lemma pageblock_nr_bounds q :
  pageblock_nr_pages * pageblock_nr q <= q
  < pageblock_nr_pages * pageblock_nr q + pageblock_nr_pages.
Proof.
  rewrite pageblock_nr_div.
  pose proof pageblock_nr_pages_pos as HB.
  pose proof (Z.div_mod q pageblock_nr_pages) as Hq.
  pose proof (Z.mod_pos_bound q pageblock_nr_pages HB). lia.
Qed.

Lemma pageblock_nr_unique q k :
  pageblock_nr_pages * k <= q < pageblock_nr_pages * k + pageblock_nr_pages ->
  pageblock_nr q = k.
Proof.
  intros Hk. pose proof (pageblock_nr_bounds q) as Hq.
  pose proof pageblock_nr_pages_pos as HB. nia.
Qed.

Lemma aligned_mul p : aligned p <-> p = pageblock_nr_pages * pageblock_nr p.
Proof.
  unfold aligned. rewrite pageblock_nr_div.
  pose proof pageblock_nr_pages_pos as HB.
  pose proof (Z.div_mod p pageblock_nr_pages). lia.
Qed.

Lemma aligned_add p : aligned p -> aligned (p + pageblock_nr_pages).
Proof.
  unfold aligned. intros Hp. pose proof pageblock_nr_pages_pos as HB.
  rewrite <- Z.add_mod_idemp_l, Hp by lia. simpl. apply Z.mod_same. lia.
Qed.

(** Frames of the pageblock that starts at an aligned frame. *)
Lemma same_pageblock p q :
  aligned p ->
  pageblock_nr q = pageblock_nr p <-> p <= q < p + pageblock_nr_pages.
Proof.
  intros Hp%aligned_mul. split.
  - intros Hq. pose proof (pageblock_nr_bounds q) as Hb. rewrite Hq in Hb. lia.
  - intros Hq. apply pageblock_nr_unique. lia.
Qed.

(** Two aligned frames are equal or a whole pageblock apart. *)
Lemma aligned_lt_step p e :
  aligned p -> aligned e -> p < e -> p + pageblock_nr_pages <= e.
Proof.
  intros Hp%aligned_mul He%aligned_mul Hlt.
  pose proof pageblock_nr_pages_pos as HB.
  assert (pageblock_nr p + 1 <= pageblock_nr e) as Hk by nia.
  rewrite Hp, He.
  replace (pageblock_nr_pages * pageblock_nr p + pageblock_nr_pages)
    with (pageblock_nr_pages * (pageblock_nr p + 1)) by lia.
  apply Z.mul_le_mono_nonneg_l; lia.
Qed.

Lemma misaligned_false pfn : misaligned pfn = false <-> aligned pfn.
Proof.
  unfold misaligned, aligned.
  replace (pageblock_nr_pages - 1) with (Z.ones (Z.of_nat pageblock_order))
    by (rewrite Z.ones_equiv, pageblock_nr_pages_pow2; lia).
  rewrite Z.land_ones, <- pageblock_nr_pages_pow2 by lia.
  rewrite bool_decide_eq_false. split; [apply dec_stable | auto].
Qed.

Lemma misaligned_true pfn : misaligned pfn = true <-> ~ aligned pfn.
Proof.
  rewrite <- misaligned_false. destruct (misaligned pfn); split; congruence.
Qed.

Lemma ulong_small x : 0 <= x < 2 ^ BITS_PER_LONG -> ulong x = x.
Proof. intros. unfold ulong. by apply Z.mod_small. Qed.

Lemma ulong_bounds x : 0 <= ulong x < 2 ^ BITS_PER_LONG.
Proof. unfold ulong. apply Z.mod_pos_bound. by compute. Qed.

Lemma order_nr_pages_pow2 pg : order_nr_pages pg = 2 ^ Z.of_nat (page_order pg).
Proof. unfold order_nr_pages. by rewrite Z.shiftl_1_l. Qed.

Lemma order_nr_pages_pos pg : 0 < order_nr_pages pg.
Proof. rewrite order_nr_pages_pow2. apply Z.pow_pos_nonneg; lia. Qed.

(** *** Labels and page records under the primitives *)

Lemma get_set_pageblock_migratetype z p mt q :
  get_pageblock_migratetype (set_pageblock_migratetype z p mt) q =
  if decide (pageblock_nr p = pageblock_nr q) then mt
  else get_pageblock_migratetype z q.
Proof.
  unfold get_pageblock_migratetype, set_pageblock_migratetype. simpl.
  rewrite lookup_insert. by case_decide.
Qed.

Lemma get_pageblock_migratetype_same_block z p q :
  pageblock_nr p = pageblock_nr q ->
  get_pageblock_migratetype z p = get_pageblock_migratetype z q.
Proof. unfold get_pageblock_migratetype. by intros ->. Qed.

Lemma move_freepages_lookup z first last mt f :
  mem_map (move_freepages z first last mt).1 !! f =
  (fun pg => if in_extent first last f then move_page mt pg else pg) <$> mem_map z !! f.
Proof.
  unfold move_freepages. simpl. rewrite map_lookup_imap.
  by destruct (mem_map z !! f).
Qed.

Lemma move_freepages_flags z first last mt :
  pageblock_flags (move_freepages z first last mt).1 = pageblock_flags z.
Proof. done. Qed.

Lemma move_freepages_label z first last mt q :
  get_pageblock_migratetype (move_freepages z first last mt).1 q =
  get_pageblock_migratetype z q.
Proof. done. Qed.

Lemma in_pageblock_extent p f :
  in_extent (Z.shiftl (pageblock_nr p) (Z.of_nat pageblock_order))
            (Z.shiftl (pageblock_nr p) (Z.of_nat pageblock_order) + pageblock_nr_pages - 1) f
  = bool_decide (pageblock_nr f = pageblock_nr p).
Proof.
  rewrite Z.shiftl_mul_pow2, <- pageblock_nr_pages_pow2 by lia.
  unfold in_extent. pose proof (pageblock_nr_bounds f) as Hf.
  pose proof pageblock_nr_pages_pos as HB.
  case_bool_decide as Heq.
  - rewrite Heq in Hf. apply andb_true_iff. split; apply Z.leb_le; lia.
  - apply andb_false_iff.
    destruct (Z.leb_spec (pageblock_nr p * pageblock_nr_pages) f) as [H1|H1]; [|by left].
    right. apply Z.leb_gt. apply Z.nle_gt. intros H2. apply Heq.
    apply pageblock_nr_unique. lia.
Qed.

Lemma move_freepages_block_lookup z p mt f :
  mem_map (move_freepages_block z p mt).1 !! f =
  (fun pg => if bool_decide (pageblock_nr f = pageblock_nr p) then move_page mt pg else pg)
    <$> mem_map z !! f.
Proof.
  unfold move_freepages_block. rewrite move_freepages_lookup.
  by rewrite in_pageblock_extent.
Qed.

Lemma move_freepages_block_label z p mt q :
  get_pageblock_migratetype (move_freepages_block z p mt).1 q =
  get_pageblock_migratetype z q.
Proof. done. Qed.

Lemma same_frames_refl z : same_frames z z.
Proof. by intros f. Qed.

Lemma same_frames_trans z1 z2 z3 :
  same_frames z1 z2 -> same_frames z2 z3 -> same_frames z1 z3.
Proof. unfold same_frames. intros H12 H23 f. by rewrite H23, H12. Qed.

Lemma move_freepages_same_frames z first last mt :
  same_frames z (move_freepages z first last mt).1.
Proof. intros f. rewrite move_freepages_lookup. apply fmap_is_Some. Qed.

Lemma set_migratetype_isolate_cma_unfold z pg skip :
  set_migratetype_isolate_cma z pg skip =
  if has_unmovable_pages z pg skip then (z, - EBUSY)
  else
    let mv := move_freepages_block (set_pageblock_migratetype z pg MIGRATE_ISOLATE)
                                   pg MIGRATE_ISOLATE in
    (__mod_zone_freepage_state mv.1 (- mv.2) (get_pageblock_migratetype z pg), 0).
Proof.
  unfold set_migratetype_isolate_cma.
  destruct (has_unmovable_pages z pg skip); [done|].
  by destruct (move_freepages_block _ _ _).
Qed.

Lemma unset_migratetype_isolate_cma_unfold z pg mt :
  unset_migratetype_isolate_cma z pg mt =
  if decide (get_pageblock_migratetype z pg <> MIGRATE_ISOLATE) then z
  else
    let mv := move_freepages_block z pg mt in
    set_pageblock_migratetype (__mod_zone_freepage_state mv.1 mv.2 mt) pg mt.
Proof.
  unfold unset_migratetype_isolate_cma.
  case_decide; [done|]. by destruct (move_freepages_block _ _ _).
Qed.

Lemma set_migratetype_isolate_cma_ret z pg skip :
  (set_migratetype_isolate_cma z pg skip).2 = 0
  \/ (set_migratetype_isolate_cma z pg skip).2 = - EBUSY.
Proof.
  rewrite set_migratetype_isolate_cma_unfold.
  destruct (has_unmovable_pages z pg skip); [by right|by left].
Qed.

(** set_isolate fails without mutating state. *)
Lemma set_migratetype_isolate_cma_busy z pg skip :
  (set_migratetype_isolate_cma z pg skip).2 <> 0 ->
  (set_migratetype_isolate_cma z pg skip).1 = z.
Proof.
  rewrite set_migratetype_isolate_cma_unfold.
  by destruct (has_unmovable_pages z pg skip).
Qed.

Lemma set_migratetype_isolate_cma_label z pg skip q :
  (set_migratetype_isolate_cma z pg skip).2 = 0 ->
  get_pageblock_migratetype (set_migratetype_isolate_cma z pg skip).1 q =
  if decide (pageblock_nr pg = pageblock_nr q) then MIGRATE_ISOLATE
  else get_pageblock_migratetype z q.
Proof.
  rewrite set_migratetype_isolate_cma_unfold.
  destruct (has_unmovable_pages z pg skip); [done|]. intros _.
  apply (get_set_pageblock_migratetype z pg MIGRATE_ISOLATE q).
Qed.

Lemma set_migratetype_isolate_cma_lookup z pg skip f :
  (set_migratetype_isolate_cma z pg skip).2 = 0 ->
  mem_map (set_migratetype_isolate_cma z pg skip).1 !! f =
  (fun p => if bool_decide (pageblock_nr f = pageblock_nr pg)
            then move_page MIGRATE_ISOLATE p else p) <$> mem_map z !! f.
Proof.
  rewrite set_migratetype_isolate_cma_unfold.
  destruct (has_unmovable_pages z pg skip); [done|]. intros _.
  cbn [fst snd __mod_zone_freepage_state mem_map].
  apply (move_freepages_block_lookup (set_pageblock_migratetype z pg MIGRATE_ISOLATE)).
Qed.

Lemma set_migratetype_isolate_cma_same_frames z pg skip :
  same_frames z (set_migratetype_isolate_cma z pg skip).1.
Proof.
  destruct (set_migratetype_isolate_cma_ret z pg skip) as [H0|Hb].
  - intros f. rewrite set_migratetype_isolate_cma_lookup by done. apply fmap_is_Some.
  - rewrite set_migratetype_isolate_cma_busy; [apply same_frames_refl|].
    rewrite Hb. by compute.
Qed.

(** unset_isolate is a no-op on a pageblock whose label is not ISOLATE. *)
Lemma unset_migratetype_isolate_cma_noop z pg mt :
  get_pageblock_migratetype z pg <> MIGRATE_ISOLATE ->
  unset_migratetype_isolate_cma z pg mt = z.
Proof. intros H. rewrite unset_migratetype_isolate_cma_unfold. by rewrite decide_True. Qed.

Lemma unset_migratetype_isolate_cma_label z pg mt q :
  get_pageblock_migratetype (unset_migratetype_isolate_cma z pg mt) q =
  if decide (pageblock_nr pg = pageblock_nr q
             /\ get_pageblock_migratetype z pg = MIGRATE_ISOLATE)
  then mt else get_pageblock_migratetype z q.
Proof.
  rewrite unset_migratetype_isolate_cma_unfold.
  destruct (decide (get_pageblock_migratetype z pg <> MIGRATE_ISOLATE)) as [Hne|Heq].
  - rewrite decide_False; [done|]. by intros [_ ?].
  - apply dec_stable in Heq. cbn zeta.
    rewrite get_set_pageblock_migratetype.
    destruct (decide (pageblock_nr pg = pageblock_nr q)).
    + by rewrite decide_True.
    + rewrite decide_False; [done|]. by intros [? _].
Qed.

Lemma unset_migratetype_isolate_cma_lookup z pg mt f :
  mem_map (unset_migratetype_isolate_cma z pg mt) !! f =
  (fun p => if bool_decide (pageblock_nr f = pageblock_nr pg
                            /\ get_pageblock_migratetype z pg = MIGRATE_ISOLATE)
            then move_page mt p else p) <$> mem_map z !! f.
Proof.
  rewrite unset_migratetype_isolate_cma_unfold.
  destruct (decide (get_pageblock_migratetype z pg <> MIGRATE_ISOLATE)) as [Hne|Heq].
  - rewrite bool_decide_eq_false_2 by (by intros [_ ?]).
    by destruct (mem_map z !! f).
  - apply dec_stable in Heq.
    cbn [set_pageblock_migratetype __mod_zone_freepage_state mem_map].
    rewrite move_freepages_block_lookup.
    destruct (mem_map z !! f) as [p|]; [simpl|done].
    case_bool_decide as H1; case_bool_decide as H2; try done; exfalso.
    + apply H2. by split.
    + by destruct H2.
Qed.

Lemma unset_migratetype_isolate_cma_same_frames z pg mt :
  same_frames z (unset_migratetype_isolate_cma z pg mt).
Proof. intros f. rewrite unset_migratetype_isolate_cma_lookup. apply fmap_is_Some. Qed.

(** *** The first valid page of a pageblock *)

Lemma pageblock_valid_same_frames z z' p :
  same_frames z z' -> pageblock_valid z' p <-> pageblock_valid z p.
Proof.
  intros Hsf. unfold pageblock_valid. split; intros (f & Hf & Hv); exists f.
  - by rewrite <- (Hsf f).
  - by rewrite (Hsf f).
Qed.

Lemma first_valid_scan_Some z pfn n : forall i pg,
  first_valid_scan z pfn i n = Some pg ->
  exists j, i <= j < i + Z.of_nat n /\ pg = ulong (pfn + j) /\ is_Some (mem_map z !! pg).
Proof.
  induction n as [|n IH]; intros i pg; simpl; [done|].
  unfold pfn_valid_within. case_bool_decide as Hv.
  - intros [= <-]. exists i. split; [lia|done].
  - intros (j & Hj & Hrest)%IH. exists j. split; [lia|done].
Qed.

Lemma first_valid_scan_None z pfn n : forall i,
  first_valid_scan z pfn i n = None ->
  forall j, i <= j < i + Z.of_nat n -> mem_map z !! ulong (pfn + j) = None.
Proof.
  induction n as [|n IH]; intros i; simpl; [lia|].
  unfold pfn_valid_within. case_bool_decide as Hv; [done|].
  intros Hrec j Hj. destruct (decide (j = i)) as [->|Hne].
  - by apply eq_None_not_Some.
  - apply (IH _ Hrec). lia.
Qed.

Lemma first_valid_scan_same_frames z z' pfn n :
  same_frames z z' -> forall i, first_valid_scan z' pfn i n = first_valid_scan z pfn i n.
Proof.
  intros Hsf. induction n as [|n IH]; intros i; simpl; [done|].
  unfold pfn_valid_within. rewrite IH.
  by rewrite (bool_decide_ext _ _ (Hsf (ulong (pfn + i)))).
Qed.

Lemma first_valid_page_same_frames z z' pfn nr :
  same_frames z z' -> __first_valid_page z' pfn nr = __first_valid_page z pfn nr.
Proof. intros. by apply first_valid_scan_same_frames. Qed.

Lemma first_valid_page_Some z pfn pg :
  aligned pfn -> 0 <= pfn -> pfn + pageblock_nr_pages <= 2 ^ BITS_PER_LONG ->
  __first_valid_page z pfn pageblock_nr_pages = Some pg ->
  pageblock_nr pg = pageblock_nr pfn /\ is_Some (mem_map z !! pg).
Proof.
  intros Hal H0 Hhi (j & Hj & -> & Hv)%first_valid_scan_Some.
  pose proof pageblock_nr_pages_pos as HB.
  rewrite Z2Nat.id in Hj by lia.
  rewrite ulong_small in * by lia. split; [|done].
  apply same_pageblock; [done|lia].
Qed.

Lemma first_valid_page_None z pfn :
  aligned pfn -> 0 <= pfn -> pfn + pageblock_nr_pages <= 2 ^ BITS_PER_LONG ->
  __first_valid_page z pfn pageblock_nr_pages = None ->
  ~ pageblock_valid z pfn.
Proof.
  intros Hal H0 Hhi Hnone (f & Hf & Hv).
  pose proof pageblock_nr_pages_pos as HB.
  apply same_pageblock in Hf; [|done].
  pose proof (first_valid_scan_None _ _ _ _ Hnone (f - pfn)) as Hn.
  rewrite Z2Nat.id in Hn by lia.
  rewrite ulong_small in Hn by lia.
  replace (pfn + (f - pfn)) with f in Hn by lia.
  rewrite Hn in Hv; [by destruct Hv|lia].
Qed.

(** Absent frames throughout a range: the scan finds nothing. *)
Lemma first_valid_page_absent z pfn nr :
  0 <= pfn -> pfn + nr <= 2 ^ BITS_PER_LONG ->
  (forall f, pfn <= f < pfn + nr -> mem_map z !! f = None) ->
  __first_valid_page z pfn nr = None.
Proof.
  intros H0 Hhi Habs. unfold __first_valid_page.
  destruct (first_valid_scan z pfn 0 (Z.to_nat nr)) as [pg|] eqn:Hscan; [|done].
  apply first_valid_scan_Some in Hscan as (j & Hj & -> & Hv).
  assert (0 <= j < nr) as Hj' by lia.
  rewrite ulong_small in Hv by lia.
  rewrite Habs in Hv by lia. by destruct Hv.
Qed.

(** *** Fuel *)

Lemma enough_fuel_step fuel pfn end_pfn :
  aligned pfn -> aligned end_pfn -> pfn < end_pfn ->
  enough_fuel (S fuel) pfn end_pfn ->
  enough_fuel fuel (pfn + pageblock_nr_pages) end_pfn.
Proof.
  unfold enough_fuel. intros Hp He Hlt Hf.
  pose proof (aligned_lt_step _ _ Hp He Hlt). lia.
Qed.

Lemma enough_fuel_0 pfn end_pfn : ~ enough_fuel 0 pfn end_pfn.
Proof. unfold enough_fuel. lia. Qed.

(** The loop increment does not wrap inside an aligned range. *)
Lemma next_pageblock pfn end_pfn :
  aligned pfn -> aligned end_pfn -> 0 <= pfn -> end_pfn < 2 ^ BITS_PER_LONG ->
  pfn < end_pfn ->
  ulong (pfn + pageblock_nr_pages) = pfn + pageblock_nr_pages
  /\ pfn + pageblock_nr_pages <= end_pfn.
Proof.
  intros Hp He H0 Hhi Hlt. pose proof (aligned_lt_step _ _ Hp He Hlt).
  pose proof pageblock_nr_pages_pos. split; [|done]. apply ulong_small. lia.
Qed.

(** *** Pageblocks of a range *)

Lemma pageblocks_between_nil pfn end_pfn :
  end_pfn <= pfn -> pageblocks_between pfn end_pfn = [].
Proof.
  intros Hle. unfold pageblocks_between.
  pose proof pageblock_nr_pages_pos as HB.
  assert ((end_pfn - pfn) `div` pageblock_nr_pages <= 0) as Hd.
  { apply Z.div_le_upper_bound; lia. }
  by replace (Z.to_nat _) with O by lia.
Qed.

Lemma pageblocks_between_step pfn end_pfn :
  aligned pfn -> aligned end_pfn -> pfn < end_pfn ->
  pageblocks_between pfn end_pfn =
  pfn :: pageblocks_between (pfn + pageblock_nr_pages) end_pfn.
Proof.
  intros Hp He Hlt. unfold pageblocks_between.
  pose proof pageblock_nr_pages_pos as HB.
  pose proof (aligned_lt_step _ _ Hp He Hlt) as Hstep.
  replace (end_pfn - pfn)
    with (end_pfn - (pfn + pageblock_nr_pages) + 1 * pageblock_nr_pages) by lia.
  rewrite Z.div_add by lia.
  assert (0 <= (end_pfn - (pfn + pageblock_nr_pages)) `div` pageblock_nr_pages) as Hd.
  { apply Z.div_pos; lia. }
  replace (Z.to_nat (_ + 1)) with (S (Z.to_nat
    ((end_pfn - (pfn + pageblock_nr_pages)) `div` pageblock_nr_pages))) by lia.
  done.
Qed.

Lemma elem_of_pageblock_starts n : forall pfn p,
  aligned pfn ->
  p ∈ pageblock_starts pfn n <->
  aligned p /\ pfn <= p < pfn + Z.of_nat n * pageblock_nr_pages.
Proof.
  pose proof pageblock_nr_pages_pos as HB.
  induction n as [|n IH]; intros pfn p Hal; simpl.
  - rewrite elem_of_nil. lia.
  - rewrite elem_of_cons, IH by (by apply aligned_add). split.
    + intros [->|[Hp Hr]]; split; try done; lia.
    + intros [Hp Hr]. destruct (decide (p = pfn)) as [|Hne]; [by left|right].
      split; [done|]. pose proof (aligned_lt_step pfn p Hal Hp). lia.
Qed.

Lemma elem_of_pageblocks_between pfn end_pfn p :
  aligned pfn -> aligned end_pfn ->
  p ∈ pageblocks_between pfn end_pfn <-> aligned p /\ pfn <= p < end_pfn.
Proof.
  intros Hp He. unfold pageblocks_between.
  rewrite elem_of_pageblock_starts by done.
  pose proof pageblock_nr_pages_pos as HB.
  destruct (Z.le_gt_cases end_pfn pfn) as [Hle|Hlt].
  - assert ((end_pfn - pfn) `div` pageblock_nr_pages <= 0) as Hd.
    { apply Z.div_le_upper_bound; lia. }
    replace (Z.to_nat _) with O by lia. lia.
  - assert ((end_pfn - pfn) `mod` pageblock_nr_pages = 0) as Hm.
    { unfold aligned in *. rewrite Zminus_mod, Hp, He. by rewrite Z.mod_0_l by lia. }
    pose proof (Z.div_mod (end_pfn - pfn) pageblock_nr_pages ltac:(lia)) as Hdm.
    assert (0 <= (end_pfn - pfn) `div` pageblock_nr_pages) as Hd.
    { apply Z.div_pos; lia. }
    rewrite Z2Nat.id by done.
    replace (pfn + (end_pfn - pfn) `div` pageblock_nr_pages * pageblock_nr_pages)
      with end_pfn by lia.
    done.
Qed.

(** *** The rollback loop *)

Lemma rollback_pageblocks_spec mt undo_pfn :
  aligned undo_pfn -> undo_pfn < 2 ^ BITS_PER_LONG ->
  forall fuel z pfn,
  aligned pfn -> 0 <= pfn -> enough_fuel fuel pfn undo_pfn ->
  exists z',
    rollback_pageblocks fuel z pfn undo_pfn mt =
      Some (z', (fun p => call_unset_migratetype_isolate_cma p mt)
                  <$> pageblocks_between pfn undo_pfn)
    /\ same_frames z z'
    /\ (forall q, get_pageblock_migratetype z' q = get_pageblock_migratetype z q
                  \/ (pfn <= q < undo_pfn
                      /\ get_pageblock_migratetype z q = MIGRATE_ISOLATE
                      /\ get_pageblock_migratetype z' q = mt))
    /\ (forall q, pfn <= q < undo_pfn ->
                  get_pageblock_migratetype z q = MIGRATE_ISOLATE ->
                  get_pageblock_migratetype z' q = mt).
Proof.
  intros Hu Hhi. pose proof pageblock_nr_pages_pos as HB.
  induction fuel as [|fuel IH]; intros z pfn Hp H0 Hfuel.
  { by apply enough_fuel_0 in Hfuel. }
  simpl. destruct (Z.ltb_spec pfn undo_pfn) as [Hlt|Hge].
  - destruct (next_pageblock _ _ Hp Hu H0 Hhi Hlt) as [Hnext Hle].
    rewrite Hnext.
    destruct (IH (unset_migratetype_isolate_cma z pfn mt) (pfn + pageblock_nr_pages))
      as (z' & Hrun & Hsf & Hl1 & Hl2);
      [by apply aligned_add|lia|by apply enough_fuel_step|].
    exists z'. rewrite Hrun. simpl.
    rewrite (pageblocks_between_step pfn undo_pfn) by done. simpl. split; [done|].
    split; [eapply same_frames_trans;
            [apply unset_migratetype_isolate_cma_same_frames|done]|].
    split.
    + intros q. destruct (Hl1 q) as [Heq|(Hq & Hiso & Hmt)].
      * rewrite Heq, unset_migratetype_isolate_cma_label.
        case_decide as Hc; [|by left]. destruct Hc as [Hc1 Hc2]. right.
        rewrite <- (get_pageblock_migratetype_same_block z _ _ Hc1).
        symmetry in Hc1. apply same_pageblock in Hc1; [|done].
        split; [lia|done].
      * rewrite unset_migratetype_isolate_cma_label in Hiso.
        case_decide as Hc.
        { destruct Hc as [Hc1 Hc2]. symmetry in Hc1.
          apply same_pageblock in Hc1; [lia|done]. }
        right. split; [lia|done].
    + intros q Hq Hiso.
      destruct (decide (q < pfn + pageblock_nr_pages)) as [Hin|Hout].
      * assert (pageblock_nr q = pageblock_nr pfn) as Hsame
          by (apply same_pageblock; [done|lia]).
        assert (get_pageblock_migratetype z pfn = MIGRATE_ISOLATE) as Hiso'.
        { rewrite <- Hiso. by apply get_pageblock_migratetype_same_block. }
        destruct (Hl1 q) as [Heq|(Hq' & _)]; [|lia].
        rewrite Heq, unset_migratetype_isolate_cma_label.
        by rewrite decide_True.
      * apply Hl2; [lia|].
        rewrite unset_migratetype_isolate_cma_label.
        rewrite decide_False; [done|]. intros [Hc1 _]. symmetry in Hc1.
        apply same_pageblock in Hc1; [lia|done].
  - exists z. rewrite pageblocks_between_nil by lia.
    split; [done|]. split; [apply same_frames_refl|].
    split; [by left|lia].
Qed.

(** *** The undo loop *)

Lemma undo_pageblocks_spec mt end_pfn :
  aligned end_pfn -> end_pfn < 2 ^ BITS_PER_LONG ->
  forall fuel z pfn,
  aligned pfn -> 0 <= pfn -> enough_fuel fuel pfn end_pfn ->
  exists z' log,
    undo_pageblocks fuel z pfn end_pfn mt = Some (z', log)
    /\ same_frames z z'
    /\ (forall q, get_pageblock_migratetype z' q = get_pageblock_migratetype z q
                  \/ (pfn <= q < end_pfn /\ pageblock_valid z q
                      /\ get_pageblock_migratetype z q = MIGRATE_ISOLATE
                      /\ get_pageblock_migratetype z' q = mt))
    /\ (forall q, pfn <= q < end_pfn -> pageblock_valid z q ->
                  get_pageblock_migratetype z q = MIGRATE_ISOLATE ->
                  get_pageblock_migratetype z' q = mt)
    /\ (forall f, mem_map z' !! f =
                  (fun p => if decide (pfn <= f < end_pfn
                                       /\ get_pageblock_migratetype z f = MIGRATE_ISOLATE)
                            then move_page mt p else p) <$> mem_map z !! f).
Proof.
  clear has_unmovable_pages.
  intros He Hhi. pose proof pageblock_nr_pages_pos as HB.
  induction fuel as [|fuel IH]; intros z pfn Hp H0 Hfuel.
  { by apply enough_fuel_0 in Hfuel. }
  simpl. destruct (Z.ltb_spec pfn end_pfn) as [Hlt|Hge].
  2:{ exists z, []. split; [done|]. split; [apply same_frames_refl|].
      split; [by left|]. split; [lia|]. intros f.
      destruct (mem_map z !! f); [simpl|done]. by rewrite decide_False by lia. }
  destruct (next_pageblock _ _ Hp He H0 Hhi Hlt) as [Hnext Hle]. rewrite Hnext.
  assert (forall q, pageblock_nr pfn = pageblock_nr q <-> pfn <= q < pfn + pageblock_nr_pages)
    as Hblk.
  { intros q. rewrite <- (same_pageblock pfn q Hp). split; congruence. }
  pose proof (fun z => IH z (pfn + pageblock_nr_pages) (aligned_add _ Hp)
               ltac:(lia) (enough_fuel_step _ _ _ Hp He Hlt Hfuel)) as IH'.
  destruct (__first_valid_page z pfn pageblock_nr_pages) as [pg|] eqn:Hfv.
  - apply first_valid_page_Some in Hfv as [Hpg Hv]; [|done|done|lia].
    assert (pageblock_valid z pfn) as Hpv by (by exists pg).
    pose proof (get_pageblock_migratetype_same_block z _ _ Hpg) as Hlab.
    case_decide as Hiso.
    + (* label is not ISOLATE: continue *)
      assert (forall q, pfn <= q < pfn + pageblock_nr_pages ->
                        get_pageblock_migratetype z q <> MIGRATE_ISOLATE) as Hblock.
      { intros q Hq. rewrite <- (get_pageblock_migratetype_same_block z pfn q), <- Hlab;
          [done|by apply Hblk]. }
      destruct (IH' z) as (z' & log & Hrun & Hsf & Hl1 & Hl2 & Hpgs).
      exists z', log. split; [done|]. split; [done|]. split; [|split].
      * intros q. destruct (Hl1 q) as [?|(? & ?)]; [by left|right]. split; [lia|done].
      * intros q Hq Hqv Hqi. apply Hl2; [|done|done].
        destruct (decide (q < pfn + pageblock_nr_pages)) as [Hin|]; [|lia].
        exfalso. apply (Hblock q); [lia|done].
      * intros f. rewrite Hpgs. destruct (mem_map z !! f); [simpl|done].
        case_decide as H1; case_decide as H2; try done; exfalso.
        -- apply H2. split; [lia|tauto].
        -- destruct H2 as [H2 H3]. apply H1. split; [|done].
           destruct (decide (f < pfn + pageblock_nr_pages)) as [Hin|]; [|lia].
           exfalso. apply (Hblock f); [lia|done].
    + (* label is ISOLATE: unset_isolate, then continue *)
      set (za := unset_migratetype_isolate_cma z pg mt).
      assert (forall q, pfn <= q < pfn + pageblock_nr_pages ->
                        get_pageblock_migratetype z q = MIGRATE_ISOLATE) as Hblock.
      { intros q Hq. rewrite <- (get_pageblock_migratetype_same_block z pfn q), <- Hlab;
          [done|by apply Hblk]. }
      assert (forall q, get_pageblock_migratetype za q =
                        if decide (pfn <= q < pfn + pageblock_nr_pages) then mt
                        else get_pageblock_migratetype z q) as Hza.
      { intros q. unfold za. rewrite unset_migratetype_isolate_cma_label.
        rewrite Hpg. case_decide as H1; case_decide as H2; try done; exfalso.
        - destruct H1 as [H1 _]. by apply Hblk in H1.
        - apply H1. split; [by apply Hblk|done]. }
      assert (forall f, mem_map za !! f =
                        (fun p => if decide (pfn <= f < pfn + pageblock_nr_pages)
                                  then move_page mt p else p) <$> mem_map z !! f) as Hzp.
      { intros f. unfold za. rewrite unset_migratetype_isolate_cma_lookup.
        rewrite Hpg. destruct (mem_map z !! f) as [p|]; [simpl|done].
        case_bool_decide as Hc; case_decide as Hd; try done; exfalso.
        - destruct Hc as [Hc _]. symmetry in Hc. by apply Hblk in Hc.
        - apply Hc. split; [|done]. symmetry. by apply Hblk. }
      destruct (IH' za) as (z' & log & Hrun & Hsf & Hl1 & Hl2 & Hpgs).
      rewrite Hrun. simpl. eexists _, _. split; [done|].
      split; [eapply same_frames_trans;
              [apply unset_migratetype_isolate_cma_same_frames|done]|].
      split; [|split].
      * intros q. destruct (Hl1 q) as [Heq|(Hq & Hqv & Hqi & Hqm)].
        -- rewrite Heq, Hza. case_decide as Hd; [|by left]. right.
           split; [lia|]. split; [|split; [by apply Hblock|done]].
           apply Hblk in Hd. destruct Hpv as (f & Hf & Hfv). exists f.
           split; [congruence|done].
        -- rewrite Hza in Hqi. rewrite decide_False in Hqi by lia.
           right. split; [lia|]. split; [|done].
           by apply (pageblock_valid_same_frames z za q
                       (unset_migratetype_isolate_cma_same_frames z pg mt)).
      * intros q Hq Hqv Hqi.
        destruct (decide (q < pfn + pageblock_nr_pages)) as [Hin|Hout].
        -- destruct (Hl1 q) as [Heq|(Hq' & _)]; [|lia].
           rewrite Heq, Hza. by rewrite decide_True by lia.
        -- apply Hl2; [lia| |].
           ++ by apply (pageblock_valid_same_frames z za q
                          (unset_migratetype_isolate_cma_same_frames z pg mt)).
           ++ rewrite Hza. by rewrite decide_False by lia.
      * intros f. rewrite Hpgs, Hzp, Hza.
        destruct (mem_map z !! f) as [p|]; [simpl|done].
        destruct (decide (pfn <= f < pfn + pageblock_nr_pages)) as [Hin|Hout].
        -- rewrite decide_False by lia.
           rewrite decide_True; [done|]. split; [lia|by apply Hblock].
        -- case_decide as H1; case_decide as H2; try done; exfalso.
           ++ apply H2. split; [lia|tauto].
           ++ apply H1. split; [lia|tauto].
  - (* no valid frame in the pageblock: skip *)
    apply first_valid_page_None in Hfv; [|done|done|lia].
    destruct (IH' z) as (z' & log & Hrun & Hsf & Hl1 & Hl2 & Hpgs).
    exists z', log. split; [done|]. split; [done|]. split; [|split].
    * intros q. destruct (Hl1 q) as [?|(? & ?)]; [by left|right]. split; [lia|done].
    * intros q Hq Hqv Hqi. apply Hl2; [|done|done].
      destruct (decide (q < pfn + pageblock_nr_pages)) as [Hin|]; [|lia].
      exfalso. apply Hfv. destruct Hqv as (f & Hf & Hfv'). exists f.
      split; [|done]. rewrite Hf. symmetry. apply Hblk. lia.
    * intros f. rewrite Hpgs. destruct (mem_map z !! f) as [p|] eqn:Hfp; [simpl|done].
      case_decide as H1; case_decide as H2; try done; exfalso.
      -- apply H2. split; [lia|tauto].
      -- destruct H2 as [H2 H3]. apply H1. split; [|done].
         destruct (decide (f < pfn + pageblock_nr_pages)) as [Hin|]; [|lia].
         exfalso. apply Hfv. exists f. split; [|by rewrite Hfp].
         symmetry. apply Hblk. lia.
Qed.

(** Where no present pageblock of the range is labelled ISOLATE the undo
    loop changes nothing and calls nothing. *)
Lemma undo_pageblocks_noop mt end_pfn :
  aligned end_pfn -> end_pfn < 2 ^ BITS_PER_LONG ->
  forall fuel z pfn,
  aligned pfn -> 0 <= pfn -> enough_fuel fuel pfn end_pfn ->
  (forall q, pfn <= q < end_pfn -> pageblock_valid z q ->
             get_pageblock_migratetype z q <> MIGRATE_ISOLATE) ->
  undo_pageblocks fuel z pfn end_pfn mt = Some (z, []).
Proof.
  intros He Hhi. pose proof pageblock_nr_pages_pos as HB.
  induction fuel as [|fuel IH]; intros z pfn Hp H0 Hfuel Hno.
  { by apply enough_fuel_0 in Hfuel. }
  simpl. destruct (Z.ltb_spec pfn end_pfn) as [Hlt|Hge]; [|done].
  destruct (next_pageblock _ _ Hp He H0 Hhi Hlt) as [Hnext Hle]. rewrite Hnext.
  assert (undo_pageblocks fuel z (pfn + pageblock_nr_pages) end_pfn mt = Some (z, []))
    as Hrec.
  { apply IH; [by apply aligned_add|lia|by apply enough_fuel_step|].
    intros q Hq. apply Hno. lia. }
  destruct (__first_valid_page z pfn pageblock_nr_pages) as [pg|] eqn:Hfv; [|done].
  apply first_valid_page_Some in Hfv as [Hpg Hv]; [|done|done|lia].
  rewrite decide_True; [done|].
  rewrite (get_pageblock_migratetype_same_block z _ _ Hpg).
  apply Hno; [lia|]. by exists pg.
Qed.

(** *** The forward pass *)

Lemma isolate_pageblocks_spec skip end_pfn :
  aligned end_pfn -> end_pfn < 2 ^ BITS_PER_LONG ->
  forall fuel z pfn z1 log1 r,
  aligned pfn -> 0 <= pfn ->
  isolate_pageblocks fuel z pfn end_pfn skip = Some (z1, log1, r) ->
  let hi := forward_stop pfn end_pfn r in
  (pfn <= hi /\ aligned hi /\ (is_Some r -> hi < end_pfn))
  /\ enough_fuel fuel pfn hi
  /\ same_frames z z1
  /\ (forall q, get_pageblock_migratetype z1 q = get_pageblock_migratetype z q
                \/ (pfn <= q < hi /\ pageblock_valid z q
                    /\ get_pageblock_migratetype z1 q = MIGRATE_ISOLATE))
  /\ (forall q, pfn <= q < hi -> pageblock_valid z q ->
                get_pageblock_migratetype z1 q = MIGRATE_ISOLATE)
  /\ (forall c, c ∈ log1 ->
        exists pg, c = call_set_migratetype_isolate_cma pg skip
                   /\ is_Some (mem_map z !! pg))
  /\ (forall u, r = Some u ->
        exists pg, __first_valid_page z1 u pageblock_nr_pages = Some pg
                   /\ (set_migratetype_isolate_cma z1 pg skip).2 <> 0).
Proof.
  intros He Hhi. pose proof pageblock_nr_pages_pos as HB.
  induction fuel as [|fuel IH]; intros z pfn z1 log1 r Hp H0; [done|].
  simpl. destruct (Z.ltb_spec pfn end_pfn) as [Hlt|Hge].
  2:{ intros [= <- <- <-]. unfold forward_stop, enough_fuel.
      rewrite Z.max_l by lia.
      split; [split; [lia|split; [done|by intros [? ?]]]|].
      split; [lia|]. split; [apply same_frames_refl|].
      split; [by left|]. split; [lia|]. split; [by intros c ?%elem_of_nil|done]. }
  destruct (next_pageblock _ _ Hp He H0 Hhi Hlt) as [Hnext Hle]. rewrite Hnext.
  assert (forall q, pageblock_nr pfn = pageblock_nr q <-> pfn <= q < pfn + pageblock_nr_pages)
    as Hblk.
  { intros q. rewrite <- (same_pageblock pfn q Hp). split; congruence. }
  pose proof (fun z z1 log1 r => IH z (pfn + pageblock_nr_pages) z1 log1 r
               (aligned_add _ Hp) ltac:(lia)) as IH'.
  assert (forall r', pfn + pageblock_nr_pages <= forward_stop (pfn + pageblock_nr_pages) end_pfn r' ->
             enough_fuel fuel (pfn + pageblock_nr_pages)
                         (forward_stop (pfn + pageblock_nr_pages) end_pfn r') ->
             (forward_stop pfn end_pfn r' = forward_stop (pfn + pageblock_nr_pages) end_pfn r')
             /\ enough_fuel (S fuel) pfn (forward_stop pfn end_pfn r')) as Hstop.
  { intros r' Hr' Hf'. unfold forward_stop, enough_fuel in *.
    destruct r'; split; lia. }
  destruct (__first_valid_page z pfn pageblock_nr_pages) as [pg|] eqn:Hfv.
  - pose proof Hfv as Hfv0.
    apply first_valid_page_Some in Hfv as [Hpg Hv]; [|done|done|lia].
    assert (pageblock_valid z pfn) as Hpv by (by exists pg).
    destruct (set_migratetype_isolate_cma z pg skip) as [za ret] eqn:Hset.
    assert (za = (set_migratetype_isolate_cma z pg skip).1) as Hza1 by (by rewrite Hset).
    assert (ret = (set_migratetype_isolate_cma z pg skip).2) as Hret by (by rewrite Hset).
    case_decide as Hfail.
    + (* set_isolate failed: goto undo *)
      intros [= <- <- <-]. unfold forward_stop, enough_fuel.
      rewrite Hza1, set_migratetype_isolate_cma_busy by congruence.
      split; [split; [lia|split; [done|by intros _]]|].
      split; [lia|]. split; [apply same_frames_refl|].
      split; [by left|]. split; [lia|]. split.
      * intros c ->%list_elem_of_singleton. by exists pg.
      * intros u [= <-]. exists pg. split; [done|congruence].
    + (* set_isolate succeeded: next pageblock *)
      assert ((set_migratetype_isolate_cma z pg skip).2 = 0) as Hok by lia.
      pose proof (set_migratetype_isolate_cma_same_frames z pg skip) as Hsfa.
      rewrite <- Hza1 in Hsfa.
      assert (forall q, get_pageblock_migratetype za q =
                        if decide (pfn <= q < pfn + pageblock_nr_pages) then MIGRATE_ISOLATE
                        else get_pageblock_migratetype z q) as Hlab.
      { intros q. rewrite Hza1, set_migratetype_isolate_cma_label by done.
        rewrite Hpg. case_decide as H1; case_decide as H2; try done; exfalso.
        - by apply Hblk in H1.
        - by apply H1, Hblk. }
      destruct (isolate_pageblocks fuel za _ end_pfn skip) as [[[z2 log2] r2]|] eqn:Hrec;
        [|done].
      simpl. intros [= <- <- <-].
      destruct (IH' _ _ _ _ Hrec) as ((Hh1 & Hh2 & Hh3) & Hf & Hsf & Hl1 & Hl2 & Hlog & Hr).
      destruct (Hstop r2 Hh1 Hf) as [Hs1 Hs2]. cbn zeta. rewrite Hs1.
      split; [split; [lia|done]|]. split; [by rewrite <- Hs1|].
      split; [by eapply same_frames_trans|]. split; [|split; [|split]].
      * intros q. destruct (Hl1 q) as [Heq|(Hq & Hqv & Hqi)].
        -- rewrite Heq, Hlab. case_decide as Hd; [|by left]. right.
           split; [lia|]. split; [|done].
           apply Hblk in Hd. destruct Hpv as (f & Hf' & Hfv'). exists f.
           split; [congruence|done].
        -- right. split; [lia|]. split; [|done].
           by apply (pageblock_valid_same_frames z za q Hsfa).
      * intros q Hq Hqv.
        destruct (decide (q < pfn + pageblock_nr_pages)) as [Hin|Hout].
        -- destruct (Hl1 q) as [Heq|(Hq' & _)]; [|lia].
           rewrite Heq, Hlab. by rewrite decide_True by lia.
        -- apply Hl2; [lia|]. by apply (pageblock_valid_same_frames z za q Hsfa).
      * intros c [->|Hc]%elem_of_cons; [by exists pg|].
        destruct (Hlog c Hc) as (pg' & -> & Hv'). exists pg'. split; [done|].
        by apply Hsfa.
      * done.
  - (* no valid frame in the pageblock: skip *)
    apply first_valid_page_None in Hfv; [|done|done|lia].
    intros Hrec.
    destruct (IH' _ _ _ _ Hrec) as ((Hh1 & Hh2 & Hh3) & Hf & Hsf & Hl1 & Hl2 & Hlog & Hr).
    destruct (Hstop r Hh1 Hf) as [Hs1 Hs2]. cbn zeta. rewrite Hs1.
    split; [split; [lia|done]|]. split; [by rewrite <- Hs1|].
    split; [done|]. split; [|split; [|split]].
    * intros q. destruct (Hl1 q) as [Heq|(Hq & Hqv & Hqi)]; [by left|right].
      split; [lia|done].
    * intros q Hq Hqv. apply Hl2; [|done].
      destruct (decide (q < pfn + pageblock_nr_pages)) as [Hin|]; [|lia].
      exfalso. apply Hfv. destruct Hqv as (f & Hf' & Hfv'). exists f.
      split; [|done]. rewrite Hf'. symmetry. apply Hblk. lia.
    * done.
    * done.
Qed.

(** With enough fuel the forward pass comes to an end. *)
Lemma isolate_pageblocks_total skip end_pfn :
  aligned end_pfn -> end_pfn < 2 ^ BITS_PER_LONG ->
  forall fuel z pfn,
  aligned pfn -> 0 <= pfn -> enough_fuel fuel pfn end_pfn ->
  is_Some (isolate_pageblocks fuel z pfn end_pfn skip).
Proof.
  intros He Hhi. induction fuel as [|fuel IH]; intros z pfn Hp H0 Hfuel.
  { by apply enough_fuel_0 in Hfuel. }
  simpl. destruct (Z.ltb_spec pfn end_pfn) as [Hlt|Hge]; [|done].
  destruct (next_pageblock _ _ Hp He H0 Hhi Hlt) as [Hnext Hle]. rewrite Hnext.
  pose proof pageblock_nr_pages_pos as HB.
  pose proof (fun z => IH z (pfn + pageblock_nr_pages) (aligned_add _ Hp)
               ltac:(lia) (enough_fuel_step _ _ _ Hp He Hlt Hfuel)) as IH'.
  destruct (__first_valid_page z pfn pageblock_nr_pages) as [pg|]; [|done].
  destruct (set_migratetype_isolate_cma z pg skip) as [za ret].
  case_decide; [done|].
  destruct (IH' za) as [[[z2 log2] r2] ->]. done.
Qed.

(** Where every frame of the range is absent the forward pass changes
    nothing and calls nothing. *)
Lemma isolate_pageblocks_absent skip end_pfn :
  aligned end_pfn -> end_pfn < 2 ^ BITS_PER_LONG ->
  forall fuel z pfn,
  aligned pfn -> 0 <= pfn -> enough_fuel fuel pfn end_pfn ->
  (forall f, pfn <= f < end_pfn -> mem_map z !! f = None) ->
  isolate_pageblocks fuel z pfn end_pfn skip = Some (z, [], None).
Proof.
  intros He Hhi. induction fuel as [|fuel IH]; intros z pfn Hp H0 Hfuel Habs.
  { by apply enough_fuel_0 in Hfuel. }
  simpl. destruct (Z.ltb_spec pfn end_pfn) as [Hlt|Hge]; [|done].
  destruct (next_pageblock _ _ Hp He H0 Hhi Hlt) as [Hnext Hle]. rewrite Hnext.
  pose proof pageblock_nr_pages_pos as HB.
  rewrite first_valid_page_absent; [|done|lia|intros f Hf; apply Habs; lia].
  apply IH; [by apply aligned_add|lia|by apply enough_fuel_step|].
  intros f Hf. apply Habs. lia.
Qed.

(** *** The range driver *)

(** What a BUSY return of isolate_range consists of: the range is aligned,
    the forward pass stopped at a pageblock [undo_from] of the range whose
    first valid page [set_migratetype_isolate_cma] refused, and the log is
    the forward calls followed by one [unset_migratetype_isolate_cma] call
    per pageblock of [start_pfn, undo_from), on the pageblock's first
    frame. *)
Lemma start_isolate_busy_inv fuel z start_pfn end_pfn mt skip z2 log :
  0 <= start_pfn -> end_pfn < 2 ^ BITS_PER_LONG ->
  start_isolate_page_range_cma fuel z start_pfn end_pfn mt skip = Returns (- EBUSY) z2 log ->
  aligned start_pfn /\ aligned end_pfn /\
  exists undo_from z1 log1,
    isolate_pageblocks fuel z start_pfn end_pfn skip = Some (z1, log1, Some undo_from)
    /\ aligned undo_from /\ start_pfn <= undo_from < end_pfn
    /\ rollback_pageblocks fuel z1 start_pfn undo_from mt =
         Some (z2, (fun p => call_unset_migratetype_isolate_cma p mt)
                     <$> pageblocks_between start_pfn undo_from)
    /\ log = log1 ++ ((fun p => call_unset_migratetype_isolate_cma p mt)
                        <$> pageblocks_between start_pfn undo_from).
Proof.
  intros H0 Hhi. unfold start_isolate_page_range_cma.
  destruct (misaligned start_pfn) eqn:Hs; [done|].
  destruct (misaligned end_pfn) eqn:He; [done|].
  apply misaligned_false in Hs, He.
  destruct (isolate_pageblocks fuel z start_pfn end_pfn skip)
    as [[[z1 log1] [u|]]|] eqn:Hfw; [|done|done].
  destruct (isolate_pageblocks_spec skip end_pfn He Hhi _ _ _ _ _ _ Hs H0 Hfw)
    as ((Hu1 & Hu2 & Hu3) & Hfuel & _).
  simpl in Hu1, Hu2, Hu3, Hfuel.
  destruct (rollback_pageblocks_spec mt u Hu2 ltac:(specialize (Hu3 ltac:(done)); lia)
              fuel z1 start_pfn Hs H0 Hfuel) as (z' & Hrb & _).
  rewrite Hrb. intros [= <- <-].
  split; [done|]. split; [done|]. exists u, z1, log1.
  split; [done|]. split; [done|]. split; [|done].
  split; [done|]. by apply Hu3.
Qed.

(** isolate_range returns, 0 or BUSY, on an aligned range with enough
    fuel. *)
Lemma start_isolate_page_range_cma_returns fuel z start_pfn end_pfn mt skip :
  0 <= start_pfn -> end_pfn < 2 ^ BITS_PER_LONG ->
  aligned start_pfn -> aligned end_pfn -> enough_fuel fuel start_pfn end_pfn ->
  exists ret z' log,
    start_isolate_page_range_cma fuel z start_pfn end_pfn mt skip = Returns ret z' log
    /\ (ret = 0 \/ ret = - EBUSY).
Proof.
  intros H0 Hhi Hs He Hfuel. unfold start_isolate_page_range_cma.
  apply misaligned_false in Hs as Hs', He as He'. rewrite Hs', He'.
  destruct (isolate_pageblocks_total skip end_pfn He Hhi fuel z start_pfn Hs H0 Hfuel)
    as [[[z1 log1] r] Hfw]. rewrite Hfw.
  destruct r as [u|]; [|by eexists _, _, _; split; [done|left]].
  destruct (isolate_pageblocks_spec skip end_pfn He Hhi _ _ _ _ _ _ Hs H0 Hfw)
    as ((Hu1 & Hu2 & Hu3) & Hfuel1 & _).
  simpl in Hu1, Hu2, Hu3, Hfuel1. specialize (Hu3 ltac:(done)).
  destruct (rollback_pageblocks_spec mt u Hu2 ltac:(lia) fuel z1 start_pfn Hs H0 Hfuel1)
    as (z2 & -> & _).
  eexists _, _, _. split; [done|by right].
Qed.

(** C1, as amended.  When [start_isolate_page_range_cma] (isolate_range)
    returns BUSY, [set_migratetype_isolate_cma] failed on the first valid
    page of a pageblock [undo_from] of the range, and before returning the
    function called [unset_migratetype_isolate_cma] with the undo
    migratetype on every pageblock from [start_pfn] up to but not including
    [undo_from].  Afterwards every pageblock outside [start_pfn, undo_from)
    has its pre-call label, and every present pageblock inside carries the
    undo migratetype (not its pre-call label).  The set of pageblocks
    labelled ISOLATE equals the pre-call set provided the undo migratetype
    is not ISOLATE and no pageblock of [start_pfn, undo_from) was labelled
    ISOLATE before the call. *)
Theorem isolate_range_busy_rollback fuel z start_pfn end_pfn mt skip z2 log :
  0 <= start_pfn -> end_pfn < 2 ^ BITS_PER_LONG ->
  start_isolate_page_range_cma fuel z start_pfn end_pfn mt skip = Returns (- EBUSY) z2 log ->
  exists undo_from z1 log1,
    (aligned undo_from /\ start_pfn <= undo_from < end_pfn)
    /\ isolate_pageblocks fuel z start_pfn end_pfn skip = Some (z1, log1, Some undo_from)
    /\ (exists pg, __first_valid_page z1 undo_from pageblock_nr_pages = Some pg
                   /\ (set_migratetype_isolate_cma z1 pg skip).2 <> 0)
    /\ log = log1 ++ ((fun p => call_unset_migratetype_isolate_cma p mt)
                        <$> pageblocks_between start_pfn undo_from)
    /\ (forall p, aligned p -> start_pfn <= p < undo_from ->
                  call_unset_migratetype_isolate_cma p mt ∈ log)
    /\ (forall q, ~ start_pfn <= q < undo_from ->
                  get_pageblock_migratetype z2 q = get_pageblock_migratetype z q)
    /\ (forall q, start_pfn <= q < undo_from -> pageblock_valid z q ->
                  get_pageblock_migratetype z2 q = mt)
    /\ (mt <> MIGRATE_ISOLATE ->
        (forall q, start_pfn <= q < undo_from ->
                   get_pageblock_migratetype z q <> MIGRATE_ISOLATE) ->
        forall q, get_pageblock_migratetype z2 q = MIGRATE_ISOLATE
                  <-> get_pageblock_migratetype z q = MIGRATE_ISOLATE).
Proof.
  intros H0 Hhi Hrun.
  destruct (start_isolate_busy_inv _ _ _ _ _ _ _ _ H0 Hhi Hrun)
    as (Hs & He & u & z1 & log1 & Hfw & Hu & Hur & Hrb & ->).
  destruct (isolate_pageblocks_spec skip end_pfn He Hhi _ _ _ _ _ _ Hs H0 Hfw)
    as (_ & Hfuel & Hsf & Hl1 & Hl2 & _ & Hfail).
  simpl in Hfuel, Hl1, Hl2.
  destruct (rollback_pageblocks_spec mt u Hu ltac:(lia) fuel z1 start_pfn Hs H0 Hfuel)
    as (z' & Hrb' & _ & Hr1 & Hr2).
  rewrite Hrb in Hrb'. injection Hrb' as <-.
  exists u, z1, log1. split; [done|]. split; [done|].
  split; [by apply Hfail|]. split; [done|].
  assert (forall q, ~ start_pfn <= q < u ->
            get_pageblock_migratetype z2 q = get_pageblock_migratetype z q) as Hout.
  { intros q Hq. destruct (Hr1 q) as [->|(? & _)]; [|done].
    by destruct (Hl1 q) as [->|(? & _)]. }
  assert (forall q, start_pfn <= q < u -> pageblock_valid z q ->
            get_pageblock_migratetype z2 q = mt) as Hin.
  { intros q Hq Hv. apply Hr2; [done|]. by apply Hl2. }
  split; [|split; [done|split; [done|]]].
  - intros p Hp Hpr. apply elem_of_app. right.
    apply list_elem_of_fmap. exists p. split; [done|].
    by apply elem_of_pageblocks_between.
  - intros Hmt Hpre q.
    destruct (decide (start_pfn <= q < u)) as [Hq|Hq]; [|by rewrite Hout].
    split; [|by intros ?%(Hpre q Hq)].
    intros Hiso. exfalso.
    destruct (Hr1 q) as [Heq|(_ & _ & Hm)]; [|congruence].
    rewrite Heq in Hiso. apply Hmt. rewrite <- (Hr2 q Hq Hiso). congruence.
Qed.

Lemma rollback_pageblocks_fold mt undo_pfn :
  aligned undo_pfn -> undo_pfn < 2 ^ BITS_PER_LONG ->
  forall fuel z pfn z' log,
  aligned pfn -> 0 <= pfn ->
  rollback_pageblocks fuel z pfn undo_pfn mt = Some (z', log) ->
  z' = foldl (fun za p => unset_migratetype_isolate_cma za p mt) z
             (pageblocks_between pfn undo_pfn).
Proof.
  clear has_unmovable_pages.
  intros He Hhi. pose proof pageblock_nr_pages_pos as HB.
  induction fuel as [|fuel IH]; intros z pfn z' log Hp H0; [done|].
  simpl. destruct (Z.ltb_spec pfn undo_pfn) as [Hlt|Hge].
  2:{ intros [= <- <-]. by rewrite pageblocks_between_nil by lia. }
  destruct (next_pageblock _ _ Hp He H0 Hhi Hlt) as [Hnext Hle]. rewrite Hnext.
  destruct (rollback_pageblocks fuel _ _ undo_pfn mt) as [[z2 log2]|] eqn:Hrec; [|done].
  simpl. intros [= <- <-].
  apply IH in Hrec as ->; [|by apply aligned_add|lia].
  by rewrite (pageblocks_between_step pfn undo_pfn).
Qed.

(** C10.  When [start_isolate_page_range_cma] returns BUSY, its forward
    pass left through [goto undo] at the pageblock [undo_from], where
    [set_migratetype_isolate_cma] failed on the first valid page; the calls
    of the forward pass are all on valid frames.  The calls that follow
    are those of the rollback loop, and they are exactly one
    [unset_migratetype_isolate_cma] on [pfn_to_page] of the first frame of
    every pageblock of [start_pfn, undo_from), in ascending order, whatever
    the validity of that frame and whatever the label of the pageblock; the
    zone returned is the zone of the forward pass with these calls applied
    in that order.  In particular a pageblock whose frames are all absent,
    for which the forward pass made no call and which
    [undo_isolate_page_range_cma] would skip without a call, is passed to
    [unset_migratetype_isolate_cma] on its first, absent frame. *)
Theorem rollback_unset_unconditional fuel z start_pfn end_pfn mt skip z2 log :
  0 <= start_pfn -> end_pfn < 2 ^ BITS_PER_LONG ->
  start_isolate_page_range_cma fuel z start_pfn end_pfn mt skip = Returns (- EBUSY) z2 log ->
  exists undo_from z1 log1,
    isolate_pageblocks fuel z start_pfn end_pfn skip = Some (z1, log1, Some undo_from)
    /\ (aligned undo_from /\ start_pfn <= undo_from < end_pfn)
    /\ (exists pg, __first_valid_page z1 undo_from pageblock_nr_pages = Some pg
                   /\ (set_migratetype_isolate_cma z1 pg skip).2 <> 0)
    /\ (forall c, c ∈ log1 ->
          exists pg, c = call_set_migratetype_isolate_cma pg skip
                     /\ is_Some (mem_map z !! pg))
    /\ log = log1 ++ ((fun p => call_unset_migratetype_isolate_cma p mt)
                        <$> pageblocks_between start_pfn undo_from)
    /\ z2 = foldl (fun za p => unset_migratetype_isolate_cma za p mt) z1
                  (pageblocks_between start_pfn undo_from)
    /\ (forall p, p ∈ pageblocks_between start_pfn undo_from
                  <-> aligned p /\ start_pfn <= p < undo_from)
    /\ (forall p, aligned p -> start_pfn <= p < undo_from ->
                  call_unset_migratetype_isolate_cma p mt ∈ log)
    /\ (forall p, aligned p -> start_pfn <= p < undo_from ->
          (forall f, p <= f < p + pageblock_nr_pages -> mem_map z !! f = None) ->
          pfn_valid_within z p = false
          /\ __first_valid_page z p pageblock_nr_pages = None
          /\ (forall pg sk, p <= pg < p + pageblock_nr_pages ->
                            call_set_migratetype_isolate_cma pg sk ∉ log)
          /\ undo_pageblocks fuel z p (p + pageblock_nr_pages) mt = Some (z, [])
          /\ call_unset_migratetype_isolate_cma p mt ∈ log).
Proof.
  intros H0 Hhi Hrun.
  destruct (start_isolate_busy_inv _ _ _ _ _ _ _ _ H0 Hhi Hrun)
    as (Hs & He & u & z1 & log1 & Hfw & Hu & Hur & Hrb & ->).
  destruct (isolate_pageblocks_spec skip end_pfn He Hhi _ _ _ _ _ _ Hs H0 Hfw)
    as (_ & Hfuel & Hsf & _ & _ & Hlog & Hfail).
  simpl in Hfuel. pose proof pageblock_nr_pages_pos as HB.
  assert (forall p, aligned p -> start_pfn <= p < u ->
            call_unset_migratetype_isolate_cma p mt
              ∈ log1 ++ ((fun p => call_unset_migratetype_isolate_cma p mt)
                           <$> pageblocks_between start_pfn u)) as Hcalls.
  { intros p Hp Hpr. apply elem_of_app. right.
    apply list_elem_of_fmap. exists p. split; [done|].
    by apply elem_of_pageblocks_between. }
  exists u, z1, log1. split; [done|]. split; [done|]. split; [by apply Hfail|].
  split; [done|]. split; [done|].
  split; [by apply (rollback_pageblocks_fold mt u Hu ltac:(lia) _ _ _ _ _ Hs H0 Hrb)|].
  split; [intros p; by apply elem_of_pageblocks_between|]. split; [done|].
  intros p Hp Hpr Habs.
  pose proof (aligned_lt_step p u Hp Hu ltac:(lia)) as Hstep.
  split; [|split; [|split; [|split]]].
  - unfold pfn_valid_within. rewrite Habs by lia.
    apply bool_decide_eq_false. by intros [? ?].
  - apply first_valid_page_absent; [lia|lia|done].
  - intros pg sk Hpg [Hin|Hin]%elem_of_app.
    + destruct (Hlog _ Hin) as (pg' & [= <- <-] & Hv).
      rewrite Habs in Hv by done. by destruct Hv.
    + apply list_elem_of_fmap in Hin as (? & ? & _). done.
  - apply undo_pageblocks_noop; [by apply aligned_add|lia|done|lia| |].
    + unfold enough_fuel in *. lia.
    + intros q Hq (f & Hf & Hv). exfalso.
      assert (pageblock_nr f = pageblock_nr p) as Hfp.
      { rewrite Hf. apply same_pageblock; [done|lia]. }
      apply same_pageblock in Hfp; [|done].
      rewrite Habs in Hv by done. by destruct Hv.
  - by apply Hcalls.
Qed.

(** C8.  [start_isolate_page_range_cma] and [undo_isolate_page_range_cma]
    stop in [BUG_ON] before touching any state (the zone is the one they
    were given and no call was made) whenever [start_pfn] or [end_pfn] is
    not a multiple of [pageblock_nr_pages]; when both are multiples neither
    function reaches [BUG_ON]. *)
Theorem range_alignment_bug fuel z start_pfn end_pfn mt skip :
  (~ (aligned start_pfn /\ aligned end_pfn) ->
     start_isolate_page_range_cma fuel z start_pfn end_pfn mt skip = Bug z []
     /\ undo_isolate_page_range_cma fuel z start_pfn end_pfn mt = Bug z [])
  /\ (aligned start_pfn /\ aligned end_pfn ->
      forall z' log,
        start_isolate_page_range_cma fuel z start_pfn end_pfn mt skip <> Bug z' log
        /\ undo_isolate_page_range_cma fuel z start_pfn end_pfn mt <> Bug z' log).
Proof.
  unfold start_isolate_page_range_cma, undo_isolate_page_range_cma. split.
  - intros Hmis.
    destruct (misaligned start_pfn) eqn:Hs; [done|].
    destruct (misaligned end_pfn) eqn:He; [done|].
    apply misaligned_false in Hs, He. by destruct Hmis.
  - intros [Hs%misaligned_false He%misaligned_false] z' log. rewrite Hs, He.
    split.
    + destruct (isolate_pageblocks _ _ _ _ _) as [[[z1 log1] [u|]]|]; [|done|done].
      by destruct (rollback_pageblocks _ _ _ _ _) as [[? ?]|].
    + by destruct (undo_pageblocks _ _ _ _ _) as [[? ?]|].
Qed.

Lemma move_page_buddy mt pg :
  PageBuddy (move_page mt pg) = PageBuddy pg.
Proof. unfold move_page. by destruct (PageBuddy pg) eqn:Hb. Qed.

Lemma move_page_free_list mt pg :
  PageBuddy pg = true ->
  free_list (move_page mt pg) = mt /\ get_freepage_migratetype (move_page mt pg) = mt.
Proof. unfold move_page. by intros ->. Qed.

Lemma start_isolate_ok_inv fuel z start_pfn end_pfn mt skip z1 log1 :
  start_isolate_page_range_cma fuel z start_pfn end_pfn mt skip = Returns 0 z1 log1 ->
  aligned start_pfn /\ aligned end_pfn
  /\ isolate_pageblocks fuel z start_pfn end_pfn skip = Some (z1, log1, None).
Proof.
  unfold start_isolate_page_range_cma.
  destruct (misaligned start_pfn) eqn:Hs; [done|].
  destruct (misaligned end_pfn) eqn:He; [done|].
  apply misaligned_false in Hs, He.
  destruct (isolate_pageblocks fuel z start_pfn end_pfn skip)
    as [[[za loga] [u|]]|]; [|by intros [= <- <-]|done].
  destruct (rollback_pageblocks _ _ _ _ _) as [[? ?]|]; [|done].
  by intros [=].
Qed.

(** C6, as amended.  [undo_isolate_page_range_cma] (undo_range) on an
    aligned range always returns 0; on each pageblock whose label is not
    ISOLATE it makes no state change ([unset_migratetype_isolate_cma] is a
    no-op there); and for every target migratetype other than ISOLATE it is
    idempotent: applied a second time with the same target it returns 0
    and leaves the zone exactly as the first application left it. *)
Theorem undo_range_idempotent fuel z start_pfn end_pfn mt :
  0 <= start_pfn -> end_pfn < 2 ^ BITS_PER_LONG ->
  aligned start_pfn -> aligned end_pfn ->
  enough_fuel fuel start_pfn end_pfn ->
  exists z1 log1,
    undo_isolate_page_range_cma fuel z start_pfn end_pfn mt = Returns 0 z1 log1
    /\ (mt <> MIGRATE_ISOLATE ->
        undo_isolate_page_range_cma fuel z1 start_pfn end_pfn mt = Returns 0 z1 [])
    /\ (forall q, get_pageblock_migratetype z q <> MIGRATE_ISOLATE ->
          unset_migratetype_isolate_cma z q mt = z
          /\ get_pageblock_migratetype z1 q = get_pageblock_migratetype z q
          /\ (forall f, pageblock_nr f = pageblock_nr q ->
                        mem_map z1 !! f = mem_map z !! f)).
Proof.
  intros H0 Hhi Hs He Hfuel.
  destruct (undo_pageblocks_spec mt end_pfn He Hhi fuel z start_pfn Hs H0 Hfuel)
    as (z1 & log1 & Hrun & Hsf & Hl1 & Hl2 & Hpgs).
  exists z1, log1. unfold undo_isolate_page_range_cma.
  apply misaligned_false in Hs as Hs', He as He'. rewrite Hs', He', Hrun.
  split; [done|]. split.
  - intros Hmt. rewrite undo_pageblocks_noop; try done.
    intros q Hq Hv%(pageblock_valid_same_frames z z1 q Hsf) Hiso.
    destruct (Hl1 q) as [Heq|(_ & _ & _ & Hm)]; [|congruence].
    rewrite Heq in Hiso. apply Hmt. rewrite <- (Hl2 q Hq Hv Hiso). congruence.
  - intros q Hq. split; [by apply unset_migratetype_isolate_cma_noop|]. split.
    + by destruct (Hl1 q) as [?|(_ & _ & ? & _)].
    + intros f Hf. rewrite Hpgs. destruct (mem_map z !! f); [simpl|done].
      rewrite decide_False; [done|]. intros [_ Hiso]. apply Hq.
      by rewrite <- (get_pageblock_migratetype_same_block z f q Hf).
Qed.

(** C7, as amended.  Round trip: when isolate_range over a range all of
    whose pageblocks contain a valid frame returns 0 and undo_range then
    runs over the same range with target [M], undo_range returns 0,
    afterwards every pageblock of the range has label [M], and every free
    page of those pageblocks is on the free list of [M] with hint [M]; so
    for every [M] other than ISOLATE, no free page of those blocks remains
    on the ISOLATE free list. *)
Theorem isolate_undo_round_trip fuel z start_pfn end_pfn mt0 skip M z1 log1 :
  0 <= start_pfn -> end_pfn < 2 ^ BITS_PER_LONG ->
  (forall q, start_pfn <= q < end_pfn -> pageblock_valid z q) ->
  start_isolate_page_range_cma fuel z start_pfn end_pfn mt0 skip = Returns 0 z1 log1 ->
  exists z2 log2,
    undo_isolate_page_range_cma fuel z1 start_pfn end_pfn M = Returns 0 z2 log2
    /\ (forall q, start_pfn <= q < end_pfn -> get_pageblock_migratetype z2 q = M)
    /\ (forall f pg, start_pfn <= f < end_pfn ->
          mem_map z2 !! f = Some pg -> PageBuddy pg = true ->
          free_list pg = M /\ get_freepage_migratetype pg = M)
    /\ (M <> MIGRATE_ISOLATE ->
        forall f pg, start_pfn <= f < end_pfn ->
          mem_map z2 !! f = Some pg -> PageBuddy pg = true ->
          free_list pg <> MIGRATE_ISOLATE).
Proof.
  intros H0 Hhi Hvalid (Hs & He & Hfw)%start_isolate_ok_inv.
  destruct (isolate_pageblocks_spec skip end_pfn He Hhi _ _ _ _ _ _ Hs H0 Hfw)
    as (_ & Hfuel & Hsf & _ & Hiso & _).
  simpl in Hfuel, Hiso.
  assert (enough_fuel fuel start_pfn end_pfn) as Hfuel'
    by (unfold enough_fuel in *; lia).
  assert (forall q, start_pfn <= q < end_pfn ->
            get_pageblock_migratetype z1 q = MIGRATE_ISOLATE) as Hiso'.
  { intros q Hq. apply Hiso; [lia|by apply Hvalid]. }
  destruct (undo_pageblocks_spec M end_pfn He Hhi fuel z1 start_pfn Hs H0 Hfuel')
    as (z2 & log2 & Hrun & Hsf2 & Hl1 & Hl2 & Hpgs).
  exists z2, log2. unfold undo_isolate_page_range_cma.
  apply misaligned_false in Hs as Hs', He as He'. rewrite Hs', He', Hrun.
  split; [done|].
  assert (forall f pg, start_pfn <= f < end_pfn ->
            mem_map z2 !! f = Some pg -> PageBuddy pg = true ->
            free_list pg = M /\ get_freepage_migratetype pg = M) as Hfree.
  { intros f pg Hf Hpg Hb. rewrite Hpgs in Hpg.
    destruct (mem_map z1 !! f) as [p|]; [|done]. simpl in Hpg.
    rewrite decide_True in Hpg by (split; [done|by apply Hiso']).
    injection Hpg as <-. apply move_page_free_list.
    by rewrite move_page_buddy in Hb. }
  split; [|split; [done|]].
  - intros q Hq. apply Hl2; [done| |by apply Hiso'].
    apply (pageblock_valid_same_frames z z1 q Hsf). by apply Hvalid.
  - intros HM f pg Hf Hpg Hb. by destruct (Hfree f pg Hf Hpg Hb) as [-> _].
Qed.

(** *** The range verifier *)

Lemma pages_agree_refl z : pages_agree z z.
Proof. intros f. by destruct (mem_map z !! f). Qed.

Lemma pages_agree_trans z1 z2 z3 :
  pages_agree z1 z2 -> pages_agree z2 z3 -> pages_agree z1 z3.
Proof.
  intros H12 H23 f. specialize (H12 f). specialize (H23 f).
  destruct (mem_map z1 !! f), (mem_map z2 !! f), (mem_map z3 !! f); try done.
  destruct H12 as (? & ? & ? & ? & ?), H23 as (? & ? & ? & ? & ?).
  repeat split; congruence.
Qed.

Lemma pages_agree_same_frames z z' : pages_agree z z' -> same_frames z z'.
Proof.
  intros H f. specialize (H f).
  destruct (mem_map z !! f), (mem_map z' !! f); done.
Qed.

Lemma move_freepages_pages_agree z first last mt :
  pages_agree z (move_freepages z first last mt).1.
Proof.
  intros f. rewrite move_freepages_lookup.
  destruct (mem_map z !! f) as [pg|]; [simpl|done].
  destruct (in_extent first last f); [|done].
  unfold move_page. by destruct (PageBuddy pg) eqn:Hb.
Qed.

Lemma extent_wraps_pages_agree z z' :
  pages_agree z z' -> extent_wraps z' -> extent_wraps z.
Proof.
  intros Hag (h & hp' & Hh & Hb & Hw). specialize (Hag h). rewrite Hh in Hag.
  destruct (mem_map z !! h) as [hp|] eqn:Hz; [|done].
  destruct Hag as (_ & _ & Hb' & Ho & _). exists h, hp.
  split; [done|]. split; [congruence|].
  unfold order_nr_pages in *. by rewrite <- Ho.
Qed.

Lemma extents_fit_no_wrap z : extents_fit z -> ~ extent_wraps z.
Proof. intros Hfit (h & hp & Hh & Hb & Hw). specialize (Hfit h hp Hh Hb). lia. Qed.

Lemma extents_fit_pages_agree z z' :
  pages_agree z z' -> extents_fit z -> extents_fit z'.
Proof.
  intros Hag Hfit h hp' Hh Hb. specialize (Hag h). rewrite Hh in Hag.
  destruct (mem_map z !! h) as [hp|] eqn:Hz; [|done].
  destruct Hag as (_ & _ & Hb' & Ho & _).
  specialize (Hfit h hp Hz ltac:(congruence)).
  unfold order_nr_pages in *. by rewrite Ho.
Qed.

Lemma move_page_fields mt pg :
  page_count (move_page mt pg) = page_count pg
  /\ page_private (move_page mt pg) = page_private pg
  /\ PageBuddy (move_page mt pg) = PageBuddy pg
  /\ page_order (move_page mt pg) = page_order pg
  /\ PageHWPoison (move_page mt pg) = PageHWPoison pg.
Proof. unfold move_page. by destruct (PageBuddy pg) eqn:Hb. Qed.

Lemma move_page_hint_isolate pg :
  get_freepage_migratetype pg = MIGRATE_ISOLATE \/ PageBuddy pg = true ->
  get_freepage_migratetype (move_page MIGRATE_ISOLATE pg) = MIGRATE_ISOLATE.
Proof. unfold move_page. destruct (PageBuddy pg); [done|]. by intros [?|?]. Qed.

(** The repair keeps every accepted frame accepted. *)
Lemma frame_isolated_move_freepages z first last skip lo f pg :
  mem_map z !! f = Some pg ->
  frame_isolated z skip lo f pg ->
  exists pg', mem_map (move_freepages z first last MIGRATE_ISOLATE).1 !! f = Some pg'
              /\ frame_isolated (move_freepages z first last MIGRATE_ISOLATE).1 skip lo f pg'.
Proof.
  intros Hf Hiso.
  exists (if in_extent first last f then move_page MIGRATE_ISOLATE pg else pg).
  split; [by rewrite move_freepages_lookup, Hf|].
  destruct Hiso as [(h & hp & Hh & Hlt & Hhp & Hb & Hi)|[[Hc Hi]|[Hs Hp]]].
  - left. exists h, (if in_extent first last h then move_page MIGRATE_ISOLATE hp else hp).
    split; [done|].
    rewrite move_freepages_lookup, Hhp.
    destruct (move_page_fields MIGRATE_ISOLATE hp) as (_ & _ & Hb' & Ho' & _).
    destruct (in_extent first last h); [|done].
    unfold order_nr_pages. rewrite Ho', Hb'.
    split; [done|]. split; [done|]. split; [done|].
    apply move_page_hint_isolate. by left.
  - right; left.
    destruct (move_page_fields MIGRATE_ISOLATE pg) as (Hc' & _).
    destruct (in_extent first last f); [|done].
    rewrite Hc'. split; [done|]. apply move_page_hint_isolate. by left.
  - right; right.
    destruct (move_page_fields MIGRATE_ISOLATE pg) as (_ & _ & _ & _ & Hp').
    destruct (in_extent first last f); [|done]. by rewrite Hp'.
Qed.

Lemma frames_isolated_move_freepages z first last skip lo hi :
  frames_isolated z skip lo hi ->
  frames_isolated (move_freepages z first last MIGRATE_ISOLATE).1 skip lo hi.
Proof.
  intros Hcov f pg' Hf Hpg'.
  pose proof Hpg' as Hlook. rewrite move_freepages_lookup in Hlook.
  destruct (mem_map z !! f) as [pg|] eqn:Hz; [|done].
  destruct (frame_isolated_move_freepages z first last skip lo f pg Hz (Hcov f pg Hf Hz))
    as (pg'' & Hpg'' & Hiso).
  rewrite Hpg' in Hpg''. by injection Hpg'' as <-.
Qed.

Lemma frames_isolated_mono z skip lo hi hi' :
  hi' <= hi -> frames_isolated z skip lo hi -> frames_isolated z skip lo hi'.
Proof. intros Hle Hcov f pg Hf. apply Hcov. lia. Qed.

Lemma pages_agree_sym z z' : pages_agree z z' -> pages_agree z' z.
Proof.
  intros H f. specialize (H f).
  destruct (mem_map z !! f), (mem_map z' !! f); try done.
  destruct H as (? & ? & ? & ? & ?). repeat split; congruence.
Qed.

Lemma walk_inv_move_freepages z first last skip start_pfn end_pfn pfn :
  walk_inv z skip start_pfn end_pfn pfn ->
  walk_inv (move_freepages z first last MIGRATE_ISOLATE).1 skip start_pfn end_pfn pfn.
Proof.
  intros [[Hle Hcov]|[Hcov Hw]]; [left|right].
  - split; [done|by apply frames_isolated_move_freepages].
  - split; [by apply frames_isolated_move_freepages|].
    eapply extent_wraps_pages_agree; [|done].
    apply pages_agree_sym, move_freepages_pages_agree.
Qed.

(** One frame accepted (or absent): the walk moves to the next frame. *)
Lemma walk_inv_next z skip start_pfn end_pfn pfn :
  0 <= start_pfn -> end_pfn < 2 ^ BITS_PER_LONG -> pfn < end_pfn ->
  (forall pg, mem_map z !! pfn = Some pg -> frame_isolated z skip start_pfn pfn pg) ->
  walk_inv z skip start_pfn end_pfn pfn ->
  walk_inv z skip start_pfn end_pfn (ulong (pfn + 1)).
Proof.
  intros H0 Hhi Hlt Hacc [[Hle Hcov]|Hw]; [left|by right].
  rewrite ulong_small by lia. split; [lia|].
  intros f pg Hf Hpg. destruct (decide (f = pfn)) as [->|Hne].
  - by apply Hacc.
  - apply Hcov; [lia|done].
Qed.

(** A buddy extent with hint ISOLATE: the walk moves past the extent. *)
Lemma walk_inv_buddy z skip start_pfn end_pfn pfn pg :
  0 <= start_pfn -> end_pfn < 2 ^ BITS_PER_LONG -> pfn < end_pfn ->
  mem_map z !! pfn = Some pg -> PageBuddy pg = true ->
  get_freepage_migratetype pg = MIGRATE_ISOLATE ->
  walk_inv z skip start_pfn end_pfn pfn ->
  walk_inv z skip start_pfn end_pfn (ulong (pfn + order_nr_pages pg)).
Proof.
  intros H0 Hhi Hlt Hpg Hb Hi [[Hle Hcov]|Hw]; [|by right].
  pose proof (order_nr_pages_pos pg) as Hn.
  assert (frames_isolated z skip start_pfn (pfn + order_nr_pages pg)) as Hcov'.
  { intros f p Hf Hp. destruct (decide (f < pfn)) as [Hlo|Hge].
    - apply Hcov; [lia|done].
    - left. exists pfn, pg. split; [lia|]. split; [lia|done]. }
  destruct (decide (pfn + order_nr_pages pg < 2 ^ BITS_PER_LONG)) as [Hfit|Hwrap].
  - left. rewrite ulong_small by lia. split; [lia|done].
  - right. split; [eapply frames_isolated_mono; [|done]; lia|].
    exists pfn, pg. split; [done|]. split; [done|lia].
Qed.

(** One iteration of the content walk. *)
Lemma test_walk_cma_step fuel z pfn end_pfn skip failed :
  test_walk_cma (S fuel) z pfn end_pfn skip failed =
  if pfn <? end_pfn then
    match mem_map z !! pfn with
    | None => test_walk_cma fuel z (ulong (pfn + 1)) end_pfn skip failed
    | Some pg =>
        if PageBuddy pg then
          if decide (get_freepage_migratetype pg <> MIGRATE_ISOLATE) then
            let end_page := pfn + order_nr_pages pg - 1 in
            let z1 := (move_freepages z pfn end_page MIGRATE_ISOLATE).1 in
            '(z2, log, pfn', failed') ←
              test_walk_cma fuel z1 (ulong (pfn + order_nr_pages pg)) end_pfn skip failed;
            Some (z2, call_move_freepages pfn end_page MIGRATE_ISOLATE :: log,
                  pfn', failed')
          else test_walk_cma fuel z (ulong (pfn + order_nr_pages pg)) end_pfn skip failed
        else if bool_decide (page_count pg = 0)
                && bool_decide (get_freepage_migratetype pg = MIGRATE_ISOLATE) then
          test_walk_cma fuel z (ulong (pfn + 1)) end_pfn skip failed
        else if skip && PageHWPoison pg then
          test_walk_cma fuel z (ulong (pfn + 1)) end_pfn skip failed
        else Some (z, [], pfn, pfn)
    end
  else Some (z, [], pfn, failed).
Proof. done. Qed.

Lemma test_walk_cma_spec skip start_pfn end_pfn :
  0 <= start_pfn -> end_pfn < 2 ^ BITS_PER_LONG ->
  forall fuel z pfn failed z' log pfn' failed',
  walk_inv z skip start_pfn end_pfn pfn ->
  test_walk_cma fuel z pfn end_pfn skip failed = Some (z', log, pfn', failed') ->
  pages_agree z z'
  /\ pageblock_flags z' = pageblock_flags z /\ vm_stat z' = vm_stat z
  /\ walk_inv z' skip start_pfn end_pfn pfn'
  /\ ((end_pfn <= pfn' /\ failed' = failed)
      \/ (pfn' < end_pfn /\ failed' = pfn'
          /\ exists pg, mem_map z' !! pfn' = Some pg /\ frame_offending skip pg)).
Proof.
  intros H0 Hhi.
  induction fuel as [|fuel IH]; intros z pfn failed z' log pfn' failed' Hinv; [done|].
  rewrite test_walk_cma_step. destruct (Z.ltb_spec pfn end_pfn) as [Hlt|Hge].
  2:{ intros [= <- <- <- <-]. split; [apply pages_agree_refl|].
      split; [done|]. split; [done|]. split; [done|]. left. split; [lia|done]. }
  destruct (mem_map z !! pfn) as [pg|] eqn:Hpg.
  2:{ apply IH. apply walk_inv_next; try done. by rewrite Hpg. }
  destruct (PageBuddy pg) eqn:Hb.
  - case_decide as Hhint.
    + (* misplaced buddy extent: repair, then move past it *)
      cbv zeta.
      set (z1 := (move_freepages z pfn (pfn + order_nr_pages pg - 1) MIGRATE_ISOLATE).1).
      destruct (test_walk_cma fuel z1 (ulong (pfn + order_nr_pages pg)) end_pfn skip failed)
        as [[[[z2 log2] p2] f2]|] eqn:Hrec; [|done].
      simpl. intros [= <- <- <- <-].
      pose proof (order_nr_pages_pos pg) as Hn.
      assert (mem_map z1 !! pfn = Some (move_page MIGRATE_ISOLATE pg)) as Hpg1.
      { unfold z1. rewrite move_freepages_lookup, Hpg. simpl.
        unfold in_extent.
        by rewrite (proj2 (Z.leb_le _ _)), (proj2 (Z.leb_le _ _)) by lia. }
      destruct (move_page_fields MIGRATE_ISOLATE pg) as (_ & _ & Hb1 & Ho1 & _).
      assert (order_nr_pages (move_page MIGRATE_ISOLATE pg) = order_nr_pages pg) as Hn1.
      { unfold order_nr_pages. by rewrite Ho1. }
      assert (walk_inv z1 skip start_pfn end_pfn (ulong (pfn + order_nr_pages pg))) as Hinv1.
      { rewrite <- Hn1. apply walk_inv_buddy; try done.
        - congruence.
        - apply move_page_hint_isolate. by right.
        - by apply walk_inv_move_freepages. }
      destruct (IH _ _ _ _ _ _ _ Hinv1 Hrec) as (Hag & Hfl & Hvs & Hinv2 & Hres).
      split; [eapply pages_agree_trans; [apply move_freepages_pages_agree|done]|].
      done.
    + (* buddy extent already on the ISOLATE list *)
      apply IH. apply walk_inv_buddy; try done.
  - destruct (bool_decide (page_count pg = 0)
              && bool_decide (get_freepage_migratetype pg = MIGRATE_ISOLATE)) eqn:Hfree.
    { apply andb_true_iff in Hfree as [Hc%bool_decide_eq_true Hi%bool_decide_eq_true].
      apply IH. apply walk_inv_next; try done.
      intros p. rewrite Hpg. intros [= <-]. right; left. done. }
    destruct (skip && PageHWPoison pg) eqn:Hpoison.
    { apply andb_true_iff in Hpoison as [Hs Hp].
      apply IH. apply walk_inv_next; try done.
      intros p. rewrite Hpg. intros [= <-]. right; right. done. }
    intros [= <- <- <- <-]. split; [apply pages_agree_refl|].
    split; [done|]. split; [done|]. split; [done|]. right.
    split; [done|]. split; [done|]. exists pg. split; [done|].
    split; [done|]. split.
    + intros [Hc Hi]. apply andb_false_iff in Hfree as [Hf|Hf];
        apply bool_decide_eq_false in Hf; done.
    + intros [Hs Hp]. rewrite Hs, Hp in Hpoison. done.
Qed.

(** The label check stops early only at a present pageblock whose label
    is not ISOLATE. *)
Lemma check_pageblocks_stop end_pfn : forall fuel z pfn p,
  check_pageblocks fuel z pfn end_pfn = Some p -> p < end_pfn ->
  exists pg, __first_valid_page z p pageblock_nr_pages = Some pg
             /\ get_pageblock_migratetype z pg <> MIGRATE_ISOLATE.
Proof.
  induction fuel as [|fuel IH]; intros z pfn p; [done|]. simpl.
  destruct (Z.ltb_spec pfn end_pfn) as [Hlt|Hge]; [|intros [= <-]; lia].
  destruct (__first_valid_page z pfn pageblock_nr_pages) as [pg|] eqn:Hfv; [|apply IH].
  case_decide as Hiso; [|apply IH].
  intros [= <-] _. exists pg. by rewrite Hfv.
Qed.

Lemma check_pageblocks_total end_pfn :
  aligned end_pfn -> end_pfn < 2 ^ BITS_PER_LONG ->
  forall fuel z pfn,
  aligned pfn -> 0 <= pfn -> enough_fuel fuel pfn end_pfn ->
  is_Some (check_pageblocks fuel z pfn end_pfn).
Proof.
  intros He Hhi. induction fuel as [|fuel IH]; intros z pfn Hp H0 Hfuel.
  { by apply enough_fuel_0 in Hfuel. }
  simpl. destruct (Z.ltb_spec pfn end_pfn) as [Hlt|Hge]; [|done].
  destruct (next_pageblock _ _ Hp He H0 Hhi Hlt) as [Hnext Hle]. rewrite Hnext.
  pose proof pageblock_nr_pages_pos as HB.
  pose proof (IH z (pfn + pageblock_nr_pages) (aligned_add _ Hp)
               ltac:(lia) (enough_fuel_step _ _ _ Hp He Hlt Hfuel)) as IH'.
  destruct (__first_valid_page z pfn pageblock_nr_pages) as [pg|]; [|done].
  by case_decide.
Qed.

(** With one unit of fuel per frame (and one for the final test) the
    content walk comes to an end, in a zone none of whose buddy extents
    makes [pfn] wrap. *)
Lemma test_walk_cma_total skip end_pfn :
  end_pfn < 2 ^ BITS_PER_LONG ->
  forall fuel z pfn failed,
  0 <= pfn -> extents_fit z -> (Z.to_nat (end_pfn - pfn) < fuel)%nat ->
  is_Some (test_walk_cma fuel z pfn end_pfn skip failed).
Proof.
  intros Hhi. induction fuel as [|fuel IH]; intros z pfn failed H0 Hfit Hfuel; [lia|].
  rewrite test_walk_cma_step.
  destruct (Z.ltb_spec pfn end_pfn) as [Hlt|Hge]; [|done].
  assert (forall z' d, extents_fit z' -> 0 < d -> pfn + d < 2 ^ BITS_PER_LONG ->
            is_Some (test_walk_cma fuel z' (ulong (pfn + d)) end_pfn skip failed)) as Hnext.
  { intros z' d Hfit' Hd Hd'. rewrite ulong_small by lia. apply IH; [lia|done|lia]. }
  destruct (mem_map z !! pfn) as [pg|] eqn:Hpg; [|apply Hnext; [done|lia|lia]].
  pose proof (order_nr_pages_pos pg) as Hn.
  destruct (PageBuddy pg) eqn:Hb.
  - pose proof (Hfit pfn pg Hpg Hb) as Hext.
    case_decide; [|by apply Hnext].
    cbv zeta.
    destruct (Hnext (move_freepages z pfn (pfn + order_nr_pages pg - 1) MIGRATE_ISOLATE).1
                (order_nr_pages pg)) as [[[[z2 log2] p2] f2] ->]; [|done|done|done].
    eapply extents_fit_pages_agree; [apply move_freepages_pages_agree|done].
  - destruct (_ && _); [apply Hnext; [done|lia|lia]|].
    destruct (_ && _); [apply Hnext; [done|lia|lia]|done].
Qed.

(** test_range returns: on an aligned range, with enough fuel for the
    pageblocks and for the frames. *)
Lemma test_pages_isolated_cma_returns fuel z start_pfn end_pfn skip failed :
  0 <= start_pfn -> end_pfn < 2 ^ BITS_PER_LONG ->
  aligned start_pfn -> aligned end_pfn -> extents_fit z ->
  (Z.to_nat (end_pfn - start_pfn) < fuel)%nat ->
  exists ret failed' z' log,
    test_pages_isolated_cma fuel z start_pfn end_pfn skip failed
    = Returns (ret, failed') z' log
    /\ (ret = 0 \/ ret = - EBUSY).
Proof.
  intros H0 Hhi Hs He Hfit Hfuel. pose proof pageblock_nr_pages_pos as HB.
  assert (enough_fuel fuel start_pfn end_pfn) as Hfuel'.
  { unfold enough_fuel. nia. }
  unfold test_pages_isolated_cma.
  destruct (check_pageblocks_total end_pfn He Hhi fuel z start_pfn Hs H0 Hfuel')
    as [pfn ->].
  destruct (_ || _); [by eexists _, _, _, _; split; [done|right]|].
  unfold __test_page_isolated_in_pageblock_cma.
  destruct (test_walk_cma_total skip end_pfn Hhi fuel z start_pfn failed H0 Hfit Hfuel)
    as [[[[z1 log1] p1] f1] ->].
  simpl. eexists _, _, _, _. split; [done|].
  destruct (p1 <? end_pfn); [by right|by left].
Qed.

(** C2.  When [test_pages_isolated_cma] (test_range) returns 0, then in
    the zone as the walk leaves it every valid frame of
    [start_pfn, end_pfn) is buddy-free with freepage-migratetype hint
    ISOLATE, or has refcount 0 with hint ISOLATE, or (when skip-poisoned is
    set) is hardware-poisoned. *)
Theorem test_range_ok_frames_isolated fuel z start_pfn end_pfn skip failed failed' z' log :
  0 <= start_pfn -> end_pfn < 2 ^ BITS_PER_LONG ->
  test_pages_isolated_cma fuel z start_pfn end_pfn skip failed = Returns (0, failed') z' log ->
  forall f pg, start_pfn <= f < end_pfn -> mem_map z' !! f = Some pg ->
    frame_isolated z' skip start_pfn f pg.
Proof.
  intros H0 Hhi. unfold test_pages_isolated_cma.
  destruct (check_pageblocks fuel z start_pfn end_pfn) as [pfn|]; [|done].
  destruct (_ || _); [by intros [=]|].
  unfold __test_page_isolated_in_pageblock_cma.
  destruct (test_walk_cma fuel z start_pfn end_pfn skip failed)
    as [[[[z1 log1] p1] f1]|] eqn:Hwalk; [|done].
  simpl. destruct (Z.ltb_spec p1 end_pfn) as [Hlt|Hge]; [by intros [=]|].
  simpl. intros [= <- <- <-].
  assert (walk_inv z skip start_pfn end_pfn start_pfn) as Hinv.
  { left. split; [done|]. intros f pg Hf. lia. }
  destruct (test_walk_cma_spec skip start_pfn end_pfn H0 Hhi _ _ _ _ _ _ _ _ Hinv Hwalk)
    as (_ & _ & _ & [[Hle Hcov]|[Hcov _]] & _); [|done].
  eapply frames_isolated_mono; [|done]. lia.
Qed.

(** C3.  In the content walk, at a valid frame [pfn] below [end_pfn] whose
    page is in the buddy system with order [k] (in a zone whose buddy
    extents end within the frame-number space, and with fuel for the frames
    left).  When its freepage-migratetype hint is not ISOLATE the walk
    produces a result whose first call is
    [move_freepages(zone, page, page + (1<<k) - 1, MIGRATE_ISOLATE)], which
    puts the page on the ISOLATE free list with hint ISOLATE; the rest of
    the result is that of the walk resumed at [pfn + (1<<k)] in the zone the
    mover leaves, and the walk stops at or beyond [pfn + (1<<k)]: it does
    not fail on this frame.  When the hint is ISOLATE the walk produces the
    result of the walk resumed at [pfn + (1<<k)] in the same zone, with no
    call first.  In both cases, when [pfn + (1<<k)] reaches [end_pfn] the
    walk ends there, with no further call, change or store to
    [*pfailed_pfn]. *)
Theorem test_walk_cma_buddy fuel z pfn end_pfn skip failed pg :
  0 <= pfn < end_pfn -> end_pfn < 2 ^ BITS_PER_LONG -> extents_fit z ->
  (Z.to_nat (end_pfn - pfn) <= fuel)%nat ->
  mem_map z !! pfn = Some pg -> PageBuddy pg = true ->
  let nr := 2 ^ Z.of_nat (page_order pg) in
  let end_page := pfn + nr - 1 in
  let z1 := (move_freepages z pfn end_page MIGRATE_ISOLATE).1 in
  (get_freepage_migratetype pg <> MIGRATE_ISOLATE ->
     exists z' log pfn' failed',
       test_walk_cma (S fuel) z pfn end_pfn skip failed
         = Some (z', call_move_freepages pfn end_page MIGRATE_ISOLATE :: log, pfn', failed')
       /\ test_walk_cma fuel z1 (pfn + nr) end_pfn skip failed = Some (z', log, pfn', failed')
       /\ pfn + nr <= pfn'
       /\ (end_pfn <= pfn + nr ->
           z' = z1 /\ log = [] /\ pfn' = pfn + nr /\ failed' = failed)
       /\ exists pg1, mem_map z1 !! pfn = Some pg1
            /\ PageBuddy pg1 = true /\ page_order pg1 = page_order pg
            /\ free_list pg1 = MIGRATE_ISOLATE
            /\ get_freepage_migratetype pg1 = MIGRATE_ISOLATE)
  /\ (get_freepage_migratetype pg = MIGRATE_ISOLATE ->
      exists z' log pfn' failed',
        test_walk_cma (S fuel) z pfn end_pfn skip failed = Some (z', log, pfn', failed')
        /\ test_walk_cma fuel z (pfn + nr) end_pfn skip failed = Some (z', log, pfn', failed')
        /\ pfn + nr <= pfn'
        /\ (end_pfn <= pfn + nr ->
            z' = z /\ log = [] /\ pfn' = pfn + nr /\ failed' = failed)).
Proof.
  intros Hr Hhi Hfit Hfuel Hpg Hb nr end_page z1.
  assert (order_nr_pages pg = nr) as Hnr by apply order_nr_pages_pow2.
  pose proof (order_nr_pages_pos pg) as Hpos.
  pose proof (Hfit pfn pg Hpg Hb) as Hext. rewrite Hnr in Hext, Hpos.
  assert (forall za, pages_agree z za ->
            exists z' log pfn' failed',
              test_walk_cma fuel za (pfn + nr) end_pfn skip failed
                = Some (z', log, pfn', failed')
              /\ pfn + nr <= pfn'
              /\ (end_pfn <= pfn + nr ->
                  z' = za /\ log = [] /\ pfn' = pfn + nr /\ failed' = failed)) as Hcont.
  { intros za Hag.
    assert (extents_fit za) as Hfa by (by eapply extents_fit_pages_agree).
    destruct (test_walk_cma_total skip end_pfn Hhi fuel za (pfn + nr) failed)
      as [[[[z' log] pfn'] failed'] Hw]; [lia|done|lia|].
    exists z', log, pfn', failed'. split; [done|]. split.
    - assert (walk_inv za skip (pfn + nr) end_pfn (pfn + nr)) as Hinv.
      { left. split; [lia|]. intros f p Hf. lia. }
      destruct (test_walk_cma_spec skip (pfn + nr) end_pfn ltac:(lia) Hhi
                  _ _ _ _ _ _ _ _ Hinv Hw) as (Hag' & _ & _ & [[Hle _]|[_ Hwrap]] & _);
        [done|].
      exfalso. apply (extents_fit_no_wrap z'); [|done].
      by eapply extents_fit_pages_agree.
    - intros Hend. destruct fuel as [|fuel]; [lia|].
      rewrite test_walk_cma_step in Hw.
      rewrite (proj2 (Z.ltb_ge _ _)) in Hw by lia. by injection Hw as <- <- <- <-. }
  rewrite test_walk_cma_step, (proj2 (Z.ltb_lt _ _)), Hpg, Hb, Hnr by lia.
  rewrite ulong_small by lia. split.
  - intros Hhint. rewrite decide_True by done. cbv zeta.
    destruct (Hcont z1) as (z' & log & pfn' & failed' & Hw & Hle & Hend);
      [apply move_freepages_pages_agree|].
    exists z', log, pfn', failed'. fold end_page z1. rewrite Hw.
    split; [done|]. split; [done|]. split; [done|]. split; [done|].
    exists (move_page MIGRATE_ISOLATE pg).
    unfold z1, end_page. rewrite move_freepages_lookup, Hpg. simpl. unfold in_extent.
    rewrite (proj2 (Z.leb_le _ _)), (proj2 (Z.leb_le _ _)) by lia.
    split; [done|]. unfold move_page. by rewrite Hb.
  - intros Hhint. rewrite decide_False by (by intros ?).
    destruct (Hcont z) as (z' & log & pfn' & failed' & Hw & Hle & Hend);
      [apply pages_agree_refl|].
    exists z', log, pfn', failed'. by rewrite Hw.
Qed.

(** C4, as amended.  When [test_pages_isolated_cma] (test_range) returns
    BUSY from its content walk (phase 2), [*pfailed_pfn] has been set to
    the frame at which the walk stopped: a valid frame below [end_pfn]
    that is neither in the buddy system, nor refcount-0 with hint ISOLATE,
    nor tolerated as poisoned; where no buddy extent reaches the top of
    the frame-number space this is the first offending frame of the range
    (every valid frame of the range before it is accepted).  When it
    returns BUSY from the label check (phase 1: a present pageblock whose
    label is not ISOLATE, or no valid page in the range) it has not
    written [*pfailed_pfn], which still holds what it held at the call. *)
Theorem test_range_busy_failed_pfn fuel z start_pfn end_pfn skip failed failed' z' log :
  0 <= start_pfn -> end_pfn < 2 ^ BITS_PER_LONG ->
  test_pages_isolated_cma fuel z start_pfn end_pfn skip failed
    = Returns (- EBUSY, failed') z' log ->
  ((exists pfn, check_pageblocks fuel z start_pfn end_pfn = Some pfn
       /\ ((pfn < end_pfn
            /\ exists pg, __first_valid_page z pfn pageblock_nr_pages = Some pg
                          /\ get_pageblock_migratetype z pg <> MIGRATE_ISOLATE)
           \/ __first_valid_page z start_pfn (ulong (end_pfn - start_pfn)) = None))
   /\ failed' = failed /\ z' = z /\ log = [])
  \/
  ((exists pfn, check_pageblocks fuel z start_pfn end_pfn = Some pfn /\ end_pfn <= pfn)
   /\ is_Some (__first_valid_page z start_pfn (ulong (end_pfn - start_pfn)))
   /\ failed' < end_pfn
   /\ (exists pg, mem_map z' !! failed' = Some pg /\ frame_offending skip pg)
   /\ (extents_fit z ->
       start_pfn <= failed' /\ frames_isolated z' skip start_pfn failed')).
Proof.
  intros H0 Hhi. unfold test_pages_isolated_cma.
  destruct (check_pageblocks fuel z start_pfn end_pfn) as [pfn|] eqn:Hchk; [|done].
  destruct (Z.ltb_spec pfn end_pfn) as [Hlt|Hge]; simpl.
  { intros [= <- <- <-]. left. split; [|done]. exists pfn. split; [done|]. left.
    split; [done|]. by eapply check_pageblocks_stop. }
  case_bool_decide as Hnone.
  { intros [= <- <- <-]. left. split; [|done]. exists pfn. split; [done|]. by right. }
  unfold __test_page_isolated_in_pageblock_cma.
  destruct (test_walk_cma fuel z start_pfn end_pfn skip failed)
    as [[[[z1 log1] p1] f1]|] eqn:Hwalk; [|done].
  simpl. destruct (Z.ltb_spec p1 end_pfn) as [Hlt|Hge']; [|by intros [=]].
  simpl. intros [= <- <- <-]. right.
  assert (walk_inv z skip start_pfn end_pfn start_pfn) as Hinv.
  { left. split; [done|]. intros f pg Hf. lia. }
  destruct (test_walk_cma_spec skip start_pfn end_pfn H0 Hhi _ _ _ _ _ _ _ _ Hinv Hwalk)
    as (Hag & _ & _ & Hinv' & [[Hle _]|(_ & -> & Hoff)]); [lia|].
  split; [by exists pfn|].
  split; [by destruct (__first_valid_page _ _ _)|].
  split; [done|]. split; [done|].
  intros Hfit. destruct Hinv' as [?|[_ Hw]]; [done|].
  exfalso. eapply extents_fit_no_wrap; [|done].
  by eapply extents_fit_pages_agree.
Qed.

(** A pageblock that meets an aligned range lies inside it. *)
Lemma pageblock_in_range s e q f :
  aligned s -> aligned e -> s <= q < e ->
  pageblock_nr f = pageblock_nr q -> s <= f < e.
Proof.
  intros Hs%aligned_mul He%aligned_mul Hq Hf.
  pose proof pageblock_nr_pages_pos as HB.
  pose proof (pageblock_nr_bounds q) as Hbq.
  pose proof (pageblock_nr_bounds f) as Hbf. rewrite Hf in Hbf.
  assert (pageblock_nr s <= pageblock_nr q) as H1 by nia.
  assert (pageblock_nr q + 1 <= pageblock_nr e) as H2 by nia.
  assert (pageblock_nr_pages * pageblock_nr s <= pageblock_nr_pages * pageblock_nr q)
    by (apply Z.mul_le_mono_nonneg_l; lia).
  assert (pageblock_nr_pages * (pageblock_nr q + 1) <= pageblock_nr_pages * pageblock_nr e)
    by (apply Z.mul_le_mono_nonneg_l; lia).
  lia.
Qed.

(** C5, as amended.  On an aligned range all of whose frames are absent,
    the empty range [start_pfn = end_pfn] included, isolate_range and
    undo_range return 0, change nothing and call nothing; test_range
    changes nothing either, and leaves [*pfailed_pfn] alone, but it
    returns BUSY, not 0, because the range has no valid page. *)
Theorem absent_range_noop fuel z start_pfn end_pfn mt skip failed :
  0 <= start_pfn <= end_pfn -> end_pfn < 2 ^ BITS_PER_LONG ->
  aligned start_pfn -> aligned end_pfn ->
  enough_fuel fuel start_pfn end_pfn ->
  (forall f, start_pfn <= f < end_pfn -> mem_map z !! f = None) ->
  start_isolate_page_range_cma fuel z start_pfn end_pfn mt skip = Returns 0 z []
  /\ undo_isolate_page_range_cma fuel z start_pfn end_pfn mt = Returns 0 z []
  /\ test_pages_isolated_cma fuel z start_pfn end_pfn skip failed
     = Returns (- EBUSY, failed) z [].
Proof.
  intros H0 Hhi Hs He Hfuel Habs.
  unfold start_isolate_page_range_cma, undo_isolate_page_range_cma,
    test_pages_isolated_cma.
  apply misaligned_false in Hs as Hs', He as He'. rewrite Hs', He'.
  rewrite isolate_pageblocks_absent by (done || lia).
  rewrite undo_pageblocks_noop; try (done || lia).
  2:{ intros q Hq (f & Hf & Hv). exfalso.
      rewrite Habs in Hv; [by destruct Hv|].
      by eapply pageblock_in_range. }
  split; [done|]. split; [done|].
  destruct (check_pageblocks_total end_pfn He Hhi fuel z start_pfn Hs ltac:(lia) Hfuel)
    as [pfn ->].
  rewrite first_valid_page_absent.
  - rewrite bool_decide_eq_true_2 by done. by rewrite orb_true_r.
  - lia.
  - rewrite ulong_small by lia. lia.
  - intros f Hf. apply Habs. rewrite ulong_small in Hf by lia. lia.
Qed.

(** *** The legacy verifier *)

(** One iteration of the legacy walk. *)
Lemma test_walk_step fuel z pfn end_pfn :
  test_walk (S fuel) z pfn end_pfn =
  if pfn <? end_pfn then
    match mem_map z !! pfn with
    | None => test_walk fuel z (ulong (pfn + 1)) end_pfn
    | Some pg =>
        if PageBuddy pg then test_walk fuel z (ulong (pfn + order_nr_pages pg)) end_pfn
        else if bool_decide (page_count pg = 0)
                && bool_decide (page_private pg = migratetype_val MIGRATE_ISOLATE) then
          test_walk fuel z (ulong (pfn + 1)) end_pfn
        else Some (z, [], pfn)
    end
  else Some (z, [], pfn).
Proof. done. Qed.

(** The legacy walk changes nothing and calls nothing. *)
Lemma test_walk_pure end_pfn : forall fuel z pfn z' log pfn',
  test_walk fuel z pfn end_pfn = Some (z', log, pfn') -> z' = z /\ log = [].
Proof.
  induction fuel as [|fuel IH]; intros z pfn z' log pfn'; [done|]. simpl.
  destruct (pfn <? end_pfn); [|by intros [= <- <- <-]].
  destruct (mem_map z !! pfn) as [pg|]; [|by apply IH].
  destruct (PageBuddy pg); [by apply IH|].
  destruct (_ && _); [by apply IH|by intros [= <- <- <-]].
Qed.

(** The two walks side by side, along any set [I] of frame numbers that
    the walk does not leave and whose pages are comparable. *)
Lemma test_walk_cma_legacy_inv z end_pfn failed (I : Z -> Prop) :
  (forall pfn, I pfn -> pfn < end_pfn -> I (ulong (pfn + 1))) ->
  (forall pfn pg, I pfn -> pfn < end_pfn -> mem_map z !! pfn = Some pg ->
     comparable_page pg
     /\ (PageBuddy pg = true -> I (ulong (pfn + order_nr_pages pg)))) ->
  forall fuel pfn, I pfn ->
  test_walk_cma fuel z pfn end_pfn false failed =
  (fun '(z', log, pfn') => (z', log, pfn', if pfn' <? end_pfn then pfn' else failed))
    <$> test_walk fuel z pfn end_pfn.
Proof.
  intros Hnext Hpage. induction fuel as [|fuel IH]; intros pfn Hin; [done|].
  rewrite test_walk_cma_step, test_walk_step.
  destruct (Z.ltb_spec pfn end_pfn) as [Hlt|Hge].
  2:{ simpl. by rewrite (proj2 (Z.ltb_ge _ _)) by done. }
  destruct (mem_map z !! pfn) as [pg|] eqn:Hpg; [|by apply IH, Hnext].
  destruct (Hpage pfn pg Hin Hlt Hpg) as ((Hpoison & Hbuddy & Hpriv) & Hext).
  destruct (PageBuddy pg) eqn:Hb.
  - rewrite decide_False by (intros Hne; by apply Hne, Hbuddy).
    by apply IH, Hext.
  - assert (bool_decide (page_private pg = migratetype_val MIGRATE_ISOLATE)
            = bool_decide (get_freepage_migratetype pg = MIGRATE_ISOLATE)
            \/ bool_decide (page_count pg = 0) = false) as Heq.
    { destruct (decide (page_count pg = 0)) as [Hc|Hc];
        [left|right; by apply bool_decide_eq_false].
      apply bool_decide_ext. rewrite (Hpriv eq_refl Hc). split; [|by intros ->].
      apply migratetype_val_inj. }
    assert (bool_decide (page_count pg = 0)
              && bool_decide (page_private pg = migratetype_val MIGRATE_ISOLATE)
            = bool_decide (page_count pg = 0)
              && bool_decide (get_freepage_migratetype pg = MIGRATE_ISOLATE)) as ->.
    { destruct Heq as [->| ->]; done. }
    destruct (_ && _).
    + by apply IH, Hnext.
    + simpl. by rewrite (proj2 (Z.ltb_lt _ _)) by done.
Qed.

Lemma test_walk_cma_legacy z start_pfn end_pfn failed :
  0 <= start_pfn -> end_pfn < 2 ^ BITS_PER_LONG ->
  legacy_comparable z start_pfn end_pfn \/ zone_comparable z ->
  forall fuel,
  test_walk_cma fuel z start_pfn end_pfn false failed =
  (fun '(z', log, pfn') => (z', log, pfn', if pfn' <? end_pfn then pfn' else failed))
    <$> test_walk fuel z start_pfn end_pfn.
Proof.
  intros H0 Hhi [Hcmp|Hcmp] fuel.
  - apply (test_walk_cma_legacy_inv z end_pfn failed (fun pfn => start_pfn <= pfn));
      [| |lia].
    + intros pfn Hle Hlt. rewrite ulong_small by lia. lia.
    + intros pfn pg Hle Hlt Hpg.
      destruct (Hcmp pfn pg ltac:(lia) Hpg) as [Hc Hfit]. split; [done|].
      intros Hb. pose proof (order_nr_pages_pos pg). specialize (Hfit Hb).
      rewrite ulong_small by lia. lia.
  - apply (test_walk_cma_legacy_inv z end_pfn failed (fun _ => True)); [done| |done].
    intros pfn pg _ _ Hpg. split; [by eapply Hcmp|done].
Qed.

(** C9.  The legacy verifier ([__test_page_isolated_in_pageblock]) never
    repairs: whatever it returns, the zone is the one it was given and no
    call of the free-list mover was made.  It tests
    [page_private(page) == MIGRATE_ISOLATE] where the repairing verifier
    tests [get_freepage_migratetype(page) == MIGRATE_ISOLATE]; so on every
    range state with no hardware-poisoned page and no buddy extent with a
    non-ISOLATE hint, in which each refcount-0 page's private field equals
    its freepage migratetype, the legacy verifier and the repairing
    verifier with skip-poisoned false return the same verdict.  The range
    state is either the pages of the range, its buddy extents ending below
    the top of the frame-number space, or the pages of the whole zone. *)
Theorem legacy_verifier_same_verdict z start_pfn end_pfn :
  (forall fuel z0 pfn e ret z' log,
     __test_page_isolated_in_pageblock fuel z0 pfn e = Some (ret, z', log) ->
     z' = z0 /\ log = [])
  /\ (0 <= start_pfn -> end_pfn < 2 ^ BITS_PER_LONG ->
      legacy_comparable z start_pfn end_pfn \/ zone_comparable z ->
      forall fuel failed,
        __test_page_isolated_in_pageblock fuel z start_pfn end_pfn =
          (fun '(ret, z', log, _) => (ret, z', log))
            <$> __test_page_isolated_in_pageblock_cma fuel z start_pfn end_pfn false failed
        /\ test_pages_isolated fuel z start_pfn end_pfn =
           drop_failed (test_pages_isolated_cma fuel z start_pfn end_pfn false failed)).
Proof.
  split.
  - intros fuel z0 pfn e ret z' log. unfold __test_page_isolated_in_pageblock.
    destruct (test_walk fuel z0 pfn e) as [[[z1 log1] p1]|] eqn:Hwalk; [|done].
    simpl. intros [= <- <- <-]. by eapply test_walk_pure.
  - intros H0 Hhi Hcmp fuel failed.
    assert (__test_page_isolated_in_pageblock fuel z start_pfn end_pfn =
            (fun '(ret, z', log, _) => (ret, z', log))
              <$> __test_page_isolated_in_pageblock_cma fuel z start_pfn end_pfn
                    false failed) as Hinner.
    { unfold __test_page_isolated_in_pageblock, __test_page_isolated_in_pageblock_cma.
      rewrite (test_walk_cma_legacy z start_pfn end_pfn failed H0 Hhi Hcmp).
      by destruct (test_walk fuel z start_pfn end_pfn) as [[[z1 log1] p1]|]. }
    split; [done|].
    unfold test_pages_isolated, test_pages_isolated_cma.
    destruct (check_pageblocks fuel z start_pfn end_pfn) as [pfn|]; [|done].
    destruct (_ || _); [done|]. rewrite Hinner.
    by destruct (__test_page_isolated_in_pageblock_cma _ _ _ _ _ _)
      as [[[[ret z1] log1] f1]|].
Qed.

(** *** More on the first valid page *)

Lemma first_valid_scan_lowest z pfn n : forall i pg,
  first_valid_scan z pfn i n = Some pg ->
  exists j, i <= j < i + Z.of_nat n /\ pg = ulong (pfn + j)
            /\ forall k, i <= k < j -> mem_map z !! ulong (pfn + k) = None.
Proof.
  induction n as [|n IH]; intros i pg; simpl; [done|].
  unfold pfn_valid_within. case_bool_decide as Hv.
  - intros [= <-]. exists i. split; [lia|]. split; [done|]. intros k Hk. lia.
  - intros (j & Hj & -> & Hlow)%IH. exists j. split; [lia|]. split; [done|].
    intros k Hk. destruct (decide (k = i)) as [->|Hne].
    + by apply eq_None_not_Some.
    + apply Hlow. lia.
Qed.

(** [__first_valid_page] returns the lowest valid frame of
    [pfn, pfn + nr_pages), and NULL exactly when the range has none. *)
Theorem first_valid_page_lowest z pfn nr :
  0 <= pfn -> pfn + nr <= 2 ^ BITS_PER_LONG ->
  match __first_valid_page z pfn nr with
  | Some pg =>
      pfn <= pg < pfn + nr /\ is_Some (mem_map z !! pg)
      /\ forall f, pfn <= f < pg -> mem_map z !! f = None
  | None => forall f, pfn <= f < pfn + nr -> mem_map z !! f = None
  end.
Proof.
  intros H0 Hhi. unfold __first_valid_page.
  destruct (first_valid_scan z pfn 0 (Z.to_nat nr)) as [pg|] eqn:Hscan.
  - pose proof Hscan as (j & Hj & -> & Hv)%first_valid_scan_Some.
    apply first_valid_scan_lowest in Hscan as (j' & Hj' & Heq & Hlow).
    assert (0 <= j < nr /\ 0 <= j' < nr) as [Hjr Hjr'] by lia.
    rewrite (ulong_small (pfn + j)) in * by lia.
    rewrite (ulong_small (pfn + j')) in Heq by lia.
    assert (j' = j) as -> by lia.
    split; [lia|]. split; [done|]. intros f Hf.
    specialize (Hlow (f - pfn) ltac:(lia)).
    rewrite ulong_small in Hlow by lia.
    by replace (pfn + (f - pfn)) with f in Hlow by lia.
  - intros f Hf.
    pose proof (first_valid_scan_None _ _ _ _ Hscan (f - pfn) ltac:(lia)) as Hn.
    rewrite ulong_small in Hn by lia.
    by replace (pfn + (f - pfn)) with f in Hn by lia.
Qed.

(** *** Page records under the range operations *)

Lemma pages_agree_of_lookup z z' (g : Z -> page -> page) :
  (forall f, mem_map z' !! f = g f <$> mem_map z !! f) ->
  (forall f pg, g f pg = pg \/ exists mt, g f pg = move_page mt pg) ->
  pages_agree z z'.
Proof.
  intros Hlook Hg f. rewrite Hlook.
  destruct (mem_map z !! f) as [pg|]; [simpl|done].
  destruct (Hg f pg) as [->|[mt ->]]; [done|apply move_page_fields].
Qed.

Lemma unset_migratetype_isolate_cma_pages_agree z pg mt :
  pages_agree z (unset_migratetype_isolate_cma z pg mt).
Proof.
  apply (pages_agree_of_lookup _ _
           (fun f p => if bool_decide (pageblock_nr f = pageblock_nr pg
                                       /\ get_pageblock_migratetype z pg = MIGRATE_ISOLATE)
                       then move_page mt p else p));
    [apply unset_migratetype_isolate_cma_lookup|].
  intros f p. simpl. case_bool_decide; [right; by exists mt|by left].
Qed.

Lemma set_migratetype_isolate_cma_pages_agree z pg skip :
  pages_agree z (set_migratetype_isolate_cma z pg skip).1.
Proof.
  destruct (set_migratetype_isolate_cma_ret z pg skip) as [H0|Hb].
  - apply (pages_agree_of_lookup _ _
             (fun f p => if bool_decide (pageblock_nr f = pageblock_nr pg)
                         then move_page MIGRATE_ISOLATE p else p));
      [intros f; by apply set_migratetype_isolate_cma_lookup|].
    intros f p. simpl. case_bool_decide; [right; by eexists|by left].
  - rewrite set_migratetype_isolate_cma_busy; [apply pages_agree_refl|].
    rewrite Hb. by compute.
Qed.

Lemma isolate_pageblocks_pages_agree skip end_pfn : forall fuel z pfn z1 log1 r,
  isolate_pageblocks fuel z pfn end_pfn skip = Some (z1, log1, r) -> pages_agree z z1.
Proof.
  induction fuel as [|fuel IH]; intros z pfn z1 log1 r; [done|]. simpl.
  destruct (pfn <? end_pfn); [|intros [= <- <- <-]; apply pages_agree_refl].
  destruct (__first_valid_page z pfn pageblock_nr_pages) as [pg|]; [|by apply IH].
  pose proof (set_migratetype_isolate_cma_pages_agree z pg skip) as Hag.
  destruct (set_migratetype_isolate_cma z pg skip) as [za ret]. simpl in Hag.
  case_decide; [by intros [= <- <- <-]|].
  destruct (isolate_pageblocks fuel za _ end_pfn skip) as [[[z2 log2] r2]|] eqn:Hrec;
    [|done].
  simpl. intros [= <- <- <-]. eapply pages_agree_trans; [done|by eapply IH].
Qed.

Lemma rollback_pageblocks_pages_agree mt undo_pfn : forall fuel z pfn z' log,
  rollback_pageblocks fuel z pfn undo_pfn mt = Some (z', log) -> pages_agree z z'.
Proof.
  induction fuel as [|fuel IH]; intros z pfn z' log; [done|]. simpl.
  destruct (pfn <? undo_pfn); [|intros [= <- <-]; apply pages_agree_refl].
  destruct (rollback_pageblocks fuel _ _ undo_pfn mt) as [[z2 log2]|] eqn:Hrec; [|done].
  simpl. intros [= <- <-].
  eapply pages_agree_trans; [apply unset_migratetype_isolate_cma_pages_agree|by eapply IH].
Qed.

Lemma undo_pageblocks_pages_agree mt end_pfn : forall fuel z pfn z' log,
  undo_pageblocks fuel z pfn end_pfn mt = Some (z', log) -> pages_agree z z'.
Proof.
  induction fuel as [|fuel IH]; intros z pfn z' log; [done|]. simpl.
  destruct (pfn <? end_pfn); [|intros [= <- <-]; apply pages_agree_refl].
  destruct (__first_valid_page z pfn pageblock_nr_pages) as [pg|]; [|by apply IH].
  case_decide; [by apply IH|].
  destruct (undo_pageblocks fuel _ _ end_pfn mt) as [[z2 log2]|] eqn:Hrec; [|done].
  simpl. intros [= <- <-].
  eapply pages_agree_trans; [apply unset_migratetype_isolate_cma_pages_agree|by eapply IH].
Qed.

(** Whatever they return, the three range operations leave every frame
    valid or absent as it was, and every page with its refcount, its private
    field, its buddy flag, its order and its poison flag: they change
    nothing of a page but the free list it is on and its hint. *)
Theorem range_operations_pages_agree fuel z start_pfn end_pfn mt skip failed :
  (forall ret z' log,
     start_isolate_page_range_cma fuel z start_pfn end_pfn mt skip = Returns ret z' log ->
     pages_agree z z')
  /\ (forall ret z' log,
        undo_isolate_page_range_cma fuel z start_pfn end_pfn mt = Returns ret z' log ->
        pages_agree z z')
  /\ (forall ret z' log,
        test_pages_isolated_cma fuel z start_pfn end_pfn skip failed = Returns ret z' log ->
        pages_agree z z').
Proof.
  split; [|split]; intros ret z' log.
  - unfold start_isolate_page_range_cma.
    destruct (misaligned start_pfn); [done|]. destruct (misaligned end_pfn); [done|].
    destruct (isolate_pageblocks fuel z start_pfn end_pfn skip)
      as [[[z1 log1] r]|] eqn:Hfw; [|done].
    apply isolate_pageblocks_pages_agree in Hfw.
    destruct r as [u|]; [|by intros [= <- <- <-]].
    destruct (rollback_pageblocks fuel z1 start_pfn u mt) as [[z2 log2]|] eqn:Hrb; [|done].
    intros [= <- <- <-]. eapply pages_agree_trans; [done|].
    by eapply rollback_pageblocks_pages_agree.
  - unfold undo_isolate_page_range_cma.
    destruct (misaligned start_pfn); [done|]. destruct (misaligned end_pfn); [done|].
    destruct (undo_pageblocks fuel z start_pfn end_pfn mt) as [[z1 log1]|] eqn:Hun; [|done].
    intros [= <- <- <-]. by eapply undo_pageblocks_pages_agree.
  - unfold test_pages_isolated_cma.
    destruct (check_pageblocks fuel z start_pfn end_pfn) as [pfn|]; [|done].
    destruct (_ || _); [intros [= <- <- <-]; apply pages_agree_refl|].
    unfold __test_page_isolated_in_pageblock_cma.
    destruct (test_walk_cma fuel z start_pfn end_pfn skip failed)
      as [[[[z1 log1] p1] f1]|] eqn:Hwalk; [|done].
    simpl. intros [= <- <- <-]. revert Hwalk. clear.
    revert z p1 f1 log1 z1 start_pfn failed.
    induction fuel as [|fuel IH]; intros z p1 f1 log1 z1 pfn failed; [done|].
    rewrite test_walk_cma_step.
    destruct (pfn <? end_pfn); [|intros [= <- <- <- <-]; apply pages_agree_refl].
    destruct (mem_map z !! pfn) as [pg|]; [|by apply IH].
    destruct (PageBuddy pg).
    + case_decide; [|by apply IH]. cbv zeta.
      destruct (test_walk_cma fuel _ _ end_pfn skip failed)
        as [[[[z2 log2] p2] f2]|] eqn:Hrec; [|done].
      simpl. intros [= <- <- <- <-].
      eapply pages_agree_trans; [apply move_freepages_pages_agree|by eapply IH].
    + destruct (_ && _); [by apply IH|].
      destruct (_ && _); [by apply IH|].
      intros [= <- <- <- <-]. apply pages_agree_refl.
Qed.

(** *** The calls and the pages of the range driver *)

Lemma omap_ext_elem {A B} (f g : A -> option B) (l : list A) :
  (forall x, x ∈ l -> f x = g x) -> omap f l = omap g l.
Proof.
  clear. induction l as [|x l IH]; intros Hfg; [done|]. csimpl.
  rewrite (Hfg x) by (apply elem_of_cons; by left).
  rewrite IH; [done|]. intros y Hy. apply Hfg. apply elem_of_cons; by right.
Qed.

Lemma forward_stop_le pfn end_pfn r :
  pfn <= forward_stop pfn end_pfn r ->
  (is_Some r -> forward_stop pfn end_pfn r < end_pfn) ->
  pageblocks_between pfn (forward_stop pfn end_pfn r) =
  match r with Some u => pageblocks_between pfn u | None => pageblocks_between pfn end_pfn end.
Proof.
  destruct r as [u|]; simpl; [done|]. intros _ _.
  destruct (Z.le_gt_cases end_pfn pfn) as [Hle|Hlt].
  - rewrite Z.max_l by lia. by rewrite !pageblocks_between_nil by lia.
  - by rewrite Z.max_r by lia.
Qed.

(** The forward pass in full: the pages it moves and the calls it makes. *)
Lemma isolate_pageblocks_detail skip end_pfn :
  aligned end_pfn -> end_pfn < 2 ^ BITS_PER_LONG ->
  forall fuel z pfn z1 log1 r,
  aligned pfn -> 0 <= pfn ->
  isolate_pageblocks fuel z pfn end_pfn skip = Some (z1, log1, r) ->
  let hi := forward_stop pfn end_pfn r in
  (forall f, mem_map z1 !! f =
             (fun p => if decide (pfn <= f < hi) then move_page MIGRATE_ISOLATE p else p)
               <$> mem_map z !! f)
  /\ log1 = (fun pg => call_set_migratetype_isolate_cma pg skip)
              <$> omap (fun p => __first_valid_page z p pageblock_nr_pages)
                       (pageblocks_between pfn
                          (match r with Some u => u + pageblock_nr_pages | None => hi end)).
Proof.
  intros He Hhi. pose proof pageblock_nr_pages_pos as HB.
  induction fuel as [|fuel IH]; intros z pfn z1 log1 r Hp H0 Hrun; [done|].
  pose proof (isolate_pageblocks_spec skip end_pfn He Hhi _ _ _ _ _ _ Hp H0 Hrun)
    as ((Hh1 & Hh2 & Hh3) & _).
  revert Hrun. simpl.
  destruct (Z.ltb_spec pfn end_pfn) as [Hlt|Hge].
  2:{ intros [= <- <- <-]. simpl. rewrite Z.max_l by lia. split.
      - intros f. destruct (mem_map z !! f); [simpl|done]. by rewrite decide_False by lia.
      - by rewrite pageblocks_between_nil by lia. }
  destruct (next_pageblock _ _ Hp He H0 Hhi Hlt) as [Hnext Hle]. rewrite Hnext.
  assert (forall q, pageblock_nr pfn = pageblock_nr q <-> pfn <= q < pfn + pageblock_nr_pages)
    as Hblk.
  { intros q. rewrite <- (same_pageblock pfn q Hp). split; congruence. }
  destruct (__first_valid_page z pfn pageblock_nr_pages) as [pg|] eqn:Hfv.
  - pose proof Hfv as Hfv0.
    apply first_valid_page_Some in Hfv as [Hpg Hv]; [|done|done|lia].
    destruct (set_migratetype_isolate_cma z pg skip) as [za ret] eqn:Hset.
    assert (za = (set_migratetype_isolate_cma z pg skip).1) as Hza1 by (by rewrite Hset).
    assert (ret = (set_migratetype_isolate_cma z pg skip).2) as Hret by (by rewrite Hset).
    case_decide as Hfail.
    + intros [= <- <- <-]. simpl.
      rewrite Hza1, set_migratetype_isolate_cma_busy by congruence. split.
      * intros f. destruct (mem_map z !! f); [simpl|done]. by rewrite decide_False by lia.
      * rewrite (pageblocks_between_step pfn) by (done || by apply aligned_add || lia).
        rewrite (pageblocks_between_nil (pfn + pageblock_nr_pages)) by lia.
        csimpl. by rewrite Hfv0.
    + assert ((set_migratetype_isolate_cma z pg skip).2 = 0) as Hok by lia.
      pose proof (set_migratetype_isolate_cma_same_frames z pg skip) as Hsfa.
      rewrite <- Hza1 in Hsfa.
      destruct (isolate_pageblocks fuel za _ end_pfn skip) as [[[z2 log2] r2]|] eqn:Hrec;
        [|done].
      simpl. intros [= <- <- <-].
      destruct (IH _ _ _ _ _ (aligned_add _ Hp) ltac:(lia) Hrec) as [Hpages Hlog].
      pose proof (isolate_pageblocks_spec skip end_pfn He Hhi _ _ _ _ _ _
                    (aligned_add _ Hp) ltac:(lia) Hrec) as ((Hr1 & Hr2 & Hr3) & _).
      assert (forward_stop pfn end_pfn r2
              = forward_stop (pfn + pageblock_nr_pages) end_pfn r2) as Hstop.
      { unfold forward_stop in *. destruct r2; lia. }
      rewrite Hstop. cbv zeta in Hpages, Hlog.
      set (hi := forward_stop (pfn + pageblock_nr_pages) end_pfn r2) in *.
      split.
      * intros f. rewrite Hpages, Hza1, set_migratetype_isolate_cma_lookup by done.
        rewrite Hpg. destruct (mem_map z !! f) as [p|]; [simpl|done].
        case_bool_decide as Hc.
        -- symmetry in Hc. apply Hblk in Hc.
           rewrite decide_False by lia. by rewrite decide_True by lia.
        -- assert (~ pfn <= f < pfn + pageblock_nr_pages) as Hnb.
           { intros Hin. apply Hc. symmetry. by apply Hblk. }
           destruct (decide (pfn + pageblock_nr_pages <= f < hi)).
           ++ by rewrite decide_True by lia.
           ++ by rewrite decide_False by lia.
      * assert (aligned (match r2 with Some u => u + pageblock_nr_pages | None => hi end)
                /\ pfn < match r2 with Some u => u + pageblock_nr_pages | None => hi end)
          as [Hal Hlt'].
        { unfold hi, forward_stop in *. destruct r2; simpl in *.
          - split; [by apply aligned_add|lia].
          - split; [done|lia]. }
        rewrite (pageblocks_between_step pfn) by done. csimpl. rewrite Hfv0. csimpl.
        f_equal. rewrite Hlog. f_equal. apply omap_ext_elem.
        intros x _. by apply first_valid_page_same_frames.
  - intros Hrec.
    destruct (IH _ _ _ _ _ (aligned_add _ Hp) ltac:(lia) Hrec) as [Hpages Hlog].
    pose proof (isolate_pageblocks_spec skip end_pfn He Hhi _ _ _ _ _ _
                  (aligned_add _ Hp) ltac:(lia) Hrec) as ((Hr1 & Hr2 & Hr3) & _).
    assert (forward_stop pfn end_pfn r
            = forward_stop (pfn + pageblock_nr_pages) end_pfn r) as Hstop.
    { unfold forward_stop in *. destruct r; lia. }
    rewrite Hstop. cbv zeta in Hpages, Hlog.
    set (hi := forward_stop (pfn + pageblock_nr_pages) end_pfn r) in *.
    pose proof (first_valid_page_None z pfn Hp H0 ltac:(lia) Hfv) as Habs.
    split.
    * intros f. rewrite Hpages. destruct (mem_map z !! f) as [p|] eqn:Hf; [simpl|done].
      assert (~ pfn <= f < pfn + pageblock_nr_pages) as Hnb.
      { intros Hin. apply Habs. exists f. split; [symmetry; by apply Hblk|by rewrite Hf]. }
      destruct (decide (pfn + pageblock_nr_pages <= f < hi)).
      -- by rewrite decide_True by lia.
      -- by rewrite decide_False by lia.
    * assert (aligned (match r with Some u => u + pageblock_nr_pages | None => hi end)
              /\ pfn < match r with Some u => u + pageblock_nr_pages | None => hi end)
        as [Hal Hlt'].
      { unfold hi, forward_stop in *. destruct r; simpl in *.
        - split; [by apply aligned_add|lia].
        - split; [done|lia]. }
      rewrite (pageblocks_between_step pfn) by done. csimpl. by rewrite Hfv.
Qed.

(** Success of isolate_range: every pageblock of the range that has a
    valid frame is labelled ISOLATE and all its free pages are on the
    ISOLATE free list with hint ISOLATE; the labels of the other pageblocks
    and the pages outside the range are as they were; and the calls made
    are one [set_migratetype_isolate_cma] per pageblock that has a valid
    frame, in order, on its first valid page. *)
Theorem isolate_range_success fuel z start_pfn end_pfn mt skip z1 log1 :
  0 <= start_pfn -> end_pfn < 2 ^ BITS_PER_LONG ->
  start_isolate_page_range_cma fuel z start_pfn end_pfn mt skip = Returns 0 z1 log1 ->
  (forall q, start_pfn <= q < end_pfn -> pageblock_valid z q ->
             get_pageblock_migratetype z1 q = MIGRATE_ISOLATE)
  /\ (forall q, ~ (start_pfn <= q < end_pfn /\ pageblock_valid z q) ->
                get_pageblock_migratetype z1 q = get_pageblock_migratetype z q)
  /\ (forall f pg, start_pfn <= f < end_pfn -> mem_map z1 !! f = Some pg ->
                   PageBuddy pg = true ->
                   free_list pg = MIGRATE_ISOLATE
                   /\ get_freepage_migratetype pg = MIGRATE_ISOLATE)
  /\ (forall f, ~ start_pfn <= f < end_pfn -> mem_map z1 !! f = mem_map z !! f)
  /\ log1 = (fun pg => call_set_migratetype_isolate_cma pg skip)
              <$> omap (fun p => __first_valid_page z p pageblock_nr_pages)
                       (pageblocks_between start_pfn end_pfn).
Proof.
  intros H0 Hhi (Hs & He & Hfw)%start_isolate_ok_inv.
  destruct (isolate_pageblocks_spec skip end_pfn He Hhi _ _ _ _ _ _ Hs H0 Hfw)
    as (_ & _ & _ & Hl1 & Hl2 & _).
  destruct (isolate_pageblocks_detail skip end_pfn He Hhi _ _ _ _ _ _ Hs H0 Hfw)
    as [Hpages Hlog].
  simpl in Hl1, Hl2, Hpages, Hlog.
  split; [|split; [|split; [|split]]].
  - intros q Hq Hv. apply Hl2; [lia|done].
  - intros q Hq. destruct (Hl1 q) as [?|(Hr & Hv & _)]; [done|].
    exfalso. apply Hq. split; [lia|done].
  - intros f pg Hf Hpg Hb. rewrite Hpages in Hpg.
    destruct (mem_map z !! f) as [p|]; [|done]. simpl in Hpg.
    rewrite decide_True in Hpg by lia. injection Hpg as <-.
    apply move_page_free_list. by rewrite move_page_buddy in Hb.
  - intros f Hf. rewrite Hpages. destruct (mem_map z !! f); [simpl|done].
    by rewrite decide_False by lia.
  - rewrite Hlog. destruct (Z.le_gt_cases end_pfn start_pfn) as [Hle|Hlt].
    + rewrite Z.max_l by lia. by rewrite !pageblocks_between_nil by lia.
    + by rewrite Z.max_r by lia.
Qed.

(** The calls of the undo loop: one [unset_migratetype_isolate_cma] per
    pageblock that has a valid frame and is labelled ISOLATE, on its first
    valid page. *)
Lemma undo_pageblocks_log mt end_pfn :
  aligned end_pfn -> end_pfn < 2 ^ BITS_PER_LONG ->
  forall fuel z pfn z' log,
  aligned pfn -> 0 <= pfn ->
  undo_pageblocks fuel z pfn end_pfn mt = Some (z', log) ->
  log = (fun pg => call_unset_migratetype_isolate_cma pg mt)
          <$> omap (isolated_first_page z) (pageblocks_between pfn end_pfn).
Proof.
  intros He Hhi. pose proof pageblock_nr_pages_pos as HB.
  induction fuel as [|fuel IH]; intros z pfn z' log Hp H0; [done|]. simpl.
  destruct (Z.ltb_spec pfn end_pfn) as [Hlt|Hge].
  2:{ intros [= <- <-]. by rewrite pageblocks_between_nil by lia. }
  destruct (next_pageblock _ _ Hp He H0 Hhi Hlt) as [Hnext Hle]. rewrite Hnext.
  rewrite (pageblocks_between_step pfn) by done. csimpl.
  unfold isolated_first_page at 1.
  destruct (__first_valid_page z pfn pageblock_nr_pages) as [pg|] eqn:Hfv;
    [|by apply IH; [apply aligned_add|lia]].
  apply first_valid_page_Some in Hfv as [Hpg Hv]; [|done|done|lia].
  case_decide as Hiso.
  - rewrite decide_False by done. apply IH; [by apply aligned_add|lia].
  - rewrite decide_True by done.
    destruct (undo_pageblocks fuel _ _ end_pfn mt) as [[z2 log2]|] eqn:Hrec; [|done].
    simpl. intros [= <- <-]. f_equal.
    rewrite (IH _ _ _ _ (aligned_add _ Hp) ltac:(lia) Hrec). f_equal.
    apply omap_ext_elem. intros p Hin.
    apply elem_of_pageblocks_between in Hin as [Hpal Hpr]; [|by apply aligned_add|done].
    unfold isolated_first_page.
    rewrite (first_valid_page_same_frames z _ p pageblock_nr_pages
               (unset_migratetype_isolate_cma_same_frames z pg mt)).
    destruct (__first_valid_page z p pageblock_nr_pages) as [pg'|] eqn:Hfv'; [|done].
    pose proof (aligned_lt_step p end_pfn Hpal He ltac:(lia)) as Hstep.
    apply first_valid_page_Some in Hfv' as [Hpg' _]; [|done|lia|lia].
    assert (get_pageblock_migratetype (unset_migratetype_isolate_cma z pg mt) pg'
            = get_pageblock_migratetype z pg') as ->; [|done].
    rewrite unset_migratetype_isolate_cma_label.
    apply decide_False. intros [Hsame _].
    assert (pageblock_nr p = pageblock_nr pfn) as Hpp by congruence.
    apply same_pageblock in Hpp; [lia|done].
Qed.

(** undo_range on an aligned range: it returns 0; every pageblock of the
    range that has a valid frame and was labelled ISOLATE is labelled with
    the target and its free pages are on the target's free list; nothing
    else changes, neither the other labels nor the other pages; the calls
    are one [unset_migratetype_isolate_cma] per such pageblock, on its
    first valid page; and for a target other than ISOLATE no pageblock of
    the range that has a valid frame is left ISOLATE. *)
Theorem undo_range_postcondition fuel z start_pfn end_pfn mt :
  0 <= start_pfn -> end_pfn < 2 ^ BITS_PER_LONG ->
  aligned start_pfn -> aligned end_pfn ->
  enough_fuel fuel start_pfn end_pfn ->
  exists z1 log1,
    undo_isolate_page_range_cma fuel z start_pfn end_pfn mt = Returns 0 z1 log1
    /\ (forall q, start_pfn <= q < end_pfn -> pageblock_valid z q ->
                  get_pageblock_migratetype z q = MIGRATE_ISOLATE ->
                  get_pageblock_migratetype z1 q = mt)
    /\ (forall q, ~ (start_pfn <= q < end_pfn /\ pageblock_valid z q
                     /\ get_pageblock_migratetype z q = MIGRATE_ISOLATE) ->
                  get_pageblock_migratetype z1 q = get_pageblock_migratetype z q)
    /\ (forall f, mem_map z1 !! f =
                  (fun p => if decide (start_pfn <= f < end_pfn
                                       /\ get_pageblock_migratetype z f = MIGRATE_ISOLATE)
                            then move_page mt p else p) <$> mem_map z !! f)
    /\ log1 = (fun pg => call_unset_migratetype_isolate_cma pg mt)
                <$> omap (isolated_first_page z) (pageblocks_between start_pfn end_pfn)
    /\ (mt <> MIGRATE_ISOLATE ->
        forall q, start_pfn <= q < end_pfn -> pageblock_valid z q ->
                  get_pageblock_migratetype z1 q <> MIGRATE_ISOLATE).
Proof.
  intros H0 Hhi Hs He Hfuel.
  destruct (undo_pageblocks_spec mt end_pfn He Hhi fuel z start_pfn Hs H0 Hfuel)
    as (z1 & log1 & Hrun & Hsf & Hl1 & Hl2 & Hpgs).
  exists z1, log1. unfold undo_isolate_page_range_cma.
  apply misaligned_false in Hs as Hs', He as He'. rewrite Hs', He', Hrun.
  split; [done|]. split; [done|]. split; [|split; [done|split]].
  - intros q Hq. destruct (Hl1 q) as [?|(Hr & Hv & Hi & _)]; [done|].
    exfalso. by apply Hq.
  - by eapply undo_pageblocks_log.
  - intros Hmt q Hq Hv Hiso.
    destruct (Hl1 q) as [Heq|(_ & _ & _ & Hm)]; [|congruence].
    rewrite Heq in Hiso. apply Hmt. rewrite <- (Hl2 q Hq Hv Hiso). congruence.
Qed.

(** [unset_migratetype_isolate_cma] on a page of an ISOLATE pageblock
    touches that pageblock only: its label becomes the target, its free
    pages go to the target's free list with the target as hint, the counter
    of the target grows by the number of frames moved; the labels and the
    pages of the other pageblocks and the other counters are as they were.
    For a target other than ISOLATE a second call changes nothing more. *)
Theorem unset_isolate_own_pageblock z pg mt :
  get_pageblock_migratetype z pg = MIGRATE_ISOLATE ->
  let z' := unset_migratetype_isolate_cma z pg mt in
  (forall q, get_pageblock_migratetype z' q =
             if decide (pageblock_nr q = pageblock_nr pg) then mt
             else get_pageblock_migratetype z q)
  /\ (forall f, mem_map z' !! f =
                (fun p => if decide (pageblock_nr f = pageblock_nr pg)
                          then move_page mt p else p) <$> mem_map z !! f)
  /\ vm_stat z' !! mt
     = Some (default 0 (vm_stat z !! mt) + (move_freepages_block z pg mt).2)
  /\ (forall mt', mt' <> mt -> vm_stat z' !! mt' = vm_stat z !! mt')
  /\ (mt <> MIGRATE_ISOLATE -> unset_migratetype_isolate_cma z' pg mt = z').
Proof.
  intros Hiso z'. split; [|split; [|split; [|split]]].
  - intros q. unfold z'. rewrite unset_migratetype_isolate_cma_label.
    case_decide as H1; case_decide as H2; try done; exfalso.
    + destruct H1. congruence.
    + apply H1. split; [congruence|done].
  - intros f. unfold z'. rewrite unset_migratetype_isolate_cma_lookup.
    destruct (mem_map z !! f); [simpl|done].
    case_bool_decide as H1; case_decide as H2; try done; exfalso.
    + by destruct H1.
    + by apply H1.
  - unfold z'. rewrite unset_migratetype_isolate_cma_unfold.
    rewrite decide_False by (by intros ?). cbn. apply lookup_insert_eq.
  - intros mt' Hne. unfold z'. rewrite unset_migratetype_isolate_cma_unfold.
    rewrite decide_False by (by intros ?). cbn. by apply lookup_insert_ne.
  - intros Hmt. apply unset_migratetype_isolate_cma_noop.
    unfold z'. rewrite unset_migratetype_isolate_cma_label.
    by rewrite decide_True.
Qed.

(** *** What the range verifier changes *)

Lemma move_page_isolate_idemp pg :
  move_page MIGRATE_ISOLATE (move_page MIGRATE_ISOLATE pg) = move_page MIGRATE_ISOLATE pg.
Proof. unfold move_page. by destruct (PageBuddy pg) eqn:Hb; simpl; rewrite ?Hb. Qed.

Lemma repaired_refl z : repaired z z.
Proof. split; [done|]. split; [done|]. intros f. by left. Qed.

Lemma repaired_trans z1 z2 z3 : repaired z1 z2 -> repaired z2 z3 -> repaired z1 z3.
Proof.
  intros (Hf1 & Hv1 & Hp1) (Hf2 & Hv2 & Hp2).
  split; [congruence|]. split; [congruence|]. intros f.
  destruct (Hp2 f) as [H2|(pg2 & Hz2 & Hb2 & Hz3)];
    destruct (Hp1 f) as [H1|(pg1 & Hz1 & Hb1 & Hz2')].
  - left. congruence.
  - right. exists pg1. split; [done|]. split; [done|]. congruence.
  - right. exists pg2. split; [congruence|]. split; [done|]. congruence.
  - right. exists pg1. split; [done|]. split; [done|].
    rewrite Hz2 in Hz2'. injection Hz2' as ->.
    by rewrite Hz3, move_page_isolate_idemp.
Qed.

Lemma move_freepages_repaired z first last :
  repaired z (move_freepages z first last MIGRATE_ISOLATE).1.
Proof.
  split; [done|]. split; [done|]. intros f. rewrite move_freepages_lookup.
  destruct (mem_map z !! f) as [pg|] eqn:Hf; [simpl|by left].
  destruct (in_extent first last f); [|by left].
  destruct (PageBuddy pg) eqn:Hb.
  - right. by exists pg.
  - left. unfold move_page. by rewrite Hb.
Qed.

(** What a page looks like after repairs. *)
Lemma repaired_lookup z z' f :
  repaired z z' ->
  match mem_map z !! f with
  | None => mem_map z' !! f = None
  | Some pg =>
      exists pg', mem_map z' !! f = Some pg'
        /\ PageBuddy pg' = PageBuddy pg /\ page_order pg' = page_order pg
        /\ page_count pg' = page_count pg /\ PageHWPoison pg' = PageHWPoison pg
        /\ (PageBuddy pg = false -> pg' = pg)
        /\ (get_freepage_migratetype pg = MIGRATE_ISOLATE ->
            get_freepage_migratetype pg' = MIGRATE_ISOLATE)
  end.
Proof.
  intros (_ & _ & Hp). destruct (Hp f) as [Heq|(pg & Hz & Hb & Hz')].
  - rewrite Heq. destruct (mem_map z !! f) as [pg|]; [|done]. by exists pg.
  - rewrite Hz. exists (move_page MIGRATE_ISOLATE pg). split; [done|].
    destruct (move_page_fields MIGRATE_ISOLATE pg) as (Hc & _ & Hb' & Ho & Hpo).
    split; [done|]. split; [done|]. split; [done|]. split; [done|].
    split; [congruence|]. intros _. apply move_page_hint_isolate. by right.
Qed.

Lemma repaired_pages_agree z z' : repaired z z' -> pages_agree z z'.
Proof.
  intros (_ & _ & Hp) f. destruct (Hp f) as [->|(pg & -> & _ & ->)].
  - by destruct (mem_map z !! f).
  - apply move_page_fields.
Qed.

Lemma repair_call_before z first last c :
  repair_call (move_freepages z first last MIGRATE_ISOLATE).1 c -> repair_call z c.
Proof.
  intros (p & pg1 & -> & Hp & Hb & Hh). rewrite move_freepages_lookup in Hp.
  destruct (mem_map z !! p) as [pg0|] eqn:Hz; [|done]. simpl in Hp.
  injection Hp as <-. exists p, pg0.
  destruct (in_extent first last p); [|done].
  unfold move_page in *. destruct (PageBuddy pg0) eqn:Hb0; [|congruence].
  by simpl in Hh.
Qed.

(** The content walk in terms of repairs: the zone it leaves is the zone
    it was given with buddy pages moved to the ISOLATE list; its calls are
    repair calls; without a call the zone is untouched; and run again on
    the zone it leaves (or on one repaired further) the walk ends at the
    same frame without a call and without a change. *)
Lemma test_walk_cma_repaired end_pfn skip :
  forall fuel z pfn failed z' log pfn' failed',
  test_walk_cma fuel z pfn end_pfn skip failed = Some (z', log, pfn', failed') ->
  repaired z z'
  /\ Forall (repair_call z) log
  /\ (log = [] -> z' = z)
  /\ failed' = (if pfn' <? end_pfn then pfn' else failed)
  /\ forall z'' failed2, repaired z' z'' ->
       test_walk_cma fuel z'' pfn end_pfn skip failed2
       = Some (z'', [], pfn', if pfn' <? end_pfn then pfn' else failed2).
Proof.
  induction fuel as [|fuel IH]; intros z pfn failed z' log pfn' failed'; [done|].
  rewrite test_walk_cma_step. destruct (Z.ltb_spec pfn end_pfn) as [Hlt|Hge].
  2:{ intros [= <- <- <- <-]. rewrite (proj2 (Z.ltb_ge _ _)) by done.
      split; [apply repaired_refl|]. split; [done|]. split; [done|]. split; [done|].
      intros z'' failed2 _. rewrite test_walk_cma_step.
      by rewrite (proj2 (Z.ltb_ge _ _)) by done. }
  destruct (mem_map z !! pfn) as [pg|] eqn:Hpg.
  2:{ intros Hrun.
      destruct (IH _ _ _ _ _ _ _ Hrun) as (Hrep & Hcalls & Hnil & Hfailed & Hagain).
      split; [done|]. split; [done|]. split; [done|]. split; [done|].
      intros z'' failed2 Hrep2.
      pose proof (repaired_lookup z z'' pfn (repaired_trans _ _ _ Hrep Hrep2)) as Hl.
      rewrite Hpg in Hl.
      rewrite test_walk_cma_step, (proj2 (Z.ltb_lt _ _)), Hl by done.
      by apply Hagain. }
  destruct (PageBuddy pg) eqn:Hb.
  - case_decide as Hhint.
    + cbv zeta.
      set (z1 := (move_freepages z pfn (pfn + order_nr_pages pg - 1) MIGRATE_ISOLATE).1).
      destruct (test_walk_cma fuel z1 (ulong (pfn + order_nr_pages pg)) end_pfn skip failed)
        as [[[[z2 log2] p2] f2]|] eqn:Hrec; [|done].
      intros Heq. simpl in Heq. injection Heq as <- <- <- <-.
      destruct (IH _ _ _ _ _ _ _ Hrec) as (Hrep & Hcalls & Hnil & Hfailed & Hagain).
      pose proof (move_freepages_repaired z pfn (pfn + order_nr_pages pg - 1)) as Hrep1.
      fold z1 in Hrep1.
      split; [by eapply repaired_trans|]. split; [|split; [done|split; [done|]]].
      * constructor; [by exists pfn, pg|].
        eapply Forall_impl; [done|]. intros c Hc. by eapply repair_call_before.
      * intros z'' failed2 Hrep2.
        pose proof (order_nr_pages_pos pg) as Hn.
        assert (mem_map z1 !! pfn = Some (move_page MIGRATE_ISOLATE pg)) as Hpg1.
        { unfold z1. rewrite move_freepages_lookup, Hpg. simpl. unfold in_extent.
          by rewrite (proj2 (Z.leb_le _ _)), (proj2 (Z.leb_le _ _)) by lia. }
        pose proof (repaired_lookup z1 z'' pfn (repaired_trans _ _ _ Hrep Hrep2)) as Hl.
        rewrite Hpg1 in Hl.
        destruct Hl as (pg' & Hpg' & Hb' & Ho' & _ & _ & _ & Hh').
        destruct (move_page_fields MIGRATE_ISOLATE pg) as (_ & _ & Hb1 & Ho1 & _).
        rewrite test_walk_cma_step, (proj2 (Z.ltb_lt _ _)), Hpg' by done.
        rewrite Hb', Hb1, Hb.
        rewrite decide_False
          by (intros Hne; apply Hne, Hh', move_page_hint_isolate; by right).
        replace (order_nr_pages pg') with (order_nr_pages pg)
          by (unfold order_nr_pages; by rewrite Ho', Ho1).
        by apply Hagain.
    + intros Hrun.
      destruct (IH _ _ _ _ _ _ _ Hrun) as (Hrep & Hcalls & Hnil & Hfailed & Hagain).
      split; [done|]. split; [done|]. split; [done|]. split; [done|].
      intros z'' failed2 Hrep2.
      pose proof (repaired_lookup z z'' pfn (repaired_trans _ _ _ Hrep Hrep2)) as Hl.
      rewrite Hpg in Hl. destruct Hl as (pg' & Hpg' & Hb' & Ho' & _ & _ & _ & Hh').
      rewrite test_walk_cma_step, (proj2 (Z.ltb_lt _ _)), Hpg' by done.
      rewrite Hb', Hb.
      rewrite decide_False by (intros Hne; by apply Hne, Hh').
      replace (order_nr_pages pg') with (order_nr_pages pg)
        by (unfold order_nr_pages; by rewrite Ho').
      by apply Hagain.
  - assert (forall z'', repaired z z'' -> mem_map z'' !! pfn = Some pg) as Hsame.
    { intros z'' Hrep2. pose proof (repaired_lookup z z'' pfn Hrep2) as Hl.
      rewrite Hpg in Hl. destruct Hl as (pg' & Hpg' & _ & _ & _ & _ & Hnb & _).
      by rewrite Hpg', (Hnb Hb). }
    assert (forall z2 log2 p2 f2,
              test_walk_cma fuel z (ulong (pfn + 1)) end_pfn skip failed
                = Some (z2, log2, p2, f2) ->
              (forall z'' failed2, repaired z z'' ->
                 test_walk_cma (S fuel) z'' pfn end_pfn skip failed2
                 = test_walk_cma fuel z'' (ulong (pfn + 1)) end_pfn skip failed2) ->
              repaired z z2
              /\ Forall (repair_call z) log2
              /\ (log2 = [] -> z2 = z)
              /\ f2 = (if p2 <? end_pfn then p2 else failed)
              /\ forall z'' failed2, repaired z2 z'' ->
                   test_walk_cma (S fuel) z'' pfn end_pfn skip failed2
                   = Some (z'', [], p2, if p2 <? end_pfn then p2 else failed2)) as Hnext.
    { intros z2 log2 p2 f2 Hrun Hstep.
      destruct (IH _ _ _ _ _ _ _ Hrun) as (Hrep & Hcalls & Hnil & Hfailed & Hagain).
      split; [done|]. split; [done|]. split; [done|]. split; [done|].
      intros z'' failed2 Hrep2.
      rewrite Hstep by (by eapply repaired_trans). by apply Hagain. }
    destruct (bool_decide (page_count pg = 0)
              && bool_decide (get_freepage_migratetype pg = MIGRATE_ISOLATE)) eqn:Hfree.
    { intros Hrun. apply (Hnext _ _ _ _ Hrun). intros z'' failed2 Hrep2.
      by rewrite test_walk_cma_step, (proj2 (Z.ltb_lt _ _)), (Hsame z'' Hrep2), Hb, Hfree
        by done. }
    destruct (skip && PageHWPoison pg) eqn:Hpoison.
    { intros Hrun. apply (Hnext _ _ _ _ Hrun). intros z'' failed2 Hrep2.
      by rewrite test_walk_cma_step, (proj2 (Z.ltb_lt _ _)), (Hsame z'' Hrep2), Hb,
        Hfree, Hpoison by done. }
    intros [= <- <- <- <-]. rewrite (proj2 (Z.ltb_lt _ _)) by done.
    split; [apply repaired_refl|]. split; [done|]. split; [done|]. split; [done|].
    intros z'' failed2 Hrep2.
    by rewrite test_walk_cma_step, (proj2 (Z.ltb_lt _ _)), (Hsame z'' Hrep2), Hb,
      Hfree, Hpoison by done.
Qed.

Lemma check_pageblocks_ext end_pfn z z' :
  same_frames z z' -> pageblock_flags z' = pageblock_flags z ->
  forall fuel pfn, check_pageblocks fuel z' pfn end_pfn = check_pageblocks fuel z pfn end_pfn.
Proof.
  intros Hsf Hfl. induction fuel as [|fuel IH]; intros pfn; [done|]. simpl.
  rewrite (first_valid_page_same_frames z z') by done. rewrite !IH.
  destruct (pfn <? end_pfn); [|done].
  destruct (__first_valid_page z pfn pageblock_nr_pages) as [pg|]; [|done].
  unfold get_pageblock_migratetype. by rewrite Hfl.
Qed.

(** The range verifier repairs and does nothing else: whatever it
    returns, the zone it leaves has the labels and the counters of the zone
    it was given, and its pages too but for buddy pages moved to the
    ISOLATE free list and stamped ISOLATE; every call it makes is
    [move_freepages] to ISOLATE over the extent of a buddy page whose hint
    was not ISOLATE; and when it makes no call the zone is untouched. *)
Theorem test_range_repairs_only fuel z start_pfn end_pfn skip failed ret z' log :
  test_pages_isolated_cma fuel z start_pfn end_pfn skip failed = Returns ret z' log ->
  repaired z z' /\ Forall (repair_call z) log /\ (log = [] -> z' = z).
Proof.
  unfold test_pages_isolated_cma.
  destruct (check_pageblocks fuel z start_pfn end_pfn) as [pfn|]; [|done].
  destruct (_ || _); [intros [= <- <- <-]; split; [apply repaired_refl|done]|].
  unfold __test_page_isolated_in_pageblock_cma.
  destruct (test_walk_cma fuel z start_pfn end_pfn skip failed)
    as [[[[z1 log1] p1] f1]|] eqn:Hwalk; [|done].
  simpl. intros [= <- <- <-].
  by destruct (test_walk_cma_repaired _ _ _ _ _ _ _ _ _ _ Hwalk) as (? & ? & ? & _).
Qed.

(** The range verifier is idempotent: run again on the zone it leaves,
    with the same arguments, it returns the same verdict and the same
    content of [*pfailed_pfn], makes no call and changes nothing. *)
Theorem test_range_idempotent fuel z start_pfn end_pfn skip failed ret z' log :
  test_pages_isolated_cma fuel z start_pfn end_pfn skip failed = Returns ret z' log ->
  test_pages_isolated_cma fuel z' start_pfn end_pfn skip failed = Returns ret z' [].
Proof.
  unfold test_pages_isolated_cma.
  destruct (check_pageblocks fuel z start_pfn end_pfn) as [pfn|] eqn:Hchk; [|done].
  destruct (_ || _) eqn:Hphase1.
  { intros [= <- <- <-]. by rewrite Hchk, Hphase1. }
  unfold __test_page_isolated_in_pageblock_cma.
  destruct (test_walk_cma fuel z start_pfn end_pfn skip failed)
    as [[[[z1 log1] p1] f1]|] eqn:Hwalk; [|done].
  simpl. intros [= <- <- <-].
  destruct (test_walk_cma_repaired _ _ _ _ _ _ _ _ _ _ Hwalk)
    as (Hrep & _ & _ & Hfailed & Hagain).
  pose proof (pages_agree_same_frames _ _ (repaired_pages_agree _ _ Hrep)) as Hsf.
  destruct Hrep as (Hfl & _ & _).
  rewrite (check_pageblocks_ext end_pfn z z1 Hsf Hfl), Hchk.
  rewrite (first_valid_page_same_frames z z1) by done. rewrite Hphase1.
  rewrite (Hagain z1 failed (repaired_refl z1)). simpl. by rewrite Hfailed.
Qed.

(** *** The skip-poisoned flag *)

(** A walk that consumes the range without tolerating poisoned pages is
    the same walk when it tolerates them. *)
Lemma test_walk_cma_skip_mono end_pfn : forall fuel z pfn failed z' log pfn' failed',
  test_walk_cma fuel z pfn end_pfn false failed = Some (z', log, pfn', failed') ->
  end_pfn <= pfn' ->
  test_walk_cma fuel z pfn end_pfn true failed = Some (z', log, pfn', failed').
Proof.
  induction fuel as [|fuel IH]; intros z pfn failed z' log pfn' failed'; [done|].
  rewrite !test_walk_cma_step. destruct (Z.ltb_spec pfn end_pfn) as [Hlt|Hge]; [|done].
  destruct (mem_map z !! pfn) as [pg|]; [|by apply IH].
  destruct (PageBuddy pg).
  - case_decide; [|by apply IH]. cbv zeta.
    destruct (test_walk_cma fuel _ _ end_pfn false failed)
      as [[[[z2 log2] p2] f2]|] eqn:Hrec; [|done].
    intros Heq Hend. simpl in Heq. injection Heq as <- <- <- <-.
    by rewrite (IH _ _ _ _ _ _ _ Hrec Hend).
  - destruct (_ && _); [by apply IH|]. simpl.
    intros [= <- <- <- <-] Hend. lia.
Qed.

(** Tolerating poisoned pages never turns a pass into a failure: when
    test_range returns 0 with skip-poisoned false, it returns 0 with
    skip-poisoned true as well, with the same repairs and the same zone. *)
Theorem test_range_skip_poisoned_mono fuel z start_pfn end_pfn failed failed' z' log :
  test_pages_isolated_cma fuel z start_pfn end_pfn false failed = Returns (0, failed') z' log ->
  test_pages_isolated_cma fuel z start_pfn end_pfn true failed = Returns (0, failed') z' log.
Proof.
  unfold test_pages_isolated_cma.
  destruct (check_pageblocks fuel z start_pfn end_pfn) as [pfn|]; [|done].
  destruct (_ || _); [done|].
  unfold __test_page_isolated_in_pageblock_cma.
  destruct (test_walk_cma fuel z start_pfn end_pfn false failed)
    as [[[[z1 log1] p1] f1]|] eqn:Hwalk; [|done].
  simpl. destruct (Z.ltb_spec p1 end_pfn) as [Hlt|Hge]; [by intros [=]|].
  intros Heq. rewrite (test_walk_cma_skip_mono _ _ _ _ _ _ _ _ _ Hwalk Hge). simpl.
  by rewrite (proj2 (Z.ltb_ge _ _)) by done.
Qed.

Lemma no_poison_pages_agree z z' : pages_agree z z' -> no_poison z -> no_poison z'.
Proof.
  intros Hag Hnp f pg' Hf. specialize (Hag f). rewrite Hf in Hag.
  destruct (mem_map z !! f) as [pg|] eqn:Hz; [|done].
  destruct Hag as (_ & _ & _ & _ & ->). by eapply Hnp.
Qed.

Lemma test_walk_cma_no_poison end_pfn : forall fuel z pfn failed,
  no_poison z ->
  test_walk_cma fuel z pfn end_pfn true failed = test_walk_cma fuel z pfn end_pfn false failed.
Proof.
  induction fuel as [|fuel IH]; intros z pfn failed Hnp; [done|].
  rewrite !test_walk_cma_step. destruct (pfn <? end_pfn); [|done].
  destruct (mem_map z !! pfn) as [pg|] eqn:Hpg; [|by apply IH].
  destruct (PageBuddy pg).
  - case_decide; [|by apply IH]. cbv zeta. rewrite IH; [done|].
    eapply no_poison_pages_agree; [apply move_freepages_pages_agree|done].
  - destruct (_ && _); [by apply IH|].
    by rewrite (Hnp pfn pg Hpg), andb_false_r.
Qed.

(** In a zone without hardware-poisoned pages the skip-poisoned flag makes
    no difference to test_range. *)
Theorem test_range_no_poison_skip_irrelevant fuel z start_pfn end_pfn failed :
  no_poison z ->
  test_pages_isolated_cma fuel z start_pfn end_pfn true failed
  = test_pages_isolated_cma fuel z start_pfn end_pfn false failed.
Proof.
  intros Hnp. unfold test_pages_isolated_cma, __test_page_isolated_in_pageblock_cma.
  by rewrite test_walk_cma_no_poison.
Qed.

(** *** The legacy verifier on its own *)



(** *** The label check *)

Lemma first_valid_page_range z pfn nr :
  0 <= pfn -> pfn + nr <= 2 ^ BITS_PER_LONG ->
  match __first_valid_page z pfn nr with
  | Some pg => pfn <= pg < pfn + nr /\ is_Some (mem_map z !! pg)
  | None => forall f, pfn <= f < pfn + nr -> mem_map z !! f = None
  end.
Proof.
  intros H0 Hhi. unfold __first_valid_page.
  destruct (first_valid_scan z pfn 0 (Z.to_nat nr)) as [pg|] eqn:Hscan.
  - apply first_valid_scan_Some in Hscan as (j & Hj & -> & Hv).
    rewrite ulong_small in * by lia. split; [lia|done].
  - intros f Hf.
    pose proof (first_valid_scan_None _ _ _ _ Hscan (f - pfn) ltac:(lia)) as Hn.
    rewrite ulong_small in Hn by lia.
    by replace (pfn + (f - pfn)) with f in Hn by lia.
Qed.

Lemma check_pageblocks_inv end_pfn :
  aligned end_pfn -> end_pfn < 2 ^ BITS_PER_LONG ->
  forall fuel z pfn p,
  aligned pfn -> 0 <= pfn ->
  check_pageblocks fuel z pfn end_pfn = Some p ->
  pfn <= p /\ aligned p
  /\ (forall q, pfn <= q < p -> q < end_pfn -> pageblock_valid z q ->
                get_pageblock_migratetype z q = MIGRATE_ISOLATE)
  /\ (p < end_pfn ->
      pageblock_valid z p /\ get_pageblock_migratetype z p <> MIGRATE_ISOLATE).
Proof.
  intros He Hhi. pose proof pageblock_nr_pages_pos as HB.
  induction fuel as [|fuel IH]; intros z pfn p Hp H0; [done|]. simpl.
  destruct (Z.ltb_spec pfn end_pfn) as [Hlt|Hge].
  2:{ intros [= <-]. split; [lia|]. split; [done|]. split; lia. }
  destruct (next_pageblock _ _ Hp He H0 Hhi Hlt) as [Hnext Hle]. rewrite Hnext.
  assert (forall q, pageblock_nr pfn = pageblock_nr q <-> pfn <= q < pfn + pageblock_nr_pages)
    as Hblk.
  { intros q. rewrite <- (same_pageblock pfn q Hp). split; congruence. }
  pose proof (fun p => IH z (pfn + pageblock_nr_pages) p (aligned_add _ Hp) ltac:(lia))
    as IH'.
  destruct (__first_valid_page z pfn pageblock_nr_pages) as [pg|] eqn:Hfv.
  - apply first_valid_page_Some in Hfv as [Hpg Hv]; [|done|done|lia].
    pose proof (get_pageblock_migratetype_same_block z _ _ Hpg) as Hlab.
    case_decide as Hiso.
    + intros [= <-]. split; [lia|]. split; [done|]. split; [lia|]. intros _.
      split; [by exists pg|by rewrite <- Hlab].
    + intros (Hle' & Hal & Hbelow & Hstop)%IH'.
      split; [lia|]. split; [done|]. split; [|done].
      intros q Hq Hqe Hqv. destruct (decide (q < pfn + pageblock_nr_pages)) as [Hin|].
      * rewrite <- (get_pageblock_migratetype_same_block z pfn q), <- Hlab
          by (apply Hblk; lia).
        done.
      * apply Hbelow; [lia|done|done].
  - apply first_valid_page_None in Hfv; [|done|done|lia].
    intros (Hle' & Hal & Hbelow & Hstop)%IH'.
    split; [lia|]. split; [done|]. split; [|done].
    intros q Hq Hqe Hqv. destruct (decide (q < pfn + pageblock_nr_pages)) as [Hin|].
    + exfalso. apply Hfv. destruct Hqv as (f & Hf & Hfv'). exists f.
      split; [|done]. rewrite Hf. symmetry. apply Hblk. lia.
    + apply Hbelow; [lia|done|done].
Qed.

(** test_range returns 0 on an aligned range only if every pageblock of
    the range that has a valid frame is labelled ISOLATE, and the range has
    a valid frame. *)
Theorem test_range_ok_labels fuel z start_pfn end_pfn skip failed failed' z' log :
  0 <= start_pfn <= end_pfn -> end_pfn < 2 ^ BITS_PER_LONG ->
  aligned start_pfn -> aligned end_pfn ->
  test_pages_isolated_cma fuel z start_pfn end_pfn skip failed = Returns (0, failed') z' log ->
  (forall q, start_pfn <= q < end_pfn -> pageblock_valid z q ->
             get_pageblock_migratetype z q = MIGRATE_ISOLATE
             /\ get_pageblock_migratetype z' q = MIGRATE_ISOLATE)
  /\ exists f, start_pfn <= f < end_pfn /\ is_Some (mem_map z !! f).
Proof.
  intros H0 Hhi Hs He. unfold test_pages_isolated_cma.
  destruct (check_pageblocks fuel z start_pfn end_pfn) as [pfn|] eqn:Hchk; [|done].
  destruct (Z.ltb_spec pfn end_pfn) as [Hlt|Hge]; [by intros [=]|]. simpl.
  case_bool_decide as Hnone; [by intros [=]|].
  unfold __test_page_isolated_in_pageblock_cma.
  destruct (test_walk_cma fuel z start_pfn end_pfn skip failed)
    as [[[[za loga] pa] fa]|] eqn:Hwalk; [|done].
  apply test_walk_cma_repaired in Hwalk as ((Hfl & _) & _).
  simpl. case_decide; [|by intros [=]]. intros [= <- <- <-].
  destruct (check_pageblocks_inv end_pfn He Hhi _ _ _ _ Hs ltac:(lia) Hchk)
    as (_ & _ & Hbelow & _).
  split.
  - intros q Hq Hv. assert (get_pageblock_migratetype z q = MIGRATE_ISOLATE) as Hiso
      by (apply Hbelow; [lia|lia|done]).
    split; [done|]. unfold get_pageblock_migratetype in *. by rewrite Hfl.
  - pose proof (first_valid_page_range z start_pfn (ulong (end_pfn - start_pfn))) as Hfv.
    rewrite ulong_small in * by lia.
    destruct (__first_valid_page z start_pfn (end_pfn - start_pfn)) as [pg|]; [|done].
    destruct Hfv as (Hr & Hv); [lia|lia|]. exists pg. split; [lia|done].
Qed.

(** After a successful isolate_range, test_range over the same range never
    fails on a label: when the range has a valid frame, test_range returns
    0, or it returns BUSY from its content walk with [*pfailed_pfn] set to
    the valid frame below [end_pfn] at which the walk stopped. *)
Theorem isolate_then_test_range fuel z start_pfn end_pfn mt skip z1 log1
    fuel' skip' failed ret failed' z2 log2 :
  0 <= start_pfn -> end_pfn < 2 ^ BITS_PER_LONG ->
  (exists f, start_pfn <= f < end_pfn /\ is_Some (mem_map z !! f)) ->
  start_isolate_page_range_cma fuel z start_pfn end_pfn mt skip = Returns 0 z1 log1 ->
  test_pages_isolated_cma fuel' z1 start_pfn end_pfn skip' failed
    = Returns (ret, failed') z2 log2 ->
  (ret = 0 /\ failed' = failed)
  \/ (ret = - EBUSY /\ failed' < end_pfn
      /\ exists pg, mem_map z2 !! failed' = Some pg /\ frame_offending skip' pg).
Proof.
  intros H0 Hhi (f & Hf & Hfv) Hiso.
  pose proof Hiso as (Hs & He & Hfw)%start_isolate_ok_inv.
  destruct (isolate_pageblocks_spec skip end_pfn He Hhi _ _ _ _ _ _ Hs H0 Hfw)
    as (_ & _ & _ & _ & Hlab & _). simpl in Hlab.
  pose proof (isolate_pageblocks_pages_agree _ _ _ _ _ _ _ _ Hfw)
    as Hsf%pages_agree_same_frames.
  unfold test_pages_isolated_cma.
  destruct (check_pageblocks fuel' z1 start_pfn end_pfn) as [pfn|] eqn:Hchk; [|done].
  destruct (check_pageblocks_inv end_pfn He Hhi _ _ _ _ Hs H0 Hchk)
    as (_ & Hpal & _ & Hstop).
  destruct (Z.ltb_spec pfn end_pfn) as [Hlt|Hge].
  { exfalso. destruct (Hstop Hlt) as [Hv Hne]. apply Hne.
    destruct (check_pageblocks_inv end_pfn He Hhi _ _ _ _ Hs H0 Hchk) as (Hle & _).
    apply Hlab; [lia|]. by apply (pageblock_valid_same_frames z z1 pfn Hsf). }
  simpl. case_bool_decide as Hnone.
  { exfalso.
    pose proof (first_valid_page_range z1 start_pfn (ulong (end_pfn - start_pfn))) as Hl.
    rewrite ulong_small in * by lia. rewrite Hnone in Hl.
    apply Hsf in Hfv. rewrite Hl in Hfv by lia. by destruct Hfv. }
  unfold __test_page_isolated_in_pageblock_cma.
  destruct (test_walk_cma fuel' z1 start_pfn end_pfn skip' failed)
    as [[[[za loga] pa] fa]|] eqn:Hwalk; [|done].
  assert (walk_inv z1 skip' start_pfn end_pfn start_pfn) as Hinv.
  { left. split; [done|]. intros g pg Hg. lia. }
  destruct (test_walk_cma_spec skip' start_pfn end_pfn H0 Hhi _ _ _ _ _ _ _ _ Hinv Hwalk)
    as (_ & _ & _ & _ & Hres).
  simpl. destruct (Z.ltb_spec pa end_pfn) as [Hlt|Hge']; simpl; intros [= <- <- <- <-].
  - right. destruct Hres as [[? _]|(_ & -> & Hoff)]; [lia|]. done.
  - left. destruct Hres as [[_ ->]|[? _]]; [done|lia].
Qed.

(** *** The legacy range driver *)

Section legacy_driver_properties.

Variable set_isolate : zone -> Z -> zone * Z.
Variable unset_isolate : zone -> Z -> zone.




Lemma undo_pageblocks_legacy_noop end_pfn :
  aligned end_pfn -> end_pfn < 2 ^ BITS_PER_LONG ->
  forall fuel z pfn,
  aligned pfn -> 0 <= pfn -> enough_fuel fuel pfn end_pfn ->
  (forall q, pfn <= q < end_pfn -> pageblock_valid z q ->
             get_pageblock_migratetype z q <> MIGRATE_ISOLATE) ->
  undo_pageblocks_legacy unset_isolate fuel z pfn end_pfn = Some (z, []).
Proof.
  intros He Hhi. pose proof pageblock_nr_pages_pos as HB.
  induction fuel as [|fuel IH]; intros z pfn Hp H0 Hfuel Hnone.
  { by apply enough_fuel_0 in Hfuel. }
  simpl. destruct (Z.ltb_spec pfn end_pfn) as [Hlt|Hge]; [|done].
  destruct (next_pageblock _ _ Hp He H0 Hhi Hlt) as [Hnext Hle]. rewrite Hnext.
  assert (undo_pageblocks_legacy unset_isolate fuel z (pfn + pageblock_nr_pages) end_pfn
          = Some (z, [])) as Hrec.
  { apply IH; [by apply aligned_add|lia|by apply enough_fuel_step|].
    intros q Hq. apply Hnone. lia. }
  destruct (__first_valid_page z pfn pageblock_nr_pages) as [pg|] eqn:Hfv; [|done].
  apply first_valid_page_Some in Hfv as [Hpg Hv]; [|done|done|lia].
  rewrite decide_True; [done|].
  rewrite (get_pageblock_migratetype_same_block z pg pfn Hpg).
  apply Hnone; [lia|]. exists pg. by split.
Qed.

(** Whatever [unset_migratetype_isolate] is, the legacy
    [undo_isolate_page_range] over an aligned range none of whose
    pageblocks with a valid frame is labelled ISOLATE returns 0, calls
    nothing and leaves the zone as it was. *)
Theorem legacy_undo_range_not_isolated fuel z start_pfn end_pfn :
  0 <= start_pfn -> end_pfn < 2 ^ BITS_PER_LONG ->
  aligned start_pfn -> aligned end_pfn -> enough_fuel fuel start_pfn end_pfn ->
  (forall q, start_pfn <= q < end_pfn -> pageblock_valid z q ->
             get_pageblock_migratetype z q <> MIGRATE_ISOLATE) ->
  undo_isolate_page_range unset_isolate fuel z start_pfn end_pfn = LegacyReturns 0 z [].
Proof.
  intros H0 Hhi Hs He Hfuel Hnone. unfold undo_isolate_page_range.
  rewrite (proj2 (misaligned_false start_pfn) Hs), (proj2 (misaligned_false end_pfn) He).
  by rewrite (undo_pageblocks_legacy_noop end_pfn He Hhi _ _ _ Hs H0 Hfuel Hnone).
Qed.

End legacy_driver_properties.

Lemma isolate_pageblocks_legacy_cma skip mt end_pfn : forall fuel z pfn,
  isolate_pageblocks fuel z pfn end_pfn skip
  = (fun '(z1, log, r) => (z1, cma_call skip mt <$> (log : list legacy_call), r))
      <$> isolate_pageblocks_legacy (fun z pg => set_migratetype_isolate_cma z pg skip)
            fuel z pfn end_pfn.
Proof.
  induction fuel as [|fuel IH]; intros z pfn; [done|]. simpl.
  destruct (pfn <? end_pfn); [|done].
  destruct (__first_valid_page z pfn pageblock_nr_pages) as [pg|]; [|apply IH].
  destruct (set_migratetype_isolate_cma z pg skip) as [z1 ret].
  case_decide; [done|]. rewrite IH.
  by destruct (isolate_pageblocks_legacy _ fuel z1 _ end_pfn) as [[[z2 log] r]|].
Qed.

Lemma rollback_pageblocks_legacy_cma skip mt undo_pfn : forall fuel z pfn,
  rollback_pageblocks fuel z pfn undo_pfn mt
  = (fun '(z1, log) => (z1, cma_call skip mt <$> (log : list legacy_call)))
      <$> rollback_pageblocks_legacy (fun z pg => unset_migratetype_isolate_cma z pg mt)
            fuel z pfn undo_pfn.
Proof.
  induction fuel as [|fuel IH]; intros z pfn; [done|]. simpl.
  destruct (pfn <? undo_pfn); [|done]. rewrite IH.
  by destruct (rollback_pageblocks_legacy _ fuel _ _ undo_pfn) as [[z2 log]|].
Qed.

Lemma undo_pageblocks_legacy_cma skip mt end_pfn : forall fuel z pfn,
  undo_pageblocks fuel z pfn end_pfn mt
  = (fun '(z1, log) => (z1, cma_call skip mt <$> (log : list legacy_call)))
      <$> undo_pageblocks_legacy (fun z pg => unset_migratetype_isolate_cma z pg mt)
            fuel z pfn end_pfn.
Proof.
  induction fuel as [|fuel IH]; intros z pfn; [done|]. simpl.
  destruct (pfn <? end_pfn); [|done].
  destruct (__first_valid_page z pfn pageblock_nr_pages) as [pg|]; [|apply IH].
  case_decide; [apply IH|]. rewrite IH.
  by destruct (undo_pageblocks_legacy _ fuel _ _ end_pfn) as [[z2 log]|].
Qed.

(** The CMA range driver is the legacy range driver run over the CMA
    primitives: [start_isolate_page_range_cma] and
    [undo_isolate_page_range_cma] make the calls, leave the zone and
    return the value that [start_isolate_page_range] and
    [undo_isolate_page_range] do when [set_migratetype_isolate] is
    [set_migratetype_isolate_cma] with the skip flag and
    [unset_migratetype_isolate] is [unset_migratetype_isolate_cma] with
    the recovery type. *)
Theorem cma_driver_is_legacy_driver fuel z start_pfn end_pfn mt skip :
  start_isolate_page_range_cma fuel z start_pfn end_pfn mt skip
  = cma_outcome skip mt
      (start_isolate_page_range
         (fun z pg => set_migratetype_isolate_cma z pg skip)
         (fun z pg => unset_migratetype_isolate_cma z pg mt)
         fuel z start_pfn end_pfn)
  /\ undo_isolate_page_range_cma fuel z start_pfn end_pfn mt
     = cma_outcome skip mt
         (undo_isolate_page_range
            (fun z pg => unset_migratetype_isolate_cma z pg mt)
            fuel z start_pfn end_pfn).
Proof.
  split.
  - unfold start_isolate_page_range_cma, start_isolate_page_range.
    destruct (misaligned start_pfn); [done|]. destruct (misaligned end_pfn); [done|].
    rewrite (isolate_pageblocks_legacy_cma skip mt).
    destruct (isolate_pageblocks_legacy _ fuel z start_pfn end_pfn)
      as [[[z1 log1] [u|]]|]; simpl; [|done|done].
    rewrite (rollback_pageblocks_legacy_cma skip mt).
    destruct (rollback_pageblocks_legacy _ fuel z1 start_pfn u) as [[z2 log2]|];
      simpl; [|done].
    by rewrite fmap_app.
  - unfold undo_isolate_page_range_cma, undo_isolate_page_range.
    destruct (misaligned start_pfn); [done|]. destruct (misaligned end_pfn); [done|].
    rewrite (undo_pageblocks_legacy_cma skip mt).
    by destruct (undo_pageblocks_legacy _ fuel z start_pfn end_pfn) as [[z1 log1]|].
Qed.

End page_isolation.

(** ** The concrete scenarios *)

(** Case analysis on the four frames of pageblock 0. *)
Lemma frames_of_pageblock_0 (P : Z -> Prop) :
  P 0 -> P 1 -> P 2 -> P 3 -> forall f, 0 <= f < 4 -> P f.
Proof.
  intros H0 H1 H2 H3 f Hf.
  assert (f = 0 \/ f = 1 \/ f = 2 \/ f = 3) as [->|[->|[->| ->]]] by lia; done.
Defined.

(** *** C1 *)

(** C1, counterexample.  isolate_range returns BUSY and the set of
    pageblocks labelled ISOLATE is not the pre-call set: pageblock 0, ISOLATE
    before the call, is given the undo migratetype MOVABLE by the rollback;
    and pageblock 0, MOVABLE before the call, is left ISOLATE by a rollback
    whose undo migratetype is ISOLATE. *)
Lemma isolate_range_busy_isolate_set_changed :
  (exists z' log,
     start_isolate_page_range_cma 2 (pinned_in_pageblock 2) 3 zone_overlap 0 8
       MIGRATE_MOVABLE false = Returns (- EBUSY) z' log
     /\ get_pageblock_migratetype 2 zone_overlap 0 = MIGRATE_ISOLATE
     /\ get_pageblock_migratetype 2 z' 0 = MIGRATE_MOVABLE)
  /\ (exists z' log,
        start_isolate_page_range_cma 2 (pinned_in_pageblock 2) 3 zone_partial 0 8
          MIGRATE_ISOLATE false = Returns (- EBUSY) z' log
        /\ get_pageblock_migratetype 2 zone_partial 0 = MIGRATE_MOVABLE
        /\ get_pageblock_migratetype 2 z' 0 = MIGRATE_ISOLATE).
Proof.
  split; eexists _, _; (split; [vm_compute; reflexivity|]);
    split; vm_compute; reflexivity.
Qed.

(** The amended C1 on the first of these calls. *)
Lemma isolate_range_busy_rollback_witness :
  exists z' log,
    start_isolate_page_range_cma 2 (pinned_in_pageblock 2) 3 zone_overlap 0 8
      MIGRATE_MOVABLE false = Returns (- EBUSY) z' log
    /\ exists undo_from,
         (aligned 2 undo_from /\ 0 <= undo_from < 8)
         /\ (forall p, aligned 2 p -> 0 <= p < undo_from ->
                       call_unset_migratetype_isolate_cma p MIGRATE_MOVABLE ∈ log)
         /\ (forall q, ~ 0 <= q < undo_from ->
                       get_pageblock_migratetype 2 z' q
                       = get_pageblock_migratetype 2 zone_overlap q)
         /\ (forall q, 0 <= q < undo_from -> pageblock_valid 2 zone_overlap q ->
                       get_pageblock_migratetype 2 z' q = MIGRATE_MOVABLE).
Proof.
  eexists _, _. split; [vm_compute; reflexivity|].
  edestruct (isolate_range_busy_rollback 2 (pinned_in_pageblock 2) 3 zone_overlap 0 8
               MIGRATE_MOVABLE false)
    as (u & z1 & l1 & Hu & _ & _ & _ & Hcalls & Hout & Hin & _);
    [lia|reflexivity|vm_compute; reflexivity|].
  exists u. split; [exact Hu|]. split; [exact Hcalls|]. split; [exact Hout|exact Hin].
Defined.

(** *** C2 and C3 *)

(** C2 on the stray-list race (scenario 3): test_range repairs the extent at
    frame 0 and returns 0; frame 1, the tail of the extent, is accepted as
    buddy-free with hint ISOLATE. *)
Lemma test_range_ok_frames_isolated_witness :
  exists z' log,
    test_pages_isolated_cma 2 5 zone_stray 0 4 false 77 = Returns (0, 77) z' log
    /\ log = [call_move_freepages 0 1 MIGRATE_ISOLATE]
    /\ mem_map z' !! 1 = Some tail_page
    /\ frame_isolated z' false 0 1 tail_page.
Proof.
  eexists _, _. split; [vm_compute; reflexivity|]. split; [reflexivity|].
  split; [vm_compute; reflexivity|].
  eapply (test_range_ok_frames_isolated 2 5 zone_stray 0 4 false 77 77);
    [lia|reflexivity|vm_compute; reflexivity|lia|vm_compute; reflexivity].
Defined.

(** C3 on the same zone, at frame 0: the walk repairs the extent of two
    frames, resumes at frame 2 and does not stop before it. *)
Lemma test_walk_cma_buddy_witness :
  exists z' log pfn' failed',
    test_walk_cma 5 zone_stray 0 4 false 77
      = Some (z', call_move_freepages 0 1 MIGRATE_ISOLATE :: log, pfn', failed')
    /\ test_walk_cma 4 (move_freepages zone_stray 0 1 MIGRATE_ISOLATE).1 2 4 false 77
       = Some (z', log, pfn', failed')
    /\ 2 <= pfn'
    /\ exists pg1, mem_map (move_freepages zone_stray 0 1 MIGRATE_ISOLATE).1 !! 0 = Some pg1
         /\ PageBuddy pg1 = true /\ page_order pg1 = 1%nat
         /\ free_list pg1 = MIGRATE_ISOLATE
         /\ get_freepage_migratetype pg1 = MIGRATE_ISOLATE.
Proof.
  pose proof (test_walk_cma_buddy 4 zone_stray 0 4 false 77 (free_page MIGRATE_MOVABLE 1))
    as H.
  cbv zeta in H. destruct H as [Hfix _];
    [lia|reflexivity| |vm_compute; lia|vm_compute; reflexivity|reflexivity|].
  { change (map_Forall (fun h hp => PageBuddy hp = true ->
                                    h + order_nr_pages hp < 2 ^ BITS_PER_LONG)
                       (mem_map zone_stray)).
    apply (bool_decide_unpack _). vm_compute. exact I. }
  destruct Hfix as (z' & log & pfn' & failed' & Hrun & Hrest & Hle & _ & Hpg);
    [discriminate|].
  exists z', log, pfn', failed'.
  split; [exact Hrun|]. split; [exact Hrest|]. split; [exact Hle|exact Hpg].
Defined.

(** *** C4 *)

(** C4, counterexample.  The pageblock has lost its ISOLATE label:
    test_range returns BUSY from the label check, and [*pfailed_pfn] still
    holds the value it held at the call, 77, which is no frame of the range
    (the offending frame is frame 0, valid and in use). *)
Lemma test_range_busy_label_check_leaves_failed_pfn :
  test_pages_isolated_cma 2 5 zone_label 0 4 false 77
    = Returns (- EBUSY, 77) zone_label []
  /\ ~ 0 <= 77 < 4
  /\ mem_map zone_label !! 0 = Some used_page.
Proof.
  split; [vm_compute; reflexivity|]. split; [lia|vm_compute; reflexivity].
Qed.

(** The amended C4 on a content failure: frame 1 is in use, test_range
    returns BUSY with [*pfailed_pfn] = 1, the first offending frame. *)
Lemma test_range_busy_failed_pfn_witness :
  exists z' log,
    test_pages_isolated_cma 2 5 zone_inuse 0 4 false 77 = Returns (- EBUSY, 1) z' log
    /\ mem_map z' !! 1 = Some used_page /\ frame_offending false used_page
    /\ frames_isolated z' false 0 1.
Proof.
  eexists _, _. split; [vm_compute; reflexivity|].
  edestruct (test_range_busy_failed_pfn 2 5 zone_inuse 0 4 false 77 1)
    as [(_ & Hfailed & _)|(_ & _ & _ & (pg & Hpg & Hoff) & Hfirst)];
    [lia|reflexivity|vm_compute; reflexivity|discriminate Hfailed|].
  assert (pg = used_page) as ->.
  { vm_compute in Hpg. by injection Hpg as <-. }
  split; [vm_compute; reflexivity|]. split; [exact Hoff|].
  apply Hfirst. intros h hp Hh Hb.
  assert (h = 0) as ->.
  { destruct (decide (h = 0)) as [|Hne0]; [done|].
    destruct (decide (h = 1)) as [->|Hne1].
    - vm_compute in Hh. injection Hh as <-. discriminate Hb.
    - exfalso. unfold zone_inuse in Hh. simpl in Hh.
      rewrite lookup_insert_ne in Hh by done.
      rewrite lookup_insert_ne in Hh by done.
      by rewrite lookup_empty in Hh. }
  vm_compute in Hh. injection Hh as <-. reflexivity.
Defined.

(** *** C5 *)

(** C5, counterexample.  On the empty range, and on a range whose frames
    are all absent, test_range returns BUSY, not 0. *)
Lemma test_range_empty_range_busy :
  test_pages_isolated_cma 2 2 zone_hole 0 0 false 77 = Returns (- EBUSY, 77) zone_hole []
  /\ test_pages_isolated_cma 2 2 zone_hole 0 4 false 77 = Returns (- EBUSY, 77) zone_hole []
  /\ (forall f, 0 <= f < 4 -> mem_map zone_hole !! f = None)
  /\ - EBUSY <> 0.
Proof.
  split; [vm_compute; reflexivity|]. split; [vm_compute; reflexivity|].
  split; [|discriminate].
  apply frames_of_pageblock_0; vm_compute; reflexivity.
Qed.

(** The amended C5 on a pageblock without any valid frame. *)
Lemma absent_range_noop_witness :
  start_isolate_page_range_cma 2 (pinned_in_pageblock 2) 2 zone_hole 0 4
    MIGRATE_MOVABLE false = Returns 0 zone_hole []
  /\ undo_isolate_page_range_cma 2 2 zone_hole 0 4 MIGRATE_MOVABLE = Returns 0 zone_hole []
  /\ test_pages_isolated_cma 2 2 zone_hole 0 4 false 77 = Returns (- EBUSY, 77) zone_hole [].
Proof.
  apply (absent_range_noop 2 (pinned_in_pageblock 2) 2 zone_hole 0 4 MIGRATE_MOVABLE false 77);
    [lia|reflexivity|reflexivity|reflexivity|reflexivity|].
  apply frames_of_pageblock_0; vm_compute; reflexivity.
Defined.

(** *** C6 *)

(** C6, counterexample.  With target ISOLATE every application of
    undo_range moves the free pages of an ISOLATE pageblock again and adds
    the moved count to the free-page counter again: the zone after the
    second application is not the zone after the first. *)
Lemma undo_range_isolate_target_not_idempotent :
  exists z1 log1 z2 log2,
    undo_isolate_page_range_cma 2 2 zone_isolated 0 4 MIGRATE_ISOLATE = Returns 0 z1 log1
    /\ undo_isolate_page_range_cma 2 2 z1 0 4 MIGRATE_ISOLATE = Returns 0 z2 log2
    /\ vm_stat z1 !! MIGRATE_ISOLATE = Some 1
    /\ vm_stat z2 !! MIGRATE_ISOLATE = Some 2
    /\ z2 <> z1.
Proof.
  eexists _, _, _, _. split; [vm_compute; reflexivity|].
  split; [vm_compute; reflexivity|].
  split; [vm_compute; reflexivity|]. split; [vm_compute; reflexivity|].
  intros Heq. apply (f_equal (fun z => vm_stat z !! MIGRATE_ISOLATE)) in Heq.
  vm_compute in Heq. discriminate Heq.
Qed.

(** The amended C6 with target MOVABLE. *)
Lemma undo_range_idempotent_witness :
  exists z1 log1,
    undo_isolate_page_range_cma 2 2 zone_isolated 0 4 MIGRATE_MOVABLE = Returns 0 z1 log1
    /\ undo_isolate_page_range_cma 2 2 z1 0 4 MIGRATE_MOVABLE = Returns 0 z1 [].
Proof.
  destruct (undo_range_idempotent 2 2 zone_isolated 0 4 MIGRATE_MOVABLE)
    as (z1 & log1 & Hrun & Hagain & _);
    [lia|reflexivity|reflexivity|reflexivity|reflexivity|].
  exists z1, log1. split; [exact Hrun|]. apply Hagain. discriminate.
Defined.

(** *** C7 *)

(** C7, counterexample.  With [M] = ISOLATE the round trip leaves the free
    page of the pageblock on the ISOLATE free list. *)
Lemma round_trip_isolate_target_on_isolate_list :
  (forall q, 0 <= q < 4 -> pageblock_valid 2 zone_free q)
  /\ exists z1 log1 z2 log2 pg,
       start_isolate_page_range_cma 2 (pinned_in_pageblock 2) 2 zone_free 0 4
         MIGRATE_MOVABLE false = Returns 0 z1 log1
       /\ undo_isolate_page_range_cma 2 2 z1 0 4 MIGRATE_ISOLATE = Returns 0 z2 log2
       /\ mem_map z2 !! 0 = Some pg
       /\ PageBuddy pg = true /\ free_list pg = MIGRATE_ISOLATE.
Proof.
  split.
  - apply frames_of_pageblock_0; exists 0; (split; [reflexivity|vm_compute; eauto]).
  - eexists _, _, _, _, _. split; [vm_compute; reflexivity|].
    split; [vm_compute; reflexivity|]. split; [vm_compute; reflexivity|].
    split; reflexivity.
Qed.

(** The amended C7 with target CMA (scenario 5, cross-undo label change). *)
Lemma isolate_undo_round_trip_witness :
  exists z1 log1 z2 log2,
    start_isolate_page_range_cma 2 (pinned_in_pageblock 2) 2 zone_free 0 4
      MIGRATE_MOVABLE false = Returns 0 z1 log1
    /\ undo_isolate_page_range_cma 2 2 z1 0 4 MIGRATE_CMA = Returns 0 z2 log2
    /\ (forall q, 0 <= q < 4 -> get_pageblock_migratetype 2 z2 q = MIGRATE_CMA)
    /\ (forall f pg, 0 <= f < 4 -> mem_map z2 !! f = Some pg -> PageBuddy pg = true ->
                     free_list pg <> MIGRATE_ISOLATE).
Proof.
  eexists _, _. 
  edestruct (isolate_undo_round_trip 2 (pinned_in_pageblock 2) 2 zone_free 0 4
               MIGRATE_MOVABLE false MIGRATE_CMA)
    as (z2 & log2 & Hundo & Hlab & _ & Hfree);
    [lia|reflexivity| |vm_compute; reflexivity|].
  - apply frames_of_pageblock_0; exists 0; (split; [reflexivity|vm_compute; eauto]).
  - exists z2, log2. split; [reflexivity|]. split; [exact Hundo|].
    split; [exact Hlab|]. apply Hfree. discriminate.
Defined.

(** *** C8 *)

(** C8 on the range [1, 8), misaligned, and on the range [0, 8). *)
Lemma range_alignment_bug_witness :
  (start_isolate_page_range_cma 2 (pinned_in_pageblock 2) 3 zone_overlap 1 8
     MIGRATE_MOVABLE false = Bug zone_overlap []
   /\ undo_isolate_page_range_cma 2 3 zone_overlap 1 8 MIGRATE_MOVABLE = Bug zone_overlap [])
  /\ (forall z' log,
        start_isolate_page_range_cma 2 (pinned_in_pageblock 2) 3 zone_overlap 0 8
          MIGRATE_MOVABLE false <> Bug z' log
        /\ undo_isolate_page_range_cma 2 3 zone_overlap 0 8 MIGRATE_MOVABLE <> Bug z' log).
Proof.
  split.
  - apply (range_alignment_bug 2 (pinned_in_pageblock 2) 3 zone_overlap 1 8
             MIGRATE_MOVABLE false).
    intros [Hs _]. discriminate Hs.
  - apply (range_alignment_bug 2 (pinned_in_pageblock 2) 3 zone_overlap 0 8
             MIGRATE_MOVABLE false).
    split; reflexivity.
Defined.

(** *** C9 *)

(** The range state of the comparison below. *)
Lemma zone_quiet_comparable : legacy_comparable zone_quiet 0 4.
Proof.
  intros f pg Hf. revert f Hf pg.
  apply (frames_of_pageblock_0
           (fun f => forall pg, mem_map zone_quiet !! f = Some pg -> _));
    intros pg Hpg; vm_compute in Hpg; injection Hpg as <-;
    (split; [split; [reflexivity|split; [intros Hb|intros Hb Hc]]|intros Hb]);
    try discriminate; reflexivity.
Defined.

(** C9 on a pageblock with a free extent, a page just freed and a page in
    use. *)
Lemma legacy_verifier_same_verdict_witness :
  __test_page_isolated_in_pageblock 5 zone_quiet 0 4 =
    (fun '(ret, z', log, _) => (ret, z', log))
      <$> __test_page_isolated_in_pageblock_cma 5 zone_quiet 0 4 false 77
  /\ test_pages_isolated 2 5 zone_quiet 0 4 =
     drop_failed (test_pages_isolated_cma 2 5 zone_quiet 0 4 false 77).
Proof.
  apply (proj2 (legacy_verifier_same_verdict 2 zone_quiet 0 4));
    [lia|reflexivity|left; exact zone_quiet_comparable].
Defined.

(** Where the private field and the freepage-migratetype hint of a
    refcount-0 page differ, so do the verdicts: the legacy verifier accepts
    the page on its private field, the repairing verifier refuses it on its
    hint. *)
Lemma legacy_verifier_reads_private :
  test_pages_isolated 2 5 zone_private 0 4 = Returns 0 zone_private []
  /\ test_pages_isolated_cma 2 5 zone_private 0 4 false 77
     = Returns (- EBUSY, 0) zone_private [].
Proof. split; vm_compute; reflexivity. Qed.

(** *** C10 *)

(** C10 on a range whose first pageblock has no valid frame. *)
Lemma rollback_unset_unconditional_witness :
  exists z' log,
    start_isolate_page_range_cma 2 (pinned_in_pageblock 2) 3 zone_hole 0 8
      MIGRATE_MOVABLE false = Returns (- EBUSY) z' log
    /\ exists undo_from z1 log1,
         isolate_pageblocks 2 (pinned_in_pageblock 2) 3 zone_hole 0 8 false
           = Some (z1, log1, Some undo_from)
         /\ (aligned 2 undo_from /\ 0 <= undo_from < 8)
         /\ log = log1 ++ ((fun p => call_unset_migratetype_isolate_cma p MIGRATE_MOVABLE)
                             <$> pageblocks_between 2 0 undo_from)
         /\ z' = foldl (fun za p => unset_migratetype_isolate_cma 2 za p MIGRATE_MOVABLE)
                       z1 (pageblocks_between 2 0 undo_from)
         /\ (forall p, aligned 2 p -> 0 <= p < undo_from ->
                       call_unset_migratetype_isolate_cma p MIGRATE_MOVABLE ∈ log).
Proof.
  eexists _, _. split; [vm_compute; reflexivity|].
  edestruct (rollback_unset_unconditional 2 (pinned_in_pageblock 2) 3 zone_hole 0 8
               MIGRATE_MOVABLE false)
    as (u & z1 & log1 & Hfw & Hu & _ & _ & Hlog & Hz & _ & Hcalls & _);
    [lia|reflexivity|vm_compute; reflexivity|].
  exists u, z1, log1. split; [exact Hfw|]. split; [exact Hu|].
  split; [exact Hlog|]. split; [exact Hz|exact Hcalls].
Defined.

(** The pageblock at frame 0 has no valid frame; the forward pass skips it,
    the rollback passes its first frame to [unset_migratetype_isolate_cma]. *)
Lemma rollback_unset_on_absent_frame :
  exists z',
    start_isolate_page_range_cma 2 (pinned_in_pageblock 2) 3 zone_hole 0 8
      MIGRATE_MOVABLE false
    = Returns (- EBUSY) z' [call_set_migratetype_isolate_cma 4 false;
                            call_unset_migratetype_isolate_cma 0 MIGRATE_MOVABLE]
    /\ pfn_valid_within zone_hole 0 = false
    /\ __first_valid_page zone_hole 0 (pageblock_nr_pages 2) = None.
Proof.
  eexists. split; [vm_compute; reflexivity|]. split; vm_compute; reflexivity.
Qed.

(** *** The first valid page *)

(** In the zone whose pageblock 0 is absent, the scan of [0, 8) returns
    frame 4 and the frames below it are absent. *)
Lemma first_valid_page_lowest_witness :
  __first_valid_page zone_hole 0 8 = Some 4
  /\ forall f, 0 <= f < 4 -> mem_map zone_hole !! f = None.
Proof.
  split; [vm_compute; reflexivity|].
  pose proof (first_valid_page_lowest zone_hole 0 8) as H.
  replace (__first_valid_page zone_hole 0 8) with (Some 4) in H
    by (vm_compute; reflexivity).
  destruct H as (_ & _ & Hlow); [lia|vm_compute; discriminate|exact Hlow].
Defined.

(** *** The range operations on the sample zones *)

(** The three operations keep the page records of the sample zones:
    isolate_range on its rollback path, undo_range, and test_range on the
    stray-list race. *)
Lemma range_operations_pages_agree_witness :
  (exists z' log,
     start_isolate_page_range_cma 2 (pinned_in_pageblock 2) 3 zone_partial 0 8
       MIGRATE_MOVABLE false = Returns (- EBUSY) z' log
     /\ pages_agree zone_partial z')
  /\ (exists z' log,
        undo_isolate_page_range_cma 2 2 zone_isolated 0 4 MIGRATE_MOVABLE
          = Returns 0 z' log
        /\ pages_agree zone_isolated z')
  /\ (exists z' log,
        test_pages_isolated_cma 2 5 zone_stray 0 4 false 77 = Returns (0, 77) z' log
        /\ pages_agree zone_stray z').
Proof.
  split; [|split]; eexists _, _; (split; [vm_compute; reflexivity|]).
  - eapply (proj1 (range_operations_pages_agree 2 (pinned_in_pageblock 2) 3 zone_partial
                     0 8 MIGRATE_MOVABLE false 77)).
    vm_compute; reflexivity.
  - eapply (proj1 (proj2 (range_operations_pages_agree 2 (pinned_in_pageblock 2) 2
                            zone_isolated 0 4 MIGRATE_MOVABLE false 77))).
    vm_compute; reflexivity.
  - eapply (proj2 (proj2 (range_operations_pages_agree 2 (pinned_in_pageblock 2) 5
                            zone_stray 0 4 MIGRATE_MOVABLE false 77))).
    vm_compute; reflexivity.
Defined.

(** isolate_range on the free MOVABLE pageblock: one call of the
    primitive on frame 0, the pageblock is ISOLATE and its free page is on
    the ISOLATE list. *)
Lemma isolate_range_success_witness :
  exists z1 log1,
    start_isolate_page_range_cma 2 (pinned_in_pageblock 2) 2 zone_free 0 4
      MIGRATE_MOVABLE false = Returns 0 z1 log1
    /\ get_pageblock_migratetype 2 z1 0 = MIGRATE_ISOLATE
    /\ (forall pg, mem_map z1 !! 0 = Some pg -> PageBuddy pg = true ->
                   free_list pg = MIGRATE_ISOLATE
                   /\ get_freepage_migratetype pg = MIGRATE_ISOLATE)
    /\ log1 = (fun pg => call_set_migratetype_isolate_cma pg false)
                <$> omap (fun p => __first_valid_page zone_free p (pageblock_nr_pages 2))
                         (pageblocks_between 2 0 4).
Proof.
  eexists _, _. split; [vm_compute; reflexivity|].
  edestruct (isolate_range_success 2 (pinned_in_pageblock 2) 2 zone_free 0 4
               MIGRATE_MOVABLE false)
    as (Hlab & _ & Hfree & _ & Hlog); [lia|reflexivity|vm_compute; reflexivity|].
  split; [|split; [|exact Hlog]].
  - apply Hlab; [lia|]. exists 0. split; [reflexivity|]. vm_compute. by eexists.
  - intros pg. apply Hfree. lia.
Defined.

(** undo_range on the isolated pageblock: one call of the primitive, and
    the pageblock is MOVABLE again. *)
Lemma undo_range_postcondition_witness :
  exists z1 log1,
    undo_isolate_page_range_cma 2 2 zone_isolated 0 4 MIGRATE_MOVABLE = Returns 0 z1 log1
    /\ get_pageblock_migratetype 2 z1 0 = MIGRATE_MOVABLE
    /\ log1 = (fun pg => call_unset_migratetype_isolate_cma pg MIGRATE_MOVABLE)
                <$> omap (isolated_first_page 2 zone_isolated) (pageblocks_between 2 0 4).
Proof.
  destruct (undo_range_postcondition 2 2 zone_isolated 0 4 MIGRATE_MOVABLE)
    as (z1 & log1 & Hrun & Hlab & _ & _ & Hlog & _);
    [lia|reflexivity|reflexivity|reflexivity|reflexivity|].
  exists z1, log1. split; [exact Hrun|]. split; [|exact Hlog].
  apply Hlab; [lia| |vm_compute; reflexivity].
  exists 0. split; [reflexivity|]. vm_compute. by eexists.
Defined.

(** [unset_migratetype_isolate_cma] on the isolated pageblock counts its
    one free frame on the MOVABLE counter, and a second call changes
    nothing. *)
Lemma unset_isolate_own_pageblock_witness :
  vm_stat (unset_migratetype_isolate_cma 2 zone_isolated 0 MIGRATE_MOVABLE)
    !! MIGRATE_MOVABLE
  = Some (default 0 (vm_stat zone_isolated !! MIGRATE_MOVABLE)
          + (move_freepages_block 2 zone_isolated 0 MIGRATE_MOVABLE).2)
  /\ unset_migratetype_isolate_cma 2
       (unset_migratetype_isolate_cma 2 zone_isolated 0 MIGRATE_MOVABLE) 0 MIGRATE_MOVABLE
     = unset_migratetype_isolate_cma 2 zone_isolated 0 MIGRATE_MOVABLE.
Proof.
  pose proof (unset_isolate_own_pageblock 2 zone_isolated 0 MIGRATE_MOVABLE) as H.
  cbv zeta in H.
  destruct H as (_ & _ & Hcount & _ & Hagain); [vm_compute; reflexivity|].
  split; [exact Hcount|]. apply Hagain. discriminate.
Defined.

(** *** The range verifier on the stray-list race *)

(** test_range repairs the stray extent and nothing else. *)
Lemma test_range_repairs_only_witness :
  exists z' log,
    test_pages_isolated_cma 2 5 zone_stray 0 4 false 77 = Returns (0, 77) z' log
    /\ repaired zone_stray z' /\ Forall (repair_call zone_stray) log.
Proof.
  eexists _, _. split; [vm_compute; reflexivity|].
  edestruct (test_range_repairs_only 2 5 zone_stray 0 4 false 77)
    as (Hrep & Hcalls & _); [vm_compute; reflexivity|].
  split; [exact Hrep|exact Hcalls].
Defined.

(** Run again on the zone it leaves, test_range has nothing to repair. *)
Lemma test_range_idempotent_witness :
  exists z' log,
    test_pages_isolated_cma 2 5 zone_stray 0 4 false 77 = Returns (0, 77) z' log
    /\ log <> []
    /\ test_pages_isolated_cma 2 5 z' 0 4 false 77 = Returns (0, 77) z' [].
Proof.
  eexists _, _. split; [vm_compute; reflexivity|]. split; [discriminate|].
  eapply (test_range_idempotent 2 5 zone_stray 0 4 false 77).
  vm_compute; reflexivity.
Defined.

(** Accepted without the skip flag, the range is accepted with it. *)
Lemma test_range_skip_poisoned_mono_witness :
  exists z' log,
    test_pages_isolated_cma 2 5 zone_stray 0 4 false 77 = Returns (0, 77) z' log
    /\ test_pages_isolated_cma 2 5 zone_stray 0 4 true 77 = Returns (0, 77) z' log.
Proof.
  eexists _, _. split; [vm_compute; reflexivity|].
  apply (test_range_skip_poisoned_mono 2 5 zone_stray 0 4 77 77).
  vm_compute; reflexivity.
Defined.

(** No page of the zone with a page in use is poisoned: the skip flag
    does not matter there. *)
Lemma test_range_no_poison_skip_irrelevant_witness :
  no_poison zone_inuse
  /\ test_pages_isolated_cma 2 5 zone_inuse 0 4 true 77
     = test_pages_isolated_cma 2 5 zone_inuse 0 4 false 77.
Proof.
  assert (no_poison zone_inuse) as Hno.
  { change (map_Forall (fun _ pg => PageHWPoison pg = false) (mem_map zone_inuse)).
    apply (bool_decide_unpack _). vm_compute. exact I. }
  split; [exact Hno|].
  apply (test_range_no_poison_skip_irrelevant 2 5 zone_inuse 0 4 77 Hno).
Defined.

(** test_range accepts the stray-list race only because the pageblock is
    labelled ISOLATE and has a valid frame. *)
Lemma test_range_ok_labels_witness :
  exists z' log,
    test_pages_isolated_cma 2 5 zone_stray 0 4 false 77 = Returns (0, 77) z' log
    /\ get_pageblock_migratetype 2 z' 2 = MIGRATE_ISOLATE
    /\ exists f, 0 <= f < 4 /\ is_Some (mem_map zone_stray !! f).
Proof.
  eexists _, _. split; [vm_compute; reflexivity|].
  edestruct (test_range_ok_labels 2 5 zone_stray 0 4 false 77 77)
    as (Hlab & Hvalid);
    [lia|reflexivity|reflexivity|reflexivity|vm_compute; reflexivity|].
  split; [|exact Hvalid].
  apply Hlab; [lia|]. exists 2. split; [reflexivity|]. vm_compute. by eexists.
Defined.

(** isolate_range accepts the pageblock whose page was just freed with a
    MOVABLE hint; test_range then reaches its content walk and stops on
    that page. *)
Lemma isolate_then_test_range_witness :
  exists z1 log1 z2 log2,
    start_isolate_page_range_cma 2 (pinned_in_pageblock 2) 2 zone_pcp 0 4
      MIGRATE_MOVABLE false = Returns 0 z1 log1
    /\ test_pages_isolated_cma 2 5 z1 0 4 false 77 = Returns (- EBUSY, 0) z2 log2
    /\ exists pg, mem_map z2 !! 0 = Some pg /\ frame_offending false pg.
Proof.
  eexists _, _, _, _. split; [vm_compute; reflexivity|].
  split; [vm_compute; reflexivity|].
  pose proof (fun z1 log1 =>
                isolate_then_test_range 2 (pinned_in_pageblock 2) 2 zone_pcp 0 4
                  MIGRATE_MOVABLE false z1 log1 5%nat false 77) as Hcomp.
  edestruct Hcomp as [[Hret _]|(_ & _ & Hoff)];
    [lia|reflexivity
    |exists 0; split; [lia|vm_compute; by eexists]
    |vm_compute; reflexivity|vm_compute; reflexivity
    |discriminate Hret|exact Hoff].
Defined.

(** test_range returns on the stray-list race. *)
Lemma test_pages_isolated_cma_returns_witness :
  exists ret failed' z' log,
    test_pages_isolated_cma 2 5 zone_stray 0 4 false 77 = Returns (ret, failed') z' log
    /\ (ret = 0 \/ ret = - EBUSY).
Proof.
  apply test_pages_isolated_cma_returns;
    [lia|reflexivity|reflexivity|reflexivity| |vm_compute; lia].
  change (map_Forall (fun h hp => PageBuddy hp = true ->
                                  h + order_nr_pages hp < 2 ^ BITS_PER_LONG)
                     (mem_map zone_stray)).
  apply (bool_decide_unpack _). vm_compute. exact I.
Defined.

(** isolate_range returns on the two pageblocks of which the second has a
    page in use. *)
Lemma start_isolate_page_range_cma_returns_witness :
  exists ret z' log,
    start_isolate_page_range_cma 2 (pinned_in_pageblock 2) 3 zone_partial 0 8
      MIGRATE_MOVABLE false = Returns ret z' log
    /\ (ret = 0 \/ ret = - EBUSY).
Proof.
  apply start_isolate_page_range_cma_returns;
    [lia|reflexivity|reflexivity|reflexivity|reflexivity].
Defined.

(** *** The legacy verifier and the legacy driver *)



(** The legacy undo over the CMA primitive leaves the free MOVABLE
    pageblock alone. *)
Lemma legacy_undo_range_not_isolated_witness :
  undo_isolate_page_range 2
    (fun z pg => unset_migratetype_isolate_cma 2 z pg MIGRATE_ISOLATE)
    2 zone_free 0 4 = LegacyReturns 0 zone_free [].
Proof.
  apply legacy_undo_range_not_isolated;
    [lia|reflexivity|reflexivity|reflexivity|reflexivity|].
  apply (frames_of_pageblock_0
           (fun q => pageblock_valid 2 zone_free q ->
                     get_pageblock_migratetype 2 zone_free q <> MIGRATE_ISOLATE));
    intros _; vm_compute; discriminate.
Defined.
